(** * Course progress service: sequence normalisation, adjacency, initialisation, cascade

    Shallow embedding of [Activity-Engine/src/services/CourseProgressService.ts].

    - The curriculum is a JavaScript object graph.  The objects' scalar fields
      are never assigned by the service; the arrays they hold are sorted in
      place.  Arrays therefore live in a heap, addressed by location, and an
      object holds the location of its array.  A location the heap does not
      hold reads as the empty array.
    - [sequence] is a JavaScript number that holds an integer: [Z].  IDs are
      strings; [x || null] turns the empty string into [null].
    - The database is a record of tables, each a list of rows in insertion
      order; [findFirst] answers with the first matching row of the table.
      The columns [id], [createdAt] and [updatedAt] are left out.  Deferred
      Prisma operations are data, run by [transaction].
    - The cascade engine runs in a state-and-exception monad over the
      database: a thrown error keeps the writes made before it. *)

From Stdlib Require Import ZArith.
From stdpp Require Import base option list sorting gmap strings.

Local Open Scope string_scope.
Local Open Scope list_scope.

(** ** Curriculum objects

    The interfaces [SectionItem], [Section], [Module], [CourseProgressData]
    and [SeperatedIds].  [Section] and [Module] are commands of Rocq: the two
    records are [CourseSection] and [CourseModule].  The array fields hold a
    location of the heap below. *)

Definition loc := positive.

Record SectionItem := mkSectionItem {
  sectionItemId : string;
  itemSequence : Z
}.

Record CourseSection := mkSection {
  sectionId : string;
  sectionSequence : Z;
  sectionItems : loc
}.

Record CourseModule := mkModule {
  moduleId : string;
  moduleSequence : Z;
  sections : loc
}.

Record CourseProgressData := mkCourseProgressData {
  courseInstanceId : string;
  studentIds : list string;
  modules : loc
}.

Record SeperatedIds := mkSeperatedIds {
  ids_modules : list string;
  ids_sections : list string;
  ids_sectionItems : list string;
  firstModule : option string;
  firstSection : option string;
  firstSectionItem : option string
}.

(** The [sequence] field, shared by the three interfaces. *)
Class Sequenced (A : Type) := sequence : A → Z.
Global Instance item_sequenced : Sequenced SectionItem := itemSequence.
Global Instance section_sequenced : Sequenced CourseSection := sectionSequence.
Global Instance module_sequenced : Sequenced CourseModule := moduleSequence.

(** ** [Array.prototype.sort((a, b) => a.sequence - b.sequence)]

    The sort is stable; for a comparator that is a total preorder the result
    of a stable sort is unique, so insertion from the right computes it. *)

Section Sorting.
Context {A : Type} `{Sequenced A}.

Fixpoint insertBySequence (x : A) (l : list A) : list A :=
  match l with
  | [] => [x]
  | y :: l' =>
      if (sequence x <=? sequence y)%Z then x :: y :: l'
      else y :: insertBySequence x l'
  end.

Definition sortBySequence (l : list A) : list A :=
  foldr insertBySequence [] l.

(** [arr.find(x => x.sequence === 1)] *)
Definition findSequenceOne (l : list A) : option A :=
  List.find (λ x, bool_decide (sequence x = 1%Z)) l.

(** The order of the comparator. *)
Definition seq_le (x y : A) : Prop := (sequence x ≤ sequence y)%Z.

End Sorting.

(** ** The heap of arrays *)

Record Heap := mkHeap {
  moduleArrays : gmap loc (list CourseModule);
  sectionArrays : gmap loc (list CourseSection);
  itemArrays : gmap loc (list SectionItem)
}.

Definition modulesOf (h : Heap) (cd : CourseProgressData) : list CourseModule :=
  moduleArrays h !!! modules cd.
Definition sectionsOf (h : Heap) (m : CourseModule) : list CourseSection :=
  sectionArrays h !!! sections m.
Definition itemsOf (h : Heap) (s : CourseSection) : list SectionItem :=
  itemArrays h !!! sectionItems s.

(** [mod.sections.sort(...)] and [sec.sectionItems.sort(...)]: in place. *)
Definition sortSections (l : loc) (h : Heap) : Heap :=
  {| moduleArrays := moduleArrays h;
     sectionArrays := alter sortBySequence l (sectionArrays h);
     itemArrays := itemArrays h |}.

Definition sortSectionItems (l : loc) (h : Heap) : Heap :=
  {| moduleArrays := moduleArrays h;
     sectionArrays := sectionArrays h;
     itemArrays := alter sortBySequence l (itemArrays h) |}.

(** [x || null] on a [string | undefined]: the empty string is falsy. *)
Definition orNull (v : option string) : option string :=
  match v with
  | Some s => if decide (s = "") then None else Some s
  | None => None
  end.

(** ** [extractAllIds] *)

(** Body of [for (const mod of sortedModules)]. *)
Definition sortModuleInPlace (h : Heap) (md : CourseModule) : Heap :=
  let h1 := sortSections (sections md) h in
  foldl (λ h' sec, sortSectionItems (sectionItems sec) h') h1 (sectionsOf h1 md).

Definition extractAllIds (cd : CourseProgressData) (h : Heap) : SeperatedIds * Heap :=
  (* 1), 2): a fresh array, sorted; the caller's array is not written *)
  let sortedModules := sortBySequence (modulesOf h cd) in
  (* 3) *)
  let h' := foldl sortModuleInPlace h sortedModules in
  (* 4) *)
  let modules := moduleId <$> sortedModules in
  let sections := sortedModules ≫= λ module, sectionId <$> sectionsOf h' module in
  let sectionItems :=
    sortedModules ≫= λ module,
      sectionsOf h' module ≫= λ section, sectionItemId <$> itemsOf h' section in
  (* 5) *)
  match findSequenceOne sortedModules with
  | None => (mkSeperatedIds modules sections sectionItems None None None, h')
  | Some firstModule =>
      let firstSection := findSequenceOne (sectionsOf h' firstModule) in
      let firstSectionItem :=
        orNull (firstSection ≫= λ s, sectionItemId <$> findSequenceOne (itemsOf h' s)) in
      (mkSeperatedIds modules sections sectionItems
         (Some (moduleId firstModule))
         (orNull (sectionId <$> firstSection))
         firstSectionItem, h')
  end.

(** ** [getNextData] *)

Record ModuleNextInput := mkModuleNextInput {
  mn_moduleId : string;
  mn_nextModuleId : option string;
  mn_courseInstanceId : string;
  mn_sectionId : option string
}.

Record SectionNextInput := mkSectionNextInput {
  sn_sectionId : string;
  sn_nextSectionId : option string;
  sn_moduleId : string;
  sn_sectionItemId : option string
}.

Record SectionItemNextInput := mkSectionItemNextInput {
  sin_sectionItemId : string;
  sin_nextSectionItemId : option string;
  sin_sectionId : string
}.

Record NextData := mkNextData {
  moduleNextData : list ModuleNextInput;
  sectionNextData : list SectionNextInput;
  sectionItemNextData : list SectionItemNextInput
}.

Definition moduleNextOf (h : Heap) (cid : string) (mods : list CourseModule)
    (index : nat) (module : CourseModule) : ModuleNextInput :=
  {| mn_moduleId := moduleId module;
     mn_nextModuleId := orNull (moduleId <$> mods !! S index);
     mn_courseInstanceId := cid;
     mn_sectionId := orNull (sectionId <$> findSequenceOne (sectionsOf h module)) |}.

Definition sectionNextOf (h : Heap) (module : CourseModule)
    (index : nat) (section : CourseSection) : SectionNextInput :=
  {| sn_sectionId := sectionId section;
     sn_nextSectionId := orNull (sectionId <$> sectionsOf h module !! S index);
     sn_moduleId := moduleId module;
     sn_sectionItemId := orNull (sectionItemId <$> findSequenceOne (itemsOf h section)) |}.

Definition sectionItemNextOf (h : Heap) (section : CourseSection)
    (index : nat) (item : SectionItem) : SectionItemNextInput :=
  {| sin_sectionItemId := sectionItemId item;
     sin_nextSectionItemId := orNull (sectionItemId <$> itemsOf h section !! S index);
     sin_sectionId := sectionId section |}.

Definition getNextData (cd : CourseProgressData) (h : Heap) : NextData :=
  let mods := modulesOf h cd in
  {| moduleNextData := imap (moduleNextOf h (courseInstanceId cd) mods) mods;
     sectionNextData := mods ≫= λ module, imap (sectionNextOf h module) (sectionsOf h module);
     sectionItemNextData :=
       mods ≫= λ module,
         sectionsOf h module ≫= λ section,
           imap (sectionItemNextOf h section) (itemsOf h section) |}.

(** ** The database (Prisma schema) *)

Inductive ProgressEnum := IN_PROGRESS | INCOMPLETE | COMPLETE.

Global Instance ProgressEnum_eq_dec : EqDecision ProgressEnum.
Proof. solve_decision. Defined.

(** [TotalProgress], unique on [(studentId, courseInstanceId)]. *)
Record TotalProgressRow := mkTotalProgress {
  tp_studentId : string;
  tp_courseInstanceId : string;
  tp_progress : Z
}.

(** [StudentCourseProgress], keyed by [(studentId, courseInstanceId)]. *)
Record StudentCourseProgressRow := mkCourseProgress {
  scp_studentId : string;
  scp_courseInstanceId : string;
  scp_progress : ProgressEnum
}.

(** [StudentModuleProgress], [StudentSectionProgress] and
    [StudentSectionItemProgress] have one shape, keyed by
    [(studentId, <entity>Id, courseInstanceId)]. *)
Record EntityProgressRow := mkEntityProgress {
  ep_studentId : string;
  ep_entityId : string;
  ep_courseInstanceId : string;
  ep_progress : ProgressEnum
}.

Record ModuleNextRow := mkModuleNext {
  mnr_moduleId : string;
  mnr_sectionId : string;
  mnr_nextModuleId : option string;
  mnr_courseInstanceId : string
}.

Record SectionNextRow := mkSectionNext {
  snr_sectionId : string;
  snr_sectionItemId : string;
  snr_nextSectionId : option string;
  snr_moduleId : string
}.

Record SectionItemNextRow := mkSectionItemNext {
  sinr_sectionItemId : string;
  sinr_nextSectionItemId : option string;
  sinr_sectionId : string
}.

Record Store := mkStore {
  totalProgress : list TotalProgressRow;
  studentCourseProgress : list StudentCourseProgressRow;
  studentModuleProgress : list EntityProgressRow;
  studentSectionProgress : list EntityProgressRow;
  studentSectionItemProgress : list EntityProgressRow;
  moduleNext : list ModuleNextRow;
  sectionNext : list SectionNextRow;
  sectionItemNext : list SectionItemNextRow
}.

(** The unique key of a row. *)
Class Keyed (R K : Type) := keyOf : R → K.
Global Instance total_keyed : Keyed TotalProgressRow (string * string) :=
  λ r, (tp_studentId r, tp_courseInstanceId r).
Global Instance course_keyed : Keyed StudentCourseProgressRow (string * string) :=
  λ r, (scp_studentId r, scp_courseInstanceId r).
Global Instance entity_keyed : Keyed EntityProgressRow (string * string * string) :=
  λ r, (ep_studentId r, ep_entityId r, ep_courseInstanceId r).
Global Instance moduleNext_keyed : Keyed ModuleNextRow string := mnr_moduleId.
Global Instance sectionNext_keyed : Keyed SectionNextRow string := snr_sectionId.
Global Instance sectionItemNext_keyed : Keyed SectionItemNextRow string := sinr_sectionItemId.

Section Tables.
Context {R K : Type} `{Keyed R K} `{EqDecision K}.

(** [findUnique({ where: key })] *)
Definition findUnique (k : K) (t : list R) : option R :=
  List.find (λ r, bool_decide (keyOf r = k)) t.

(** [createMany({ data, skipDuplicates: true })]: a row whose key is taken,
    by the table or by an earlier row of [data], is skipped. *)
Definition createManySkipDuplicates (data : list R) (t : list R) : list R :=
  foldl (λ t r, if findUnique (keyOf r) t is Some _ then t else t ++ [r]) t data.

(** [upsert({ where: key, update, create })] *)
Definition upsert (k : K) (update : R → R) (create : R) (t : list R) : list R :=
  match findUnique k t with
  | Some _ => (λ r, if decide (keyOf r = k) then update r else r) <$> t
  | None => t ++ [create]
  end.

End Tables.

(** The operations pushed on [progressRecords]: Prisma promises are lazy, they
    run when [prisma.$transaction] runs them. *)
Inductive PrismaOp :=
  | TotalProgressUpsert (studentId courseInstanceId : string)
  | StudentCourseProgressUpsert (studentId courseInstanceId : string)
  | StudentModuleProgressCreateMany (data : list EntityProgressRow)
  | StudentSectionProgressCreateMany (data : list EntityProgressRow)
  | StudentSectionItemProgressCreateMany (data : list EntityProgressRow)
  | ModuleNextUpsert (nextData : ModuleNextInput)
  | SectionNextUpsert (nextData : SectionNextInput)
  | SectionItemNextUpsert (nextData : SectionItemNextInput).

(** One operation.  [ModuleNext.sectionId] and [SectionNext.sectionItemId] are
    required columns ([String], not [String?]): an upsert whose [create] holds
    [null] there is rejected.  This is the one refusal that the service's own
    data flow produces; what else the database may refuse (a string that
    PostgreSQL does not store, a lost connection) is not modelled.  A refusal
    of the model is a refusal of the program; that the model accepts says
    nothing more than that this check was passed. *)
Definition runOp (op : PrismaOp) (st : Store) : option Store :=
  match op with
  | TotalProgressUpsert studentId courseInstanceId =>
      Some (mkStore
        (upsert (studentId, courseInstanceId)
           (λ r, mkTotalProgress (tp_studentId r) (tp_courseInstanceId r) 0)
           (mkTotalProgress studentId courseInstanceId 0)
           (totalProgress st))
        (studentCourseProgress st) (studentModuleProgress st)
        (studentSectionProgress st) (studentSectionItemProgress st)
        (moduleNext st) (sectionNext st) (sectionItemNext st))
  | StudentCourseProgressUpsert studentId courseInstanceId =>
      Some (mkStore (totalProgress st)
        (upsert (studentId, courseInstanceId) (λ r, r)
           (mkCourseProgress studentId courseInstanceId IN_PROGRESS)
           (studentCourseProgress st))
        (studentModuleProgress st)
        (studentSectionProgress st) (studentSectionItemProgress st)
        (moduleNext st) (sectionNext st) (sectionItemNext st))
  | StudentModuleProgressCreateMany data =>
      Some (mkStore (totalProgress st) (studentCourseProgress st)
        (createManySkipDuplicates data (studentModuleProgress st))
        (studentSectionProgress st) (studentSectionItemProgress st)
        (moduleNext st) (sectionNext st) (sectionItemNext st))
  | StudentSectionProgressCreateMany data =>
      Some (mkStore (totalProgress st) (studentCourseProgress st)
        (studentModuleProgress st)
        (createManySkipDuplicates data (studentSectionProgress st))
        (studentSectionItemProgress st)
        (moduleNext st) (sectionNext st) (sectionItemNext st))
  | StudentSectionItemProgressCreateMany data =>
      Some (mkStore (totalProgress st) (studentCourseProgress st)
        (studentModuleProgress st) (studentSectionProgress st)
        (createManySkipDuplicates data (studentSectionItemProgress st))
        (moduleNext st) (sectionNext st) (sectionItemNext st))
  | ModuleNextUpsert nextData =>
      sectionId ← mn_sectionId nextData;
      Some (mkStore (totalProgress st) (studentCourseProgress st)
        (studentModuleProgress st) (studentSectionProgress st)
        (studentSectionItemProgress st)
        (upsert (mn_moduleId nextData)
           (λ r, mkModuleNext (mnr_moduleId r) (mnr_sectionId r)
                   (mn_nextModuleId nextData) (mnr_courseInstanceId r))
           (mkModuleNext (mn_moduleId nextData) sectionId
              (mn_nextModuleId nextData) (mn_courseInstanceId nextData))
           (moduleNext st))
        (sectionNext st) (sectionItemNext st))
  | SectionNextUpsert nextData =>
      sectionItemId ← sn_sectionItemId nextData;
      Some (mkStore (totalProgress st) (studentCourseProgress st)
        (studentModuleProgress st) (studentSectionProgress st)
        (studentSectionItemProgress st) (moduleNext st)
        (upsert (sn_sectionId nextData)
           (λ r, mkSectionNext (snr_sectionId r) (snr_sectionItemId r)
                   (sn_nextSectionId nextData) (snr_moduleId r))
           (mkSectionNext (sn_sectionId nextData) sectionItemId
              (sn_nextSectionId nextData) (sn_moduleId nextData))
           (sectionNext st))
        (sectionItemNext st))
  | SectionItemNextUpsert nextData =>
      Some (mkStore (totalProgress st) (studentCourseProgress st)
        (studentModuleProgress st) (studentSectionProgress st)
        (studentSectionItemProgress st) (moduleNext st) (sectionNext st)
        (upsert (sin_sectionItemId nextData)
           (λ r, mkSectionItemNext (sinr_sectionItemId r)
                   (sin_nextSectionItemId nextData) (sinr_sectionId r))
           (mkSectionItemNext (sin_sectionItemId nextData)
              (sin_nextSectionItemId nextData) (sin_sectionId nextData))
           (sectionItemNext st)))
  end.

(** [prisma.$transaction(ops)]: in order, all or nothing. *)
Fixpoint transaction (ops : list PrismaOp) (st : Store) : option Store :=
  match ops with
  | [] => Some st
  | op :: ops' => st' ← runOp op st; transaction ops' st'
  end.

(** ** Errors and the service monad *)

(** The taxonomy of the specification. *)
Inductive ErrorKind := GatingViolation | NotFound | InitializationFailed | StorageFault.

Inductive ServiceError :=
  (* "Cannot update progress for sectionItemId ... because the previous item
     (...) is not complete." *)
  | PreviousItemNotComplete (sectionItemId previousSectionItemId : string)
  (* "Section item details not found for sectionItemId ..." *)
  | SectionItemDetailsNotFound (sectionItemId : string)
  (* "Section details not found for sectionId ..." *)
  | SectionDetailsNotFound (sectionId : string)
  (* "Module details not found for moduleId ..." *)
  | ModuleDetailsNotFound (moduleId : string)
  (* "Failed to initialize student progress" *)
  | FailedToInitialize
  (* whatever the repository throws *)
  | RepositoryError (kind : ErrorKind) (message : string).

Definition errorKind (e : ServiceError) : ErrorKind :=
  match e with
  | PreviousItemNotComplete _ _ => GatingViolation
  | SectionItemDetailsNotFound _ | SectionDetailsNotFound _
  | ModuleDetailsNotFound _ => NotFound
  | FailedToInitialize => InitializationFailed
  | RepositoryError kind _ => kind
  end.

Inductive Outcome (A : Type) :=
  | Ok (a : A)
  | Throw (e : ServiceError).
Arguments Ok {A} a.
Arguments Throw {A} e.

(** A computation over the database; what was written before a throw stays
    written. *)
Definition M (A : Type) : Type := Store → Outcome A * Store.

Global Instance M_ret : MRet M := λ A a st, (Ok a, st).
Global Instance M_bind : MBind M := λ A B f m st,
  match m st with
  | (Ok a, st') => f a st'
  | (Throw e, st') => (Throw e, st')
  end.
Definition throw {A} (e : ServiceError) : M A := λ st, (Throw e, st).
Definition readStore {A} (f : Store → A) : M A := λ st, (Ok (f st), st).

(** ** [initializeStudentProgress] *)

Record InitResult := mkInitResult {
  studentCount : nat;
  totalRecords : nat
}.

(** Body of [for (const item of section.sectionItems)]; the state is
    [(firstItemInitialized, sectionItemData)]. *)
Definition itemStep (courseInstanceId studentId : string) (sectionProgress : ProgressEnum)
    (acc : bool * list EntityProgressRow) (item : SectionItem)
    : bool * list EntityProgressRow :=
  let '(firstItemInitialized, sectionItemData) := acc in
  let itemProgress :=
    if bool_decide (sectionProgress = IN_PROGRESS) && negb firstItemInitialized
    then IN_PROGRESS else INCOMPLETE in
  (true,
   sectionItemData ++
     [mkEntityProgress studentId (sectionItemId item) courseInstanceId itemProgress]).

(** Body of [for (const section of module.sections)]; the state is
    [(firstSectionInitialized, sectionData, sectionItemData)]. *)
Definition sectionStep (h : Heap) (courseInstanceId studentId : string)
    (moduleProgress : ProgressEnum)
    (acc : bool * list EntityProgressRow * list EntityProgressRow)
    (section : CourseSection)
    : bool * list EntityProgressRow * list EntityProgressRow :=
  let '(firstSectionInitialized, sectionData, sectionItemData) := acc in
  let sectionProgress :=
    if bool_decide (moduleProgress = IN_PROGRESS) && negb firstSectionInitialized
    then IN_PROGRESS else INCOMPLETE in
  let sectionData :=
    sectionData ++
      [mkEntityProgress studentId (sectionId section) courseInstanceId sectionProgress] in
  let '(_, sectionItemData) :=
    foldl (itemStep courseInstanceId studentId sectionProgress)
      (false, sectionItemData) (itemsOf h section) in
  (true, sectionData, sectionItemData).

(** Body of [for (const module of modules)]; the state is
    [(previousModuleComplete, moduleData, sectionData, sectionItemData)].
    The [findUnique] is awaited at once: it reads the database as it is
    before the transaction. *)
Definition moduleStep (h : Heap) (st : Store) (courseInstanceId studentId : string)
    (acc : bool * list EntityProgressRow * list EntityProgressRow * list EntityProgressRow)
    (module : CourseModule)
    : bool * list EntityProgressRow * list EntityProgressRow * list EntityProgressRow :=
  let '(previousModuleComplete, moduleData, sectionData, sectionItemData) := acc in
  let moduleProgress := if previousModuleComplete then IN_PROGRESS else INCOMPLETE in
  let moduleData :=
    moduleData ++
      [mkEntityProgress studentId (moduleId module) courseInstanceId moduleProgress] in
  let '(_, sectionData, sectionItemData) :=
    foldl (sectionStep h courseInstanceId studentId moduleProgress)
      (false, sectionData, sectionItemData) (sectionsOf h module) in
  let currentModuleProgress :=
    findUnique (studentId, moduleId module, courseInstanceId) (studentModuleProgress st) in
  let previousModuleComplete :=
    match currentModuleProgress with
    | Some r => bool_decide (ep_progress r = COMPLETE)
    | None => false
    end in
  (previousModuleComplete, moduleData, sectionData, sectionItemData).

(** Body of [for (const studentId of studentIds)]; the state is
    [(totalRecords, progressRecords)]. *)
Definition studentStep (h : Heap) (st : Store) (courseData : CourseProgressData)
    (acc : nat * list PrismaOp) (studentId : string) : nat * list PrismaOp :=
  let '(totalRecords, progressRecords) := acc in
  let courseInstanceId := courseInstanceId courseData in
  let progressRecords :=
    progressRecords ++ [TotalProgressUpsert studentId courseInstanceId] in
  let progressRecords :=
    progressRecords ++ [StudentCourseProgressUpsert studentId courseInstanceId] in
  let totalRecords := totalRecords + 1 in
  let '(_, moduleData, sectionData, sectionItemData) :=
    foldl (moduleStep h st courseInstanceId studentId)
      (true, [], [], []) (modulesOf h courseData) in
  let progressRecords :=
    progressRecords ++
      [StudentModuleProgressCreateMany moduleData;
       StudentSectionProgressCreateMany sectionData;
       StudentSectionItemProgressCreateMany sectionItemData] in
  let nextData := getNextData courseData h in
  let progressRecords :=
    progressRecords ++
      (ModuleNextUpsert <$> moduleNextData nextData) ++
      (SectionNextUpsert <$> sectionNextData nextData) ++
      (SectionItemNextUpsert <$> sectionItemNextData nextData) in
  let totalRecords :=
    totalRecords + (length moduleData + length sectionData + length sectionItemData) in
  (totalRecords, progressRecords).

(** The call returns its outcome, the heap (the caller's [courseData] after
    [extractAllIds] went over it) and the database. *)
Definition initializeStudentProgress (courseData : CourseProgressData)
    (h : Heap) (st : Store) : Outcome InitResult * Heap * Store :=
  let '(_, h1) := extractAllIds courseData h in
  let '(totalRecords, progressRecords) :=
    foldl (studentStep h1 st courseData) (0, []) (studentIds courseData) in
  match transaction progressRecords st with
  | Some st' =>
      (Ok (mkInitResult (length (studentIds courseData)) totalRecords), h1, st')
  | None => (Throw FailedToInitialize, h1, st)
  end.

(** ** The cascade engine *)

Record UpdatedEntities := mkUpdatedEntities {
  course : option string;
  upd_modules : option (list string);
  upd_sections : option (list string);
  upd_sectionItems : option (list string)
}.

(** [a ? [...(b || []), ...a] : b]; an array is truthy, also when empty. *)
Definition appendField (old new : option (list string)) : option (list string) :=
  match new with
  | Some l => Some (default [] old ++ l)
  | None => old
  end.

(** [updates] is a [Partial<UpdatedEntities>]: an absent field is [None]. *)
Definition updateEntityListFields (updatedEntities updates : UpdatedEntities)
    : UpdatedEntities :=
  {| course := course updatedEntities;
     upd_modules := appendField (upd_modules updatedEntities) (upd_modules updates);
     upd_sections := appendField (upd_sections updatedEntities) (upd_sections updates);
     upd_sectionItems :=
       appendField (upd_sectionItems updatedEntities) (upd_sectionItems updates) |}.

(** [CourseProgressRepository] is imported from [../repositories]; the service
    only calls it.  Its methods are taken as they are called: each takes
    [courseInstanceId] and [studentId] first; the [get...Details] methods
    answer with the adjacency row or [null]. *)
Record CourseProgressRepository := mkRepository {
  repo_updateSectionItemProgress : string → string → list string → M unit;
  repo_getSectionItemDetails : string → string → string → M (option SectionItemNextRow);
  repo_updateSectionProgress : string → string → string → M unit;
  repo_getSectionDetails : string → string → string → M (option SectionNextRow);
  repo_updateModuleProgress : string → string → string → M unit;
  repo_getModuleDetails : string → string → string → M (option ModuleNextRow);
  repo_updateCourseProgress : string → string → M unit
}.

Section Service.
Variable courseProgressRepo : CourseProgressRepository.

Definition updateCourseProgress (courseInstanceId studentId : string) : M UpdatedEntities :=
  _ ← repo_updateCourseProgress courseProgressRepo courseInstanceId studentId;
  mret (mkUpdatedEntities (Some courseInstanceId) None None None).

Definition updateModuleProgress (courseInstanceId studentId moduleId : string)
    (cascade : bool) : M UpdatedEntities :=
  _ ← repo_updateModuleProgress courseProgressRepo courseInstanceId studentId moduleId;
  moduleDetails ← repo_getModuleDetails courseProgressRepo courseInstanceId studentId moduleId;
  match moduleDetails with
  | None => throw (ModuleDetailsNotFound moduleId)
  | Some moduleDetails =>
      if cascade then
        match orNull (mnr_nextModuleId moduleDetails) with
        | Some nextModuleId =>
            _ ← repo_updateModuleProgress courseProgressRepo
                  courseInstanceId studentId nextModuleId;
            nextModuleDetails ← repo_getModuleDetails courseProgressRepo
                                  courseInstanceId studentId nextModuleId;
            match nextModuleDetails with
            | None => throw (ModuleDetailsNotFound nextModuleId)
            | Some nextModuleDetails =>
                let nextModuleFirstSectionId := mnr_sectionId nextModuleDetails in
                _ ← repo_updateSectionProgress courseProgressRepo
                      courseInstanceId studentId nextModuleFirstSectionId;
                nextSectionDetails ← repo_getSectionDetails courseProgressRepo
                      courseInstanceId studentId nextModuleFirstSectionId;
                match nextSectionDetails with
                | None => throw (SectionDetailsNotFound nextModuleFirstSectionId)
                | Some nextSectionDetails =>
                    let nextModuleFirstSectionItemId :=
                      snr_sectionItemId nextSectionDetails in
                    _ ← repo_updateSectionItemProgress courseProgressRepo
                          courseInstanceId studentId [nextModuleFirstSectionItemId];
                    mret (mkUpdatedEntities None
                            (Some [moduleId; nextModuleId])
                            (Some [nextModuleFirstSectionId])
                            (Some [nextModuleFirstSectionItemId]))
                end
            end
        | None =>
            updatedEntities ← updateCourseProgress courseInstanceId studentId;
            mret (updateEntityListFields updatedEntities
                    (mkUpdatedEntities None (Some [moduleId]) None None))
        end
      else mret (mkUpdatedEntities None (Some [moduleId]) None None)
  end.

Definition updateSectionProgress (courseInstanceId studentId sectionId : string)
    (cascade : bool) : M UpdatedEntities :=
  _ ← repo_updateSectionProgress courseProgressRepo courseInstanceId studentId sectionId;
  sectionDetails ← repo_getSectionDetails courseProgressRepo
                     courseInstanceId studentId sectionId;
  match sectionDetails with
  | None => throw (SectionDetailsNotFound sectionId)
  | Some sectionDetails =>
      let moduleId := snr_moduleId sectionDetails in
      if cascade then
        match orNull (snr_nextSectionId sectionDetails) with
        | Some nextSectionId =>
            _ ← repo_updateSectionProgress courseProgressRepo
                  courseInstanceId studentId nextSectionId;
            nextSectionDetails ← repo_getSectionDetails courseProgressRepo
                                   courseInstanceId studentId nextSectionId;
            match nextSectionDetails with
            | Some nextSectionDetails =>
                let nextSectionFirstSectionItemId :=
                  snr_sectionItemId nextSectionDetails in
                _ ← repo_updateSectionItemProgress courseProgressRepo
                      courseInstanceId studentId [nextSectionFirstSectionItemId];
                mret (mkUpdatedEntities None None
                        (Some [sectionId; nextSectionId])
                        (Some [nextSectionFirstSectionItemId]))
            | None => throw (SectionDetailsNotFound nextSectionId)
            end
        | None =>
            updatedEntities ← updateModuleProgress
                                courseInstanceId studentId moduleId cascade;
            (* { ...updatedEntities, sections: [sectionId] } *)
            mret (mkUpdatedEntities (course updatedEntities)
                    (upd_modules updatedEntities)
                    (Some [sectionId])
                    (upd_sectionItems updatedEntities))
        end
      else mret (mkUpdatedEntities None None (Some [sectionId]) None)
  end.

(** [prisma.sectionItemNext.findFirst({ where: { nextSectionItemId } })]:
    the first row of the table that points to the item. *)
Definition findPreviousSectionItem (sectionItemId : string) : M (option string) :=
  readStore (λ st,
    sinr_sectionItemId <$>
      List.find (λ r, bool_decide (sinr_nextSectionItemId r = Some sectionItemId))
        (sectionItemNext st)).

Definition findSectionItemProgress (courseInstanceId studentId sectionItemId : string)
    : M (option EntityProgressRow) :=
  readStore (λ st,
    findUnique (studentId, sectionItemId, courseInstanceId)
      (studentSectionItemProgress st)).

(** The gating check at the head of the loop body. *)
Definition checkPreviousSectionItem (courseInstanceId studentId sectionItemId : string)
    : M unit :=
  previousSectionItem ← findPreviousSectionItem sectionItemId;
  match previousSectionItem with
  | Some previousSectionItemId =>
      previousItemProgress ←
        findSectionItemProgress courseInstanceId studentId previousSectionItemId;
      match previousItemProgress with
      | Some p =>
          if decide (ep_progress p ≠ COMPLETE)
          then throw (PreviousItemNotComplete sectionItemId previousSectionItemId)
          else mret ()
      | None => mret ()
      end
  | None => mret ()
  end.

(** The loop body after the gating check: it answers with the entry pushed on
    [updates]. *)
Definition markSectionItem (courseInstanceId studentId : string) (cascade : bool)
    (sectionItemId : string) : M UpdatedEntities :=
  _ ← repo_updateSectionItemProgress courseProgressRepo
        courseInstanceId studentId [sectionItemId];
  if cascade then
    sectionItemDetails ← repo_getSectionItemDetails courseProgressRepo
                           courseInstanceId studentId sectionItemId;
    match sectionItemDetails with
    | None => throw (SectionItemDetailsNotFound sectionItemId)
    | Some sectionItemDetails =>
        match orNull (sinr_nextSectionItemId sectionItemDetails) with
        | Some nextSectionItemId =>
            _ ← repo_updateSectionItemProgress courseProgressRepo
                  courseInstanceId studentId [nextSectionItemId];
            mret (mkUpdatedEntities None None None
                    (Some [sectionItemId; nextSectionItemId]))
        | None =>
            updatedEntities ← updateSectionProgress courseInstanceId studentId
                                (sinr_sectionId sectionItemDetails) cascade;
            mret (updateEntityListFields updatedEntities
                    (mkUpdatedEntities None None None (Some [sectionItemId])))
        end
    end
  else mret (mkUpdatedEntities None None None (Some [sectionItemId])).

(** Body of [for (const sectionItemId of sectionItemIds)]. *)
Definition completeSectionItem (courseInstanceId studentId : string) (cascade : bool)
    (sectionItemId : string) : M UpdatedEntities :=
  _ ← checkPreviousSectionItem courseInstanceId studentId sectionItemId;
  markSectionItem courseInstanceId studentId cascade sectionItemId.

Fixpoint completeSectionItems (courseInstanceId studentId : string) (cascade : bool)
    (sectionItemIds : list string) (updates : list UpdatedEntities)
    : M (list UpdatedEntities) :=
  match sectionItemIds with
  | [] => mret updates
  | sectionItemId :: rest =>
      update ← completeSectionItem courseInstanceId studentId cascade sectionItemId;
      completeSectionItems courseInstanceId studentId cascade rest (updates ++ [update])
  end.

Definition updateSectionItemProgress (courseInstanceId studentId : string)
    (sectionItemIds : list string) (cascade : bool) : M (list UpdatedEntities) :=
  completeSectionItems courseInstanceId studentId cascade sectionItemIds [].

End Service.

(** ** A repository *)

(** Modelled from the spec: the class [CourseProgressRepository] is not among
    the sources.  The service calls one [update...Progress] method per level,
    without a status, both where the specification says "mark COMPLETE" (the
    entity being completed, which is IN_PROGRESS) and where it says "mark
    IN_PROGRESS" (the next entity, which is INCOMPLETE): the method moves the
    stored status one step along INCOMPLETE, IN_PROGRESS, COMPLETE.  A missing
    progress record is the specification's [NotFound].  [get...Details] is the
    specification's [getAdjacency]: the adjacency row of the entity, or
    nothing. *)
Definition advance (p : ProgressEnum) : ProgressEnum :=
  match p with
  | INCOMPLETE => IN_PROGRESS
  | IN_PROGRESS => COMPLETE
  | COMPLETE => COMPLETE
  end.

(** Modelled from the spec: the row of key [k] moves one step, the other rows
    stay. *)
Definition advanceRow (k : string * string * string) (r : EntityProgressRow)
    : EntityProgressRow :=
  if decide (keyOf r = k)
  then mkEntityProgress (ep_studentId r) (ep_entityId r) (ep_courseInstanceId r)
         (advance (ep_progress r))
  else r.

Definition setStudentModuleProgress (t : list EntityProgressRow) (st : Store) : Store :=
  mkStore (totalProgress st) (studentCourseProgress st) t
    (studentSectionProgress st) (studentSectionItemProgress st)
    (moduleNext st) (sectionNext st) (sectionItemNext st).

Definition setStudentSectionProgress (t : list EntityProgressRow) (st : Store) : Store :=
  mkStore (totalProgress st) (studentCourseProgress st) (studentModuleProgress st)
    t (studentSectionItemProgress st)
    (moduleNext st) (sectionNext st) (sectionItemNext st).

Definition setStudentSectionItemProgress (t : list EntityProgressRow) (st : Store) : Store :=
  mkStore (totalProgress st) (studentCourseProgress st) (studentModuleProgress st)
    (studentSectionProgress st) t
    (moduleNext st) (sectionNext st) (sectionItemNext st).

Definition setStudentCourseProgress (t : list StudentCourseProgressRow) (st : Store) : Store :=
  mkStore (totalProgress st) t (studentModuleProgress st)
    (studentSectionProgress st) (studentSectionItemProgress st)
    (moduleNext st) (sectionNext st) (sectionItemNext st).

(** Modelled from the spec: [markProgress] on one of the three entity tables. *)
Definition markProgress (table : Store → list EntityProgressRow)
    (setTable : list EntityProgressRow → Store → Store)
    (courseInstanceId studentId entityId : string) : M unit :=
  λ st,
    let k := (studentId, entityId, courseInstanceId) in
    match findUnique k (table st) with
    | Some _ => (Ok (), setTable (advanceRow k <$> table st) st)
    | None => (Throw (RepositoryError NotFound "progress record not found"), st)
    end.

(** Modelled from the spec: [markProgress] at the course level. *)
Definition markCourseProgress (courseInstanceId studentId : string) : M unit :=
  λ st,
    let k := (studentId, courseInstanceId) in
    match findUnique k (studentCourseProgress st) with
    | Some _ =>
        (Ok (),
         setStudentCourseProgress
           ((λ r : StudentCourseProgressRow,
               if decide (keyOf r = k)
               then mkCourseProgress (scp_studentId r) (scp_courseInstanceId r)
                      (advance (scp_progress r))
               else r) <$> studentCourseProgress st) st)
    | None => (Throw (RepositoryError NotFound "progress record not found"), st)
    end.

(** Modelled from the spec: the item method takes a list of IDs. *)
Fixpoint markSectionItems (courseInstanceId studentId : string)
    (sectionItemIds : list string) : M unit :=
  match sectionItemIds with
  | [] => mret ()
  | sectionItemId :: rest =>
      _ ← markProgress studentSectionItemProgress setStudentSectionItemProgress
            courseInstanceId studentId sectionItemId;
      markSectionItems courseInstanceId studentId rest
  end.

(** Modelled from the spec: the repository over the tables of [Store]. *)
Definition specRepository : CourseProgressRepository :=
  {| repo_updateSectionItemProgress := markSectionItems;
     repo_getSectionItemDetails := λ _ _ sectionItemId,
       readStore (λ st, findUnique sectionItemId (sectionItemNext st));
     repo_updateSectionProgress :=
       markProgress studentSectionProgress setStudentSectionProgress;
     repo_getSectionDetails := λ _ _ sectionId,
       readStore (λ st, findUnique sectionId (sectionNext st));
     repo_updateModuleProgress :=
       markProgress studentModuleProgress setStudentModuleProgress;
     repo_getModuleDetails := λ _ _ moduleId,
       readStore (λ st, findUnique moduleId (moduleNext st));
     repo_updateCourseProgress := markCourseProgress |}.

(** ** Sample curricula *)

Definition emptyStore : Store := mkStore [] [] [] [] [] [] [] [].

(** The course of the end-to-end scenario: modules M1 and M2, two sections
    each, two items each; every array is given in descending sequence. *)
Definition sampleHeap : Heap :=
  {| moduleArrays := {[ 1%positive := [mkModule "M2" 2%Z 2%positive; mkModule "M1" 1%Z 1%positive] ]};
     sectionArrays :=
       {[ 1%positive := [mkSection "M1S2" 2%Z 2%positive; mkSection "M1S1" 1%Z 1%positive];
          2%positive := [mkSection "M2S2" 2%Z 4%positive; mkSection "M2S1" 1%Z 3%positive] ]};
     itemArrays :=
       {[ 1%positive := [mkSectionItem "M1S1I2" 2%Z; mkSectionItem "M1S1I1" 1%Z];
          2%positive := [mkSectionItem "M1S2I2" 2%Z; mkSectionItem "M1S2I1" 1%Z];
          3%positive := [mkSectionItem "M2S1I2" 2%Z; mkSectionItem "M2S1I1" 1%Z];
          4%positive := [mkSectionItem "M2S2I2" 2%Z; mkSectionItem "M2S2I1" 1%Z] ]} |}.

(** The same course with the modules array in ascending sequence. *)
Definition orderedHeap : Heap :=
  {| moduleArrays := {[ 1%positive := [mkModule "M1" 1%Z 1%positive; mkModule "M2" 2%Z 2%positive] ]};
     sectionArrays := sectionArrays sampleHeap;
     itemArrays := itemArrays sampleHeap |}.

Definition sampleCourse : CourseProgressData :=
  {| courseInstanceId := "C"; studentIds := ["alice"; "bob"]; modules := 1%positive |}.

(** The database after initialising [sampleCourse] over [orderedHeap]. *)
Definition initializedStore : Store :=
  (initializeStudentProgress sampleCourse orderedHeap emptyStore).2.

(** * Auxiliary definitions

    Sample data for the examples, and the functions and predicates in which
    the properties below are stated and proved. *)

(** The arrays at the locations [ls], sorted one after the other. *)
Definition sortAll {A : Type} `{Sequenced A} (ls : list loc)
    (G : gmap loc (list A)) : gmap loc (list A) :=
  foldl (λ G l, alter sortBySequence l G) G ls.

(** A curriculum that meets the hypothesis of C8 and has a section whose ID
    is the empty string. *)
Definition blankIdHeap : Heap :=
  {| moduleArrays := {[ 1%positive := [mkModule "M" 1%Z 1%positive] ]};
     sectionArrays := {[ 1%positive := [mkSection "" 1%Z 1%positive] ]};
     itemArrays := {[ 1%positive := [mkSectionItem "I" 1%Z] ]} |}.

(** The sample course once alice has completed M1S1I1, M1S1I2 and M1S2I1:
    M1S2I2, the last item of the last section of M1, is IN_PROGRESS. *)
Definition lastItemOfM1Store : Store :=
  (updateSectionItemProgress specRepository "C" "alice"
     ["M1S1I1"; "M1S1I2"; "M1S2I1"] true initializedStore).2.

(** The sample database without alice's progress row for M1S1I1. *)
Definition orphanStore : Store :=
  setStudentSectionItemProgress
    (filter (λ r, ¬ (ep_studentId r = "alice" ∧ ep_entityId r = "M1S1I1"))
       (studentSectionItemProgress initializedStore))
    initializedStore.

(** The sample database before alice's last item of M1, without the
    [ModuleNext] rows. *)
Definition noModuleNextStore : Store :=
  mkStore (totalProgress lastItemOfM1Store) (studentCourseProgress lastItemOfM1Store)
    (studentModuleProgress lastItemOfM1Store) (studentSectionProgress lastItemOfM1Store)
    (studentSectionItemProgress lastItemOfM1Store)
    [] (sectionNext lastItemOfM1Store) (sectionItemNext lastItemOfM1Store).

(** Rows for [ids]: the first is IN_PROGRESS when [first] holds, every other
    row is INCOMPLETE. *)
Definition rowsFirst (cid s : string) (first : bool) (ids : list string)
    : list EntityProgressRow :=
  match ids with
  | [] => []
  | x :: xs =>
      mkEntityProgress s x cid (if first then IN_PROGRESS else INCOMPLETE)
        :: ((λ y, mkEntityProgress s y cid INCOMPLETE) <$> xs)
  end.

(** The item rows of the sections of one module. *)
Definition itemRowsOf (h : Heap) (cid s : string) (first : bool)
    (secs : list CourseSection) : list EntityProgressRow :=
  match secs with
  | [] => []
  | sec :: rest =>
      rowsFirst cid s first (sectionItemId <$> itemsOf h sec)
        ++ (rest ≫= λ sec', rowsFirst cid s false (sectionItemId <$> itemsOf h sec'))
  end.

(** [previousModuleComplete] after a module: its stored status is COMPLETE. *)
Definition moduleFlag (st : Store) (cid s : string) (m : CourseModule) : bool :=
  match findUnique (s, moduleId m, cid) (studentModuleProgress st) with
  | Some r => bool_decide (ep_progress r = COMPLETE)
  | None => false
  end.

Fixpoint moduleRowsFrom (st : Store) (cid s : string) (flag : bool)
    (mods : list CourseModule) : list EntityProgressRow :=
  match mods with
  | [] => []
  | m :: rest =>
      mkEntityProgress s (moduleId m) cid (if flag then IN_PROGRESS else INCOMPLETE)
        :: moduleRowsFrom st cid s (moduleFlag st cid s m) rest
  end.

Fixpoint sectionRowsFrom (h : Heap) (st : Store) (cid s : string) (flag : bool)
    (mods : list CourseModule) : list EntityProgressRow :=
  match mods with
  | [] => []
  | m :: rest =>
      rowsFirst cid s flag (sectionId <$> sectionsOf h m)
        ++ sectionRowsFrom h st cid s (moduleFlag st cid s m) rest
  end.

Fixpoint itemRowsFrom (h : Heap) (st : Store) (cid s : string) (flag : bool)
    (mods : list CourseModule) : list EntityProgressRow :=
  match mods with
  | [] => []
  | m :: rest =>
      itemRowsOf h cid s flag (sectionsOf h m)
        ++ itemRowsFrom h st cid s (moduleFlag st cid s m) rest
  end.

(** The upserts of the adjacency records. *)
Definition nextOps (h : Heap) (cd : CourseProgressData) : list PrismaOp :=
  (ModuleNextUpsert <$> moduleNextData (getNextData cd h))
  ++ (SectionNextUpsert <$> sectionNextData (getNextData cd h))
  ++ (SectionItemNextUpsert <$> sectionItemNextData (getNextData cd h)).

(** What one pass of the student loop pushes on [progressRecords]. *)
Definition studentOps (h : Heap) (st : Store) (cd : CourseProgressData) (s : string)
    : list PrismaOp :=
  [TotalProgressUpsert s (courseInstanceId cd);
   StudentCourseProgressUpsert s (courseInstanceId cd);
   StudentModuleProgressCreateMany
     (moduleRowsFrom st (courseInstanceId cd) s true (modulesOf h cd));
   StudentSectionProgressCreateMany
     (sectionRowsFrom h st (courseInstanceId cd) s true (modulesOf h cd));
   StudentSectionItemProgressCreateMany
     (itemRowsFrom h st (courseInstanceId cd) s true (modulesOf h cd))]
  ++ nextOps h cd.

(** The number of rows prepared for one student, course row included. *)
Definition rowsPerStudent (h : Heap) (cd : CourseProgressData) : nat :=
  1 + (length (modulesOf h cd)
       + length (modulesOf h cd ≫= sectionsOf h)
       + length (modulesOf h cd ≫= λ m, sectionsOf h m ≫= itemsOf h)).

(** Whether Prisma accepts the operation: the required columns are given. *)
Definition opAccepted (op : PrismaOp) : Prop :=
  match op with
  | ModuleNextUpsert nextData => is_Some (mn_sectionId nextData)
  | SectionNextUpsert nextData => is_Some (sn_sectionItemId nextData)
  | _ => True
  end.

(** What the operation does to each of the tables of progress rows. *)
Definition applyTotalProgress (t : list TotalProgressRow) (op : PrismaOp)
    : list TotalProgressRow :=
  match op with
  | TotalProgressUpsert s cid =>
      upsert (s, cid) (λ r, mkTotalProgress (tp_studentId r) (tp_courseInstanceId r) 0)
        (mkTotalProgress s cid 0) t
  | _ => t
  end.

Definition applyCourseProgress (t : list StudentCourseProgressRow) (op : PrismaOp)
    : list StudentCourseProgressRow :=
  match op with
  | StudentCourseProgressUpsert s cid =>
      upsert (s, cid) (λ r, r) (mkCourseProgress s cid IN_PROGRESS) t
  | _ => t
  end.

Definition applyModuleProgress (t : list EntityProgressRow) (op : PrismaOp)
    : list EntityProgressRow :=
  match op with
  | StudentModuleProgressCreateMany data => createManySkipDuplicates data t
  | _ => t
  end.

Definition applySectionProgress (t : list EntityProgressRow) (op : PrismaOp)
    : list EntityProgressRow :=
  match op with
  | StudentSectionProgressCreateMany data => createManySkipDuplicates data t
  | _ => t
  end.

Definition applySectionItemProgress (t : list EntityProgressRow) (op : PrismaOp)
    : list EntityProgressRow :=
  match op with
  | StudentSectionItemProgressCreateMany data => createManySkipDuplicates data t
  | _ => t
  end.

(** The sample database some time after the first run: alice is at the last
    item of M1 and her [TotalProgress] is 40. *)
Definition progressedStore : Store :=
  mkStore [mkTotalProgress "alice" "C" 40; mkTotalProgress "bob" "C" 0]
    (studentCourseProgress lastItemOfM1Store)
    (studentModuleProgress lastItemOfM1Store) (studentSectionProgress lastItemOfM1Store)
    (studentSectionItemProgress lastItemOfM1Store)
    (moduleNext lastItemOfM1Store) (sectionNext lastItemOfM1Store)
    (sectionItemNext lastItemOfM1Store).

(** The rows of one student in one course instance. *)
Definition rowsOf (s cid : string) (t : list EntityProgressRow) : list EntityProgressRow :=
  filter (λ r, ep_studentId r = s ∧ ep_courseInstanceId r = cid) t.

Definition courseRowsOf (s cid : string) (t : list StudentCourseProgressRow)
    : list StudentCourseProgressRow :=
  filter (λ r, scp_studentId r = s ∧ scp_courseInstanceId r = cid) t.

(** A course without modules. *)
Definition emptyCurriculumHeap : Heap :=
  {| moduleArrays := {[ 1%positive := [] ]}; sectionArrays := ∅; itemArrays := ∅ |}.

(** The course rows after the student loop. *)
Definition upsertCourseRows (cid : string) (t : list StudentCourseProgressRow)
    (ss : list string) : list StudentCourseProgressRow :=
  foldl (λ t s, upsert (s, cid) (λ r, r) (mkCourseProgress s cid IN_PROGRESS) t) t ss.

(** The [TotalProgress] rows after the student loop. *)
Definition upsertTotalRows (cid : string) (t : list TotalProgressRow)
    (ss : list string) : list TotalProgressRow :=
  foldl (λ t s, upsert (s, cid)
                  (λ r, mkTotalProgress (tp_studentId r) (tp_courseInstanceId r) 0)
                  (mkTotalProgress s cid 0) t) t ss.

(** What the operation does to each adjacency table, when Prisma accepts
    it. *)
Definition applyModuleNext (t : list ModuleNextRow) (op : PrismaOp) : list ModuleNextRow :=
  match op with
  | ModuleNextUpsert nextData =>
      upsert (mn_moduleId nextData)
        (λ r, mkModuleNext (mnr_moduleId r) (mnr_sectionId r)
                (mn_nextModuleId nextData) (mnr_courseInstanceId r))
        (mkModuleNext (mn_moduleId nextData) (default "" (mn_sectionId nextData))
           (mn_nextModuleId nextData) (mn_courseInstanceId nextData)) t
  | _ => t
  end.

Definition applySectionNext (t : list SectionNextRow) (op : PrismaOp) : list SectionNextRow :=
  match op with
  | SectionNextUpsert nextData =>
      upsert (sn_sectionId nextData)
        (λ r, mkSectionNext (snr_sectionId r) (snr_sectionItemId r)
                (sn_nextSectionId nextData) (snr_moduleId r))
        (mkSectionNext (sn_sectionId nextData) (default "" (sn_sectionItemId nextData))
           (sn_nextSectionId nextData) (sn_moduleId nextData)) t
  | _ => t
  end.

Definition applySectionItemNext (t : list SectionItemNextRow) (op : PrismaOp)
    : list SectionItemNextRow :=
  match op with
  | SectionItemNextUpsert nextData =>
      upsert (sin_sectionItemId nextData)
        (λ r, mkSectionItemNext (sinr_sectionItemId r)
                (sin_nextSectionItemId nextData) (sinr_sectionId r))
        (mkSectionItemNext (sin_sectionItemId nextData)
           (sin_nextSectionItemId nextData) (sin_sectionId nextData)) t
  | _ => t
  end.

(** Whether the curriculum gives every module a first section and every
    section a first item, each with an ID: the [create] side of the adjacency
    upserts then holds its required columns. *)
Definition firstChildrenGiven (h : Heap) (cd : CourseProgressData) : Prop :=
  ∀ m, m ∈ modulesOf h cd →
    is_Some (orNull (sectionId <$> findSequenceOne (sectionsOf h m)))
    ∧ ∀ s, s ∈ sectionsOf h m →
        is_Some (orNull (sectionItemId <$> findSequenceOne (itemsOf h s))).

(** A course without students, and a course whose one module has no
    section. *)
Definition noStudentCourse : CourseProgressData :=
  {| courseInstanceId := "C"; studentIds := []; modules := 1%positive |}.

Definition noSectionHeap : Heap :=
  {| moduleArrays := {[ 1%positive := [mkModule "M" 1%Z 1%positive] ]};
     sectionArrays := ∅; itemArrays := ∅ |}.

(** The entries [updateSectionItemProgress] pushes on [updates] for an item
    completed with [cascade = true]: the item had a next item; or it was the
    last of its section and the section had a next section; or the section
    was the last of its module and the module had a next module; or the
    module was the last of the course. *)
Definition cascadeReport (courseInstanceId sectionItemId : string)
    (u : UpdatedEntities) : Prop :=
  (∃ nextSectionItemId,
     u = mkUpdatedEntities None None None (Some [sectionItemId; nextSectionItemId]))
  ∨ (∃ sectionId nextSectionId firstItemId,
       u = mkUpdatedEntities None None (Some [sectionId; nextSectionId])
             (Some [firstItemId; sectionItemId]))
  ∨ (∃ sectionId moduleId nextModuleId firstItemId,
       u = mkUpdatedEntities None (Some [moduleId; nextModuleId]) (Some [sectionId])
             (Some [firstItemId; sectionItemId]))
  ∨ (∃ sectionId moduleId,
       u = mkUpdatedEntities (Some courseInstanceId) (Some [moduleId]) (Some [sectionId])
             (Some [sectionItemId])).

(** The eight items of the sample course, in order. *)
Definition sampleItems : list string :=
  ["M1S1I1"; "M1S1I2"; "M1S2I1"; "M1S2I2"; "M2S1I1"; "M2S1I2"; "M2S2I1"; "M2S2I2"].

(** The sample course as [extractAllIds] leaves it: the modules array still
    lists M2 before M1, every other array is in ascending sequence. *)
Definition sortedHeap : Heap := (extractAllIds sampleCourse sampleHeap).2.

(** The sample database once alice has completed the eight items. *)
Definition completedStore : Store :=
  (updateSectionItemProgress specRepository "C" "alice" sampleItems true initializedStore).2.

(** The sample course with a third module, of one section and one item. *)
Definition extendedHeap : Heap :=
  {| moduleArrays :=
       {[ 1%positive := [mkModule "M1" 1%Z 1%positive; mkModule "M2" 2%Z 2%positive;
                         mkModule "M3" 3%Z 3%positive] ]};
     sectionArrays :=
       <[ 3%positive := [mkSection "M3S1" 1%Z 5%positive] ]> (sectionArrays sampleHeap);
     itemArrays :=
       <[ 5%positive := [mkSectionItem "M3S1I1" 1%Z] ]> (itemArrays sampleHeap) |}.

(** The sample database once alice has completed M1S1I1, without the
    [SectionNext] row of M1S2. *)
Definition noNextSectionStore : Store :=
  let st := (updateSectionItemProgress specRepository "C" "alice" ["M1S1I1"] true
               initializedStore).2 in
  mkStore (totalProgress st) (studentCourseProgress st) (studentModuleProgress st)
    (studentSectionProgress st) (studentSectionItemProgress st) (moduleNext st)
    (filter (λ r, snr_sectionId r ≠ "M1S2") (sectionNext st)) (sectionItemNext st).




(** * Properties *)

(** ** The sort *)

Section SortingFacts.
Context {A : Type} `{Sequenced A}.
Implicit Types (x : A) (l : list A).

Lemma insertBySequence_perm x l : insertBySequence x l ≡ₚ x :: l.
Proof.
  induction l as [|y l IH]; simpl; [done|].
  destruct (sequence x <=? sequence y)%Z; [done|].
  rewrite IH. apply Permutation_swap.
Qed.

Lemma sortBySequence_perm l : sortBySequence l ≡ₚ l.
Proof.
  induction l as [|x l IH]; simpl; [done|].
  by rewrite insertBySequence_perm, IH.
Qed.

Lemma sortBySequence_length l : length (sortBySequence l) = length l.
Proof. by rewrite sortBySequence_perm. Qed.

Lemma elem_of_sortBySequence x l : x ∈ sortBySequence l ↔ x ∈ l.
Proof. by rewrite sortBySequence_perm. Qed.

Lemma insertBySequence_sorted x l :
  StronglySorted seq_le l → StronglySorted seq_le (insertBySequence x l).
Proof.
  induction 1 as [|y l Hl IH Hy]; simpl.
  - repeat constructor.
  - destruct (sequence x <=? sequence y)%Z eqn:Hxy.
    + apply Z.leb_le in Hxy. constructor; [by constructor|].
      constructor; [done|].
      eapply Forall_impl; [exact Hy|]. unfold seq_le. intros z ?. lia.
    + apply Z.leb_gt in Hxy. constructor; [done|].
      rewrite insertBySequence_perm. constructor; [|done].
      unfold seq_le. lia.
Qed.

Lemma sortBySequence_sorted l : StronglySorted seq_le (sortBySequence l).
Proof.
  induction l; simpl; [constructor|]. by apply insertBySequence_sorted.
Qed.

(** A sorted array is left as it is. *)
Lemma sortBySequence_id l : StronglySorted seq_le l → sortBySequence l = l.
Proof.
  induction 1 as [|x l Hl IH Hx]; simpl; [done|].
  rewrite IH. destruct Hx as [|y l' Hxy _]; simpl; [done|].
  unfold seq_le in Hxy. apply Z.leb_le in Hxy. by rewrite Hxy.
Qed.

Lemma sortBySequence_idemp l : sortBySequence (sortBySequence l) = sortBySequence l.
Proof. apply sortBySequence_id, sortBySequence_sorted. Qed.

(** Stability: elements of equal sequence keep their order. *)
Lemma insertBySequence_stable (k : Z) x l :
  filter (λ y, sequence y = k) (insertBySequence x l)
  = filter (λ y, sequence y = k) (x :: l).
Proof.
  induction l as [|y l IH]; simpl; [done|].
  destruct (sequence x <=? sequence y)%Z eqn:Hxy; [done|].
  apply Z.leb_gt in Hxy.
  rewrite (filter_cons _ y), IH, !(filter_cons _ x), (filter_cons _ y).
  repeat case_decide; try done; lia.
Qed.

Lemma sortBySequence_stable (k : Z) l :
  filter (λ y, sequence y = k) (sortBySequence l) = filter (λ y, sequence y = k) l.
Proof.
  induction l as [|x l IH]; simpl; [done|].
  by rewrite insertBySequence_stable, !filter_cons, IH.
Qed.

(** The head of a sorted array is least. *)
Lemma sortBySequence_head_least x l :
  head (sortBySequence l) = Some x → x ∈ l ∧ ∀ y, y ∈ l → (sequence x ≤ sequence y)%Z.
Proof.
  intros Hhd. pose proof (sortBySequence_sorted l) as Hs.
  destruct (sortBySequence l) as [|x' l'] eqn:E; simplify_eq/=.
  split.
  - apply elem_of_sortBySequence. rewrite E. left.
  - intros y Hy. apply elem_of_sortBySequence in Hy. rewrite E in Hy.
    apply StronglySorted_inv in Hs as [_ Hall].
    apply elem_of_cons in Hy as [->|Hy]; [lia|].
    by apply (proj1 (Forall_forall _ _) Hall).
Qed.

Lemma findSequenceOne_Some l x :
  findSequenceOne l = Some x → x ∈ l ∧ sequence x = 1%Z.
Proof.
  unfold findSequenceOne. intros Hf. apply find_some in Hf as [Hin Hb].
  split; [by apply list_elem_of_In|]. by apply bool_decide_eq_true in Hb.
Qed.

Lemma findSequenceOne_None l :
  findSequenceOne l = None ↔ ∀ x, x ∈ l → sequence x ≠ 1%Z.
Proof.
  unfold findSequenceOne. split.
  - intros Hf x Hin Hx. apply list_elem_of_In in Hin.
    pose proof (find_none _ _ Hf x Hin) as Hb. simpl in Hb.
    by apply bool_decide_eq_false in Hb.
  - intros Hall. induction l as [|y l IH]; simpl; [done|].
    rewrite bool_decide_eq_false_2; [|apply Hall; left].
    apply IH. intros x ?. apply Hall. by right.
Qed.

Lemma findSequenceOne_is_Some l x :
  x ∈ l → sequence x = 1%Z → is_Some (findSequenceOne l).
Proof.
  intros Hin Hx. destruct (findSequenceOne l) eqn:E; [by eexists|].
  by destruct (proj1 (findSequenceOne_None l) E x Hin).
Qed.

End SortingFacts.

(** ** In-place sorting of the heap *)

Section HeapFacts.
Context {A : Type} `{Sequenced A}.
Implicit Types (G : gmap loc (list A)) (ls : list loc) (l : loc).

Lemma sortAll_app ls1 ls2 G : sortAll (ls1 ++ ls2) G = sortAll ls2 (sortAll ls1 G).
Proof. apply foldl_app. Qed.

Lemma sortAll_lookup ls G l :
  sortAll ls G !! l = if decide (l ∈ ls) then sortBySequence <$> G !! l else G !! l.
Proof.
  revert G. induction ls as [|a ls IH]; intros G.
  - by rewrite decide_False by apply not_elem_of_nil.
  - change (sortAll (a :: ls) G) with (sortAll ls (alter sortBySequence a G)).
    rewrite IH, lookup_alter.
    destruct (decide (a = l)) as [->|Hne].
    + rewrite (decide_True (P := l ∈ l :: ls)) by left.
      case_decide; [|done].
      destruct (G !! l); simpl; [|done]. by rewrite sortBySequence_idemp.
    + destruct (decide (l ∈ ls)) as [Hin|Hnin].
      * by rewrite decide_True by (by right).
      * rewrite decide_False; [done|].
        intros [->|?]%elem_of_cons; done.
Qed.

Lemma sortAll_lookup_total ls G l :
  sortAll ls G !!! l = if decide (l ∈ ls) then sortBySequence (G !!! l) else G !!! l.
Proof.
  rewrite !lookup_total_alt, sortAll_lookup.
  case_decide; [|done]. by destruct (G !! l).
Qed.

Lemma sortAll_idemp ls G : sortAll ls (sortAll ls G) = sortAll ls G.
Proof.
  apply map_eq. intros l. rewrite !sortAll_lookup.
  case_decide; [|done].
  destruct (G !! l); simpl; [|done]. by rewrite sortBySequence_idemp.
Qed.

Lemma alter_sort_lookup_total G l l' :
  alter sortBySequence l G !!! l'
  = if decide (l = l') then sortBySequence (G !!! l') else G !!! l'.
Proof.
  rewrite !lookup_total_alt, lookup_alter.
  case_decide; [subst|done]. by destruct (G !! l').
Qed.

End HeapFacts.

Lemma sortItems_fold_moduleArrays ss h :
  moduleArrays (foldl (λ h' sec, sortSectionItems (sectionItems sec) h') h ss)
  = moduleArrays h.
Proof. revert h. induction ss as [|s ss IH]; intros h; simpl; [done|]. by rewrite IH. Qed.

Lemma sortItems_fold_sectionArrays ss h :
  sectionArrays (foldl (λ h' sec, sortSectionItems (sectionItems sec) h') h ss)
  = sectionArrays h.
Proof. revert h. induction ss as [|s ss IH]; intros h; simpl; [done|]. by rewrite IH. Qed.

Lemma sortItems_fold_itemArrays ss h :
  itemArrays (foldl (λ h' sec, sortSectionItems (sectionItems sec) h') h ss)
  = sortAll (sectionItems <$> ss) (itemArrays h).
Proof. revert h. induction ss as [|s ss IH]; intros h; simpl; [done|]. by rewrite IH. Qed.

Lemma sortModuleInPlace_moduleArrays h m :
  moduleArrays (sortModuleInPlace h m) = moduleArrays h.
Proof. unfold sortModuleInPlace. by rewrite sortItems_fold_moduleArrays. Qed.

Lemma sortModuleInPlace_sectionArrays h m :
  sectionArrays (sortModuleInPlace h m)
  = alter sortBySequence (sections m) (sectionArrays h).
Proof. unfold sortModuleInPlace. by rewrite sortItems_fold_sectionArrays. Qed.

Lemma sortModuleInPlace_itemArrays h m :
  itemArrays (sortModuleInPlace h m)
  = sortAll (sectionItems <$> sortBySequence (sectionsOf h m)) (itemArrays h).
Proof.
  unfold sortModuleInPlace. rewrite sortItems_fold_itemArrays. simpl.
  unfold sectionsOf at 1. simpl.
  by rewrite alter_sort_lookup_total, decide_True.
Qed.

Lemma sortModuleInPlace_sort_sectionsOf h m m' :
  sortBySequence (sectionsOf (sortModuleInPlace h m) m') = sortBySequence (sectionsOf h m').
Proof.
  unfold sectionsOf. rewrite sortModuleInPlace_sectionArrays, alter_sort_lookup_total.
  case_decide; [|done]. apply sortBySequence_idemp.
Qed.

Lemma sortModules_moduleArrays ms h :
  moduleArrays (foldl sortModuleInPlace h ms) = moduleArrays h.
Proof.
  revert h. induction ms as [|m ms IH]; intros h; simpl; [done|].
  by rewrite IH, sortModuleInPlace_moduleArrays.
Qed.

Lemma sortModules_sectionArrays ms h :
  sectionArrays (foldl sortModuleInPlace h ms)
  = sortAll (sections <$> ms) (sectionArrays h).
Proof.
  revert h. induction ms as [|m ms IH]; intros h; simpl; [done|].
  by rewrite IH, sortModuleInPlace_sectionArrays.
Qed.

Lemma sortModules_itemArrays ms h :
  itemArrays (foldl sortModuleInPlace h ms)
  = sortAll (ms ≫= λ m, sectionItems <$> sortBySequence (sectionsOf h m)) (itemArrays h).
Proof.
  revert h. induction ms as [|m ms IH]; intros h; simpl; [done|].
  rewrite IH, sortModuleInPlace_itemArrays, sortAll_app. f_equal.
  apply list_bind_ext; [|done]. intros m'.
  by rewrite sortModuleInPlace_sort_sectionsOf.
Qed.

(** The heap [extractAllIds] leaves behind. *)
Lemma extractAllIds_heap cd h :
  (extractAllIds cd h).2 = foldl sortModuleInPlace h (sortBySequence (modulesOf h cd)).
Proof. unfold extractAllIds. by destruct (findSequenceOne _). Qed.

Lemma extractAllIds_moduleArrays cd h :
  moduleArrays (extractAllIds cd h).2 = moduleArrays h.
Proof. by rewrite extractAllIds_heap, sortModules_moduleArrays. Qed.

Lemma extractAllIds_modulesOf cd h :
  modulesOf (extractAllIds cd h).2 cd = modulesOf h cd.
Proof. unfold modulesOf. by rewrite extractAllIds_moduleArrays. Qed.

Lemma extractAllIds_sectionsOf cd h m :
  m ∈ modulesOf h cd →
  sectionsOf (extractAllIds cd h).2 m = sortBySequence (sectionsOf h m).
Proof.
  intros Hm. unfold sectionsOf.
  rewrite extractAllIds_heap, sortModules_sectionArrays, sortAll_lookup_total.
  rewrite decide_True; [done|].
  apply list_elem_of_fmap. exists m. split; [done|]. by apply elem_of_sortBySequence.
Qed.

Lemma extractAllIds_itemsOf cd h m s :
  m ∈ modulesOf h cd → s ∈ sectionsOf h m →
  itemsOf (extractAllIds cd h).2 s = sortBySequence (itemsOf h s).
Proof.
  intros Hm Hs. unfold itemsOf.
  rewrite extractAllIds_heap, sortModules_itemArrays, sortAll_lookup_total.
  rewrite decide_True; [done|].
  apply list_elem_of_bind. exists m. split; [|by apply elem_of_sortBySequence].
  apply list_elem_of_fmap. exists s. split; [done|]. by apply elem_of_sortBySequence.
Qed.

(** Running [extractAllIds] again leaves the heap as the first run left it. *)
Lemma extractAllIds_heap_idemp cd h :
  (extractAllIds cd (extractAllIds cd h).2).2 = (extractAllIds cd h).2.
Proof.
  rewrite (extractAllIds_heap cd (extractAllIds cd h).2), extractAllIds_modulesOf.
  set (ms := sortBySequence (modulesOf h cd)).
  set (h1 := (extractAllIds cd h).2).
  assert (Hs : sectionArrays h1 = sortAll (sections <$> ms) (sectionArrays h)).
  { unfold h1. by rewrite extractAllIds_heap, sortModules_sectionArrays. }
  assert (Hi : itemArrays h1
    = sortAll (ms ≫= λ m, sectionItems <$> sortBySequence (sectionsOf h m)) (itemArrays h)).
  { unfold h1. by rewrite extractAllIds_heap, sortModules_itemArrays. }
  pose proof (sortModules_moduleArrays ms h1) as E1.
  pose proof (sortModules_sectionArrays ms h1) as E2.
  pose proof (sortModules_itemArrays ms h1) as E3.
  assert (Hloc : (ms ≫= λ m, sectionItems <$> sortBySequence (sectionsOf h1 m))
               = (ms ≫= λ m, sectionItems <$> sortBySequence (sectionsOf h m))).
  { apply list_bind_ext; [|done]. intros m. unfold sectionsOf.
    rewrite Hs, sortAll_lookup_total. case_decide; [|done].
    by rewrite sortBySequence_idemp. }
  rewrite Hloc in E3. rewrite Hs, sortAll_idemp, <-Hs in E2.
  rewrite Hi, sortAll_idemp, <-Hi in E3.
  destruct (foldl sortModuleInPlace h1 ms), h1; simpl in *. by subst.
Qed.

(** ** C10: what [extractAllIds] does to its argument *)

(** C10.  [extractAllIds] writes to its argument: after the call every
    module's [sections] array and every section's [sectionItems] array holds
    the elements it held before, sorted by ascending [sequence]; the caller's
    [modules] array is not written and keeps its order, while the IDs
    returned follow the sorted copy.  Whoever reads the curriculum afterwards
    reads this heap. *)
Theorem extractAllIds_sorts_in_place cd h :
  let h' := (extractAllIds cd h).2 in
  moduleArrays h' = moduleArrays h
  ∧ modulesOf h' cd = modulesOf h cd
  ∧ (∀ m, m ∈ modulesOf h cd →
       sectionsOf h' m = sortBySequence (sectionsOf h m)
       ∧ StronglySorted seq_le (sectionsOf h' m)
       ∧ sectionsOf h' m ≡ₚ sectionsOf h m)
  ∧ (∀ m s, m ∈ modulesOf h cd → s ∈ sectionsOf h m →
       itemsOf h' s = sortBySequence (itemsOf h s)
       ∧ StronglySorted seq_le (itemsOf h' s)
       ∧ itemsOf h' s ≡ₚ itemsOf h s)
  ∧ ids_modules (extractAllIds cd h).1 = moduleId <$> sortBySequence (modulesOf h cd).
Proof.
  intros h'. split_and!.
  - apply extractAllIds_moduleArrays.
  - apply extractAllIds_modulesOf.
  - intros m Hm. unfold h'. rewrite extractAllIds_sectionsOf by done.
    split_and!; [done|apply sortBySequence_sorted|apply sortBySequence_perm].
  - intros m s Hm Hs. unfold h'. rewrite (extractAllIds_itemsOf _ _ m) by done.
    split_and!; [done|apply sortBySequence_sorted|apply sortBySequence_perm].
  - unfold extractAllIds. by destruct (findSequenceOne _).
Qed.

(** On the sample, whose arrays are all given in descending order: the
    modules array still reads M2, M1 after the call; the sections of M1 read
    M1S1, M1S2. *)
Example extractAllIds_sample :
  let h' := (extractAllIds sampleCourse sampleHeap).2 in
  moduleId <$> modulesOf h' sampleCourse = ["M2"; "M1"]
  ∧ sectionId <$> sectionsOf h' (mkModule "M1" 1%Z 1%positive) = ["M1S1"; "M1S2"]
  ∧ ids_modules (extractAllIds sampleCourse sampleHeap).1 = ["M1"; "M2"].
Proof. vm_compute. done. Qed.

(** ** C8: the first module, section and item *)

Lemma findSequenceOne_unique {A : Type} `{Sequenced A} (l : list A) (x : A) :
  x ∈ l → sequence x = 1%Z →
  (∀ y, y ∈ l → sequence y = 1%Z → y = x) →
  findSequenceOne (sortBySequence l) = Some x.
Proof.
  intros Hin Hx Huniq.
  assert (is_Some (findSequenceOne (sortBySequence l))) as [y Hy].
  { apply (findSequenceOne_is_Some _ x); [by rewrite elem_of_sortBySequence|done]. }
  rewrite Hy. f_equal.
  apply findSequenceOne_Some in Hy as [Hyin Hy1].
  apply Huniq; [by rewrite elem_of_sortBySequence in Hyin|done].
Qed.

(** C8, as stated, fails: the one module has sequence 1, its one section has
    sequence 1 and the ID [""], the section's one item has sequence 1; the
    [firstSection] returned is [null], not the ID of that section. *)
Lemma firstSection_blank_id_is_null :
  modulesOf blankIdHeap sampleCourse = [mkModule "M" 1%Z 1%positive]
  ∧ sectionsOf blankIdHeap (mkModule "M" 1%Z 1%positive) = [mkSection "" 1%Z 1%positive]
  ∧ itemsOf blankIdHeap (mkSection "" 1%Z 1%positive) = [mkSectionItem "I" 1%Z]
  ∧ firstModule (extractAllIds sampleCourse blankIdHeap).1 = Some "M"
  ∧ firstSection (extractAllIds sampleCourse blankIdHeap).1 = None
  ∧ firstSection (extractAllIds sampleCourse blankIdHeap).1
      ≠ Some (sectionId (mkSection "" 1%Z 1%positive))
  ∧ firstSectionItem (extractAllIds sampleCourse blankIdHeap).1 = Some "I".
Proof. vm_compute. split_and!; done. Qed.

(** C8, amended.  When exactly one module has sequence 1, exactly one section
    of that module has sequence 1 and exactly one item of that section has
    sequence 1, [firstModule] is the ID of that module, [firstSection] the ID
    of that section and [firstSectionItem] the ID of that item, except that a
    section or item ID that is the empty string is returned as [null]; when no
    module has sequence 1, all three are [null]. *)
Theorem first_ids_follow_first_chain cd h :
  let ids := (extractAllIds cd h).1 in
  (∀ m s i,
     m ∈ modulesOf h cd → sequence m = 1%Z →
     (∀ m', m' ∈ modulesOf h cd → sequence m' = 1%Z → m' = m) →
     s ∈ sectionsOf h m → sequence s = 1%Z →
     (∀ s', s' ∈ sectionsOf h m → sequence s' = 1%Z → s' = s) →
     i ∈ itemsOf h s → sequence i = 1%Z →
     (∀ i', i' ∈ itemsOf h s → sequence i' = 1%Z → i' = i) →
     firstModule ids = Some (moduleId m)
     ∧ firstSection ids = (if decide (sectionId s = "") then None else Some (sectionId s))
     ∧ firstSectionItem ids
         = (if decide (sectionItemId i = "") then None else Some (sectionItemId i)))
  ∧ ((∀ m, m ∈ modulesOf h cd → sequence m ≠ 1%Z) →
       firstModule ids = None ∧ firstSection ids = None ∧ firstSectionItem ids = None).
Proof.
  intros ids. split.
  - intros m s i Hm Hm1 Hmu Hs Hs1 Hsu Hi Hi1 Hiu.
    pose proof (extractAllIds_sectionsOf cd h m Hm) as Esec.
    pose proof (extractAllIds_itemsOf cd h m s Hm Hs) as Eitem.
    rewrite extractAllIds_heap in Esec, Eitem.
    unfold ids, extractAllIds.
    rewrite (findSequenceOne_unique _ m) by done. simpl.
    rewrite Esec, (findSequenceOne_unique _ s) by done. simpl.
    rewrite Eitem, (findSequenceOne_unique _ i) by done. done.
  - intros Hnone. unfold ids, extractAllIds.
    assert (findSequenceOne (sortBySequence (modulesOf h cd)) = None) as ->; [|done].
    apply findSequenceOne_None. intros x Hx. apply Hnone.
    by rewrite elem_of_sortBySequence in Hx.
Qed.

(** The amended C8 on the sample course. *)
Lemma first_ids_follow_first_chain_sample :
  firstModule (extractAllIds sampleCourse sampleHeap).1 = Some "M1"
  ∧ firstSection (extractAllIds sampleCourse sampleHeap).1 = Some "M1S1"
  ∧ firstSectionItem (extractAllIds sampleCourse sampleHeap).1 = Some "M1S1I1".
Proof.
  apply (proj1 (first_ids_follow_first_chain sampleCourse sampleHeap)
           (mkModule "M1" 1%Z 1%positive) (mkSection "M1S1" 1%Z 1%positive)
           (mkSectionItem "M1S1I1" 1%Z));
    vm_compute;
    first [ done | by repeat constructor
          | intros ? [<-|[<-|[]]]%list_elem_of_In; done ].
Defined.

(** ** C5 and C4: the adjacency records *)

Lemma orNull_Some v x : orNull v = Some x → v = Some x.
Proof. destruct v as [s|]; simpl; [|done]. by case_decide. Qed.

Lemma bind_concat {A B : Type} (f : A → list B) (l : list A) :
  l ≫= f = concat (f <$> l).
Proof. induction l as [|x l IH]; csimpl; [done|]. by rewrite IH. Qed.

Lemma bind_bind {A B C : Type} (f : A → list B) (g : B → list C) (l : list A) :
  (l ≫= λ x, f x ≫= g) = (l ≫= f) ≫= g.
Proof. induction l as [|x l IH]; csimpl; [done|]. by rewrite bind_app, IH. Qed.

(** C5.  The section records are laid out module by module, the item records
    section by section.  Within the block of a parent, the record at index
    [i] is the record of the child at index [i] of the parent's array; its
    next pointer is [null] when that child is the last of the array, whatever
    follows the parent, and a next pointer that is not [null] is the ID of the
    child at index [i + 1] of the same array. *)
Theorem next_pointers_stay_within_parent cd h :
  let nd := getNextData cd h in
  (∃ blocks : list (list SectionNextInput),
     sectionNextData nd = concat blocks
     ∧ Forall2 (λ m block,
         length block = length (sectionsOf h m)
         ∧ ∀ i s, sectionsOf h m !! i = Some s →
             ∃ r, block !! i = Some r
               ∧ sn_sectionId r = sectionId s
               ∧ sn_moduleId r = moduleId m
               ∧ (sectionsOf h m !! S i = None → sn_nextSectionId r = None)
               ∧ (∀ x, sn_nextSectionId r = Some x →
                    sectionId <$> sectionsOf h m !! S i = Some x))
         (modulesOf h cd) blocks)
  ∧ (∃ blocks : list (list SectionItemNextInput),
       sectionItemNextData nd = concat blocks
       ∧ Forall2 (λ s block,
           length block = length (itemsOf h s)
           ∧ ∀ i it, itemsOf h s !! i = Some it →
               ∃ r, block !! i = Some r
                 ∧ sin_sectionItemId r = sectionItemId it
                 ∧ sin_sectionId r = sectionId s
                 ∧ (itemsOf h s !! S i = None → sin_nextSectionItemId r = None)
                 ∧ (∀ x, sin_nextSectionItemId r = Some x →
                      sectionItemId <$> itemsOf h s !! S i = Some x))
           (modulesOf h cd ≫= sectionsOf h) blocks).
Proof.
  intros nd. split.
  - exists ((λ m, imap (sectionNextOf h m) (sectionsOf h m)) <$> modulesOf h cd).
    split; [apply bind_concat|].
    apply Forall2_fmap_r, Forall_Forall2_diag, Forall_forall.
    intros m _. simpl. split; [apply length_imap|].
    intros i s Hs. exists (sectionNextOf h m i s).
    rewrite list_lookup_imap, Hs. split_and!; try done.
    + simpl. by intros ->.
    + simpl. apply orNull_Some.
  - exists ((λ s, imap (sectionItemNextOf h s) (itemsOf h s))
              <$> (modulesOf h cd ≫= sectionsOf h)).
    split.
    { rewrite <-bind_concat. unfold nd, getNextData. simpl.
      by rewrite (bind_bind (sectionsOf h)). }
    apply Forall2_fmap_r, Forall_Forall2_diag, Forall_forall.
    intros s _. simpl. split; [apply length_imap|].
    intros i it Hi. exists (sectionItemNextOf h s i it).
    rewrite list_lookup_imap, Hi. split_and!; try done.
    + simpl. by intros ->.
    + simpl. apply orNull_Some.
Qed.

(** On the sample, after [extractAllIds]: M1S2, the last section of M1, has no
    next section although M2 follows M1 in the course. *)
Example next_pointers_sample :
  (λ r, (sn_sectionId r, sn_nextSectionId r, sn_moduleId r))
    <$> sectionNextData (getNextData sampleCourse (extractAllIds sampleCourse orderedHeap).2)
  = [("M1S1", Some "M1S2", "M1"); ("M1S2", None, "M1");
     ("M2S1", Some "M2S2", "M2"); ("M2S2", None, "M2")].
Proof. vm_compute. done. Qed.

(** For every curriculum, also after [extractAllIds]: the module record at
    index [i] is the record of the module at index [i] of the caller's array,
    and its next pointer is the ID at index [i + 1] of that array, whatever
    the sequence numbers are. *)
Lemma moduleNextData_in_array_order cd h i m :
  modulesOf h cd !! i = Some m →
  ∃ r, moduleNextData (getNextData cd (extractAllIds cd h).2) !! i = Some r
       ∧ mn_moduleId r = moduleId m
       ∧ mn_nextModuleId r = orNull (moduleId <$> modulesOf h cd !! S i).
Proof.
  intros Hm. unfold getNextData. simpl.
  rewrite extractAllIds_modulesOf, list_lookup_imap, Hm. simpl.
  by eexists.
Qed.

(** C4 on the sample course, whose modules array lists M2 (sequence 2) before
    M1 (sequence 1).  The sections and the items were sorted in place by
    [extractAllIds], the modules array was not: the record of M2 points to M1
    and the record of M1 to nothing; the database stores that, and M2 is the
    module put IN_PROGRESS. *)
Theorem moduleNext_follows_array_order :
  let h' := (extractAllIds sampleCourse sampleHeap).2 in
  let st' := (initializeStudentProgress sampleCourse sampleHeap emptyStore).2 in
  (λ m, (moduleId m, sequence m)) <$> modulesOf sampleHeap sampleCourse
    = [("M2", 2%Z); ("M1", 1%Z)]
  ∧ (λ r, (mn_moduleId r, mn_nextModuleId r))
      <$> moduleNextData (getNextData sampleCourse h')
    = [("M2", Some "M1"); ("M1", None)]
  ∧ (λ r, (mnr_moduleId r, mnr_nextModuleId r)) <$> moduleNext st'
    = [("M2", Some "M1"); ("M1", None)]
  ∧ (λ r, (sn_sectionId r, sn_nextSectionId r))
      <$> sectionNextData (getNextData sampleCourse h')
    = [("M2S1", Some "M2S2"); ("M2S2", None); ("M1S1", Some "M1S2"); ("M1S2", None)]
  ∧ (λ r, (ep_entityId r, ep_progress r))
      <$> filter (λ r, ep_studentId r = "alice") (studentModuleProgress st')
    = [("M2", IN_PROGRESS); ("M1", INCOMPLETE)].
Proof. vm_compute. done. Qed.

(** ** The cascade engine *)

(** One step of a computation whose outcome on the current store is known. *)
Lemma bind_Ok {A B : Type} (m : M A) (f : A → M B) st a st' :
  m st = (Ok a, st') → (m ≫= f) st = f a st'.
Proof. intros Hm. unfold mbind, M_bind. by rewrite Hm. Qed.

Lemma bind_Throw {A B : Type} (m : M A) (f : A → M B) st e st' :
  m st = (Throw e, st') → (m ≫= f) st = (Throw e, st').
Proof. intros Hm. unfold mbind, M_bind. by rewrite Hm. Qed.

Section ServiceFacts.
Variable repo : CourseProgressRepository.
Variables courseInstanceId studentId : string.

(** The loop over a list that is cut in two. *)
Lemma completeSectionItems_app cascade pre post updates st :
  completeSectionItems repo courseInstanceId studentId cascade (pre ++ post) updates st
  = match completeSectionItems repo courseInstanceId studentId cascade pre updates st with
    | (Ok us, st1) =>
        completeSectionItems repo courseInstanceId studentId cascade post us st1
    | (Throw e, st1) => (Throw e, st1)
    end.
Proof.
  revert updates st. induction pre as [|x pre IH]; intros updates st; [done|].
  simpl. unfold mbind, M_bind.
  destruct (completeSectionItem _ _ _ _ _ st) as [[u|e] st']; [apply IH|done].
Qed.

(** An error thrown for one item is the error of the call; the store is the
    one the failing item left. *)
Lemma completeSectionItems_throw cascade pre item post st us st1 e st2 :
  completeSectionItems repo courseInstanceId studentId cascade pre [] st = (Ok us, st1) →
  completeSectionItem repo courseInstanceId studentId cascade item st1 = (Throw e, st2) →
  updateSectionItemProgress repo courseInstanceId studentId (pre ++ item :: post) cascade st
  = (Throw e, st2).
Proof.
  intros Hpre Hitem. unfold updateSectionItemProgress.
  rewrite completeSectionItems_app, Hpre. simpl.
  by apply bind_Throw.
Qed.

Lemma checkPreviousSectionItem_throw item st prevRow p :
  List.find (λ r, bool_decide (sinr_nextSectionItemId r = Some item)) (sectionItemNext st)
    = Some prevRow →
  findUnique (studentId, sinr_sectionItemId prevRow, courseInstanceId)
    (studentSectionItemProgress st) = Some p →
  ep_progress p ≠ COMPLETE →
  checkPreviousSectionItem courseInstanceId studentId item st
  = (Throw (PreviousItemNotComplete item (sinr_sectionItemId prevRow)), st).
Proof.
  intros Hprev Hp Hne. unfold checkPreviousSectionItem, findPreviousSectionItem,
    findSectionItemProgress, readStore, mbind, M_bind.
  rewrite Hprev. simpl. rewrite Hp. by rewrite decide_True.
Qed.

(** The gating check passes, without a write, when the item has no
    predecessor, when the predecessor has no progress row, and when the
    predecessor is COMPLETE. *)
Lemma checkPreviousSectionItem_pass item st :
  match List.find (λ r, bool_decide (sinr_nextSectionItemId r = Some item))
          (sectionItemNext st) with
  | Some prevRow =>
      match findUnique (studentId, sinr_sectionItemId prevRow, courseInstanceId)
              (studentSectionItemProgress st) with
      | Some p => ep_progress p = COMPLETE
      | None => True
      end
  | None => True
  end →
  checkPreviousSectionItem courseInstanceId studentId item st = (Ok (), st).
Proof.
  unfold checkPreviousSectionItem, findPreviousSectionItem,
    findSectionItemProgress, readStore, mbind, M_bind.
  destruct (List.find _ _) as [prevRow|]; simpl; [|done].
  destruct (findUnique _ _) as [p|]; [|done].
  intros Hp. by rewrite decide_False by (by intros ?).
Qed.

End ServiceFacts.

(** ** C1: gating *)




(** For the first item of the list, or a list of one item, the store the
    call leaves is the store it was given. *)
Lemma gating_violation_first_item
    repo courseInstanceId studentId cascade item post st prevRow p :
  List.find (λ r, bool_decide (sinr_nextSectionItemId r = Some item)) (sectionItemNext st)
    = Some prevRow →
  findUnique (studentId, sinr_sectionItemId prevRow, courseInstanceId)
    (studentSectionItemProgress st) = Some p →
  ep_progress p ≠ COMPLETE →
  updateSectionItemProgress repo courseInstanceId studentId (item :: post) cascade st
  = (Throw (PreviousItemNotComplete item (sinr_sectionItemId prevRow)), st).
Proof.
  intros Hprev Hp Hne.
  apply (completeSectionItems_throw repo courseInstanceId studentId cascade [] item post
           st [] st); [done|].
  unfold completeSectionItem. apply bind_Throw.
  by eapply checkPreviousSectionItem_throw.
Qed.

(** The end-to-end scenario of the specification, with the repository above:
    alice completes the eight items in order, one call per item. *)
Example end_to_end_scenario :
  let run items st :=
    updateSectionItemProgress specRepository "C" "alice" items true st in
  let st1 := (run ["M1S1I1"] initializedStore).2 in
  let st2 := (run ["M1S1I2"] st1).2 in
  let st4 := (run ["M1S2I2"] (run ["M1S2I1"] st2).2).2 in
  let st8 := (run ["M2S2I2"] (run ["M2S2I1"] (run ["M2S1I2"] (run ["M2S1I1"] st4).2).2).2).2 in
  let status t id := ep_progress <$> findUnique ("alice", id, "C") t in
  (status (studentSectionItemProgress st1) "M1S1I1" = Some COMPLETE
   ∧ status (studentSectionItemProgress st1) "M1S1I2" = Some IN_PROGRESS)
  ∧ (status (studentSectionProgress st2) "M1S1" = Some COMPLETE
     ∧ status (studentSectionProgress st2) "M1S2" = Some IN_PROGRESS
     ∧ status (studentSectionItemProgress st2) "M1S2I1" = Some IN_PROGRESS)
  ∧ (status (studentModuleProgress st4) "M1" = Some COMPLETE
     ∧ status (studentModuleProgress st4) "M2" = Some IN_PROGRESS
     ∧ status (studentSectionProgress st4) "M2S1" = Some IN_PROGRESS
     ∧ status (studentSectionItemProgress st4) "M2S1I1" = Some IN_PROGRESS)
  ∧ scp_progress <$> findUnique ("alice", "C") (studentCourseProgress st8) = Some COMPLETE.
Proof. vm_compute. done. Qed.

(** ** C2: what the section cascade reports when it escalates *)

(** When the section has no next section, the report of the module cascade is
    spread and its [sections] field is then overwritten with [[sectionId]]:
    the sections the module cascade reported are not in the result. *)
Lemma updateSectionProgress_escalation
    repo courseInstanceId studentId sectionId st st1 sd st2 u st3 :
  repo_updateSectionProgress repo courseInstanceId studentId sectionId st = (Ok (), st1) →
  repo_getSectionDetails repo courseInstanceId studentId sectionId st1
    = (Ok (Some sd), st2) →
  orNull (snr_nextSectionId sd) = None →
  updateModuleProgress repo courseInstanceId studentId (snr_moduleId sd) true st2
    = (Ok u, st3) →
  updateSectionProgress repo courseInstanceId studentId sectionId true st
  = (Ok (mkUpdatedEntities (course u) (upd_modules u) (Some [sectionId])
           (upd_sectionItems u)), st3).
Proof.
  intros H1 H2 H3 H4. unfold updateSectionProgress.
  rewrite (bind_Ok _ _ _ _ _ H1), (bind_Ok _ _ _ _ _ H2), H3.
  by rewrite (bind_Ok _ _ _ _ _ H4).
Qed.

(** C2 on the sample: alice completes M1S2I2 with [cascade = true]; M2
    follows M1.  The module cascade reports the sections [["M2S1"]]; the
    update returned for the item has the sections [["M1S2"]] only.  M2S1 was
    put IN_PROGRESS all the same. *)
Theorem module_cascade_report_drops_next_section :
  let r := updateSectionItemProgress specRepository "C" "alice" ["M1S2I2"] true
             lastItemOfM1Store in
  (updateModuleProgress specRepository "C" "alice" "M1" true lastItemOfM1Store).1
    = Ok (mkUpdatedEntities None (Some ["M1"; "M2"]) (Some ["M2S1"]) (Some ["M2S1I1"]))
  ∧ r.1 = Ok [mkUpdatedEntities None (Some ["M1"; "M2"]) (Some ["M1S2"])
                (Some ["M2S1I1"; "M1S2I2"])]
  ∧ findUnique ("alice", "M2S1", "C") (studentSectionProgress r.2)
    = Some (mkEntityProgress "alice" "M2S1" "C" IN_PROGRESS).
Proof. vm_compute. done. Qed.

(** ** C7: records that are missing *)

(** C7, as stated, fails: M1S1I1 precedes M1S1I2 and alice has no progress row
    for M1S1I1; completing M1S1I2 does not fail, the gating check is passed
    over and the cascade runs. *)
Lemma missing_predecessor_progress_is_skipped :
  List.find (λ r, bool_decide (sinr_nextSectionItemId r = Some "M1S1I2"))
    (sectionItemNext orphanStore)
  = Some (mkSectionItemNext "M1S1I1" (Some "M1S1I2") "M1S1")
  ∧ findUnique ("alice", "M1S1I1", "C") (studentSectionItemProgress orphanStore) = None
  ∧ (updateSectionItemProgress specRepository "C" "alice" ["M1S1I2"] true orphanStore).1
    = Ok [mkUpdatedEntities None None (Some ["M1S1"; "M1S2"]) (Some ["M1S2I1"; "M1S1I2"])].
Proof. vm_compute. done. Qed.

(** C7, amended.  (1) When the predecessor of an item has no progress row, the
    gating check is passed over: the item is processed as an item without
    predecessor is.  (2)-(4) With [cascade = true], once the items before
    [item] are processed and the gating check has passed: if the repository
    has no details record for the item, or, the item being the last of its
    section, none for the section, or, the section being the last of its
    module, none for the module, the call throws the corresponding "details
    not found" error, a NotFound, to its caller; the writes made until then
    stay. *)
Theorem missing_records repo courseInstanceId studentId :
  (∀ cascade item st prevRow,
     List.find (λ r, bool_decide (sinr_nextSectionItemId r = Some item))
       (sectionItemNext st) = Some prevRow →
     findUnique (studentId, sinr_sectionItemId prevRow, courseInstanceId)
       (studentSectionItemProgress st) = None →
     completeSectionItem repo courseInstanceId studentId cascade item st
     = markSectionItem repo courseInstanceId studentId cascade item st)
  ∧ (∀ pre item post st us st0 st1 st2,
       completeSectionItems repo courseInstanceId studentId true pre [] st = (Ok us, st0) →
       checkPreviousSectionItem courseInstanceId studentId item st0 = (Ok (), st0) →
       repo_updateSectionItemProgress repo courseInstanceId studentId [item] st0
         = (Ok (), st1) →
       repo_getSectionItemDetails repo courseInstanceId studentId item st1
         = (Ok None, st2) →
       updateSectionItemProgress repo courseInstanceId studentId
         (pre ++ item :: post) true st
       = (Throw (SectionItemDetailsNotFound item), st2)
       ∧ errorKind (SectionItemDetailsNotFound item) = NotFound)
  ∧ (∀ pre item post st us st0 st1 d st2 st3 st4,
       completeSectionItems repo courseInstanceId studentId true pre [] st = (Ok us, st0) →
       checkPreviousSectionItem courseInstanceId studentId item st0 = (Ok (), st0) →
       repo_updateSectionItemProgress repo courseInstanceId studentId [item] st0
         = (Ok (), st1) →
       repo_getSectionItemDetails repo courseInstanceId studentId item st1
         = (Ok (Some d), st2) →
       orNull (sinr_nextSectionItemId d) = None →
       repo_updateSectionProgress repo courseInstanceId studentId (sinr_sectionId d) st2
         = (Ok (), st3) →
       repo_getSectionDetails repo courseInstanceId studentId (sinr_sectionId d) st3
         = (Ok None, st4) →
       updateSectionItemProgress repo courseInstanceId studentId
         (pre ++ item :: post) true st
       = (Throw (SectionDetailsNotFound (sinr_sectionId d)), st4)
       ∧ errorKind (SectionDetailsNotFound (sinr_sectionId d)) = NotFound)
  ∧ (∀ pre item post st us st0 st1 d st2 st3 sd st4 st5 st6,
       completeSectionItems repo courseInstanceId studentId true pre [] st = (Ok us, st0) →
       checkPreviousSectionItem courseInstanceId studentId item st0 = (Ok (), st0) →
       repo_updateSectionItemProgress repo courseInstanceId studentId [item] st0
         = (Ok (), st1) →
       repo_getSectionItemDetails repo courseInstanceId studentId item st1
         = (Ok (Some d), st2) →
       orNull (sinr_nextSectionItemId d) = None →
       repo_updateSectionProgress repo courseInstanceId studentId (sinr_sectionId d) st2
         = (Ok (), st3) →
       repo_getSectionDetails repo courseInstanceId studentId (sinr_sectionId d) st3
         = (Ok (Some sd), st4) →
       orNull (snr_nextSectionId sd) = None →
       repo_updateModuleProgress repo courseInstanceId studentId (snr_moduleId sd) st4
         = (Ok (), st5) →
       repo_getModuleDetails repo courseInstanceId studentId (snr_moduleId sd) st5
         = (Ok None, st6) →
       updateSectionItemProgress repo courseInstanceId studentId
         (pre ++ item :: post) true st
       = (Throw (ModuleDetailsNotFound (snr_moduleId sd)), st6)
       ∧ errorKind (ModuleDetailsNotFound (snr_moduleId sd)) = NotFound).
Proof.
  split_and!.
  - intros cascade item st prevRow Hprev Hp. unfold completeSectionItem.
    erewrite bind_Ok; [done|].
    apply checkPreviousSectionItem_pass. by rewrite Hprev, Hp.
  - intros pre item post st us st0 st1 st2 Hpre Hgate H1 H2. split; [|done].
    eapply completeSectionItems_throw; [done|].
    unfold completeSectionItem. rewrite (bind_Ok _ _ _ _ _ Hgate).
    unfold markSectionItem.
    by rewrite (bind_Ok _ _ _ _ _ H1), (bind_Ok _ _ _ _ _ H2).
  - intros pre item post st us st0 st1 d st2 st3 st4 Hpre Hgate H1 H2 Hn H3 H4.
    split; [|done].
    eapply completeSectionItems_throw; [done|].
    unfold completeSectionItem. rewrite (bind_Ok _ _ _ _ _ Hgate).
    unfold markSectionItem.
    rewrite (bind_Ok _ _ _ _ _ H1), (bind_Ok _ _ _ _ _ H2), Hn.
    apply bind_Throw. unfold updateSectionProgress.
    by rewrite (bind_Ok _ _ _ _ _ H3), (bind_Ok _ _ _ _ _ H4).
  - intros pre item post st us st0 st1 d st2 st3 sd st4 st5 st6
      Hpre Hgate H1 H2 Hn H3 H4 Hns H5 H6.
    split; [|done].
    eapply completeSectionItems_throw; [done|].
    unfold completeSectionItem. rewrite (bind_Ok _ _ _ _ _ Hgate).
    unfold markSectionItem.
    rewrite (bind_Ok _ _ _ _ _ H1), (bind_Ok _ _ _ _ _ H2), Hn.
    apply bind_Throw. unfold updateSectionProgress.
    rewrite (bind_Ok _ _ _ _ _ H3), (bind_Ok _ _ _ _ _ H4), Hns.
    apply bind_Throw. unfold updateModuleProgress.
    by rewrite (bind_Ok _ _ _ _ _ H5), (bind_Ok _ _ _ _ _ H6).
Qed.

(** The amended C7 on the sample: the item, its section and its module are
    marked, then the details of module M1 are found missing. *)
Lemma missing_records_sample :
  let st1 := (markSectionItems "C" "alice" ["M1S2I2"] noModuleNextStore).2 in
  let st3 := (markProgress studentSectionProgress setStudentSectionProgress
                "C" "alice" "M1S2" st1).2 in
  let st5 := (markProgress studentModuleProgress setStudentModuleProgress
                "C" "alice" "M1" st3).2 in
  updateSectionItemProgress specRepository "C" "alice" ([] ++ "M1S2I2" :: []) true
    noModuleNextStore
  = (Throw (ModuleDetailsNotFound "M1"), st5)
  ∧ errorKind (ModuleDetailsNotFound "M1") = NotFound.
Proof.
  intros st1 st3 st5.
  apply (proj2 (proj2 (proj2 (missing_records specRepository "C" "alice")))
           [] "M1S2I2" [] noModuleNextStore [] noModuleNextStore
           st1 (mkSectionItemNext "M1S2I2" None "M1S2") st1
           st3 (mkSectionNext "M1S2" "M1S2I1" None "M1") st3
           st5 st5);
    vm_compute; reflexivity.
Defined.

(** ** Tables *)

Section TableFacts.
Context {R K : Type} `{Keyed R K} `{EqDecision K}.
Implicit Types (t data : list R) (r : R) (k : K).

Lemma findUnique_Some k t r : findUnique k t = Some r → r ∈ t ∧ keyOf r = k.
Proof.
  unfold findUnique. intros Hf. apply find_some in Hf as [Hin Hb].
  split; [by apply list_elem_of_In|]. by apply bool_decide_eq_true in Hb.
Qed.

Lemma findUnique_None k t : findUnique k t = None ↔ ∀ r, r ∈ t → keyOf r ≠ k.
Proof.
  unfold findUnique. split.
  - intros Hf r Hin Hr. apply list_elem_of_In in Hin.
    pose proof (find_none _ _ Hf r Hin) as Hb. simpl in Hb.
    by apply bool_decide_eq_false in Hb.
  - intros Hall. induction t as [|y t IH]; simpl; [done|].
    rewrite bool_decide_eq_false_2; [|apply Hall; left].
    apply IH. intros x ?. apply Hall. by right.
Qed.

Lemma findUnique_is_Some k t : is_Some (findUnique k t) ↔ k ∈ (keyOf <$> t : list K).
Proof.
  split.
  - intros [r Hr]. apply findUnique_Some in Hr as [Hin <-].
    by apply list_elem_of_fmap_2.
  - intros (r & -> & Hin)%list_elem_of_fmap.
    destruct (findUnique (keyOf r) t) eqn:E; [by eexists|].
    by destruct (proj1 (findUnique_None _ _) E r Hin).
Qed.

Lemma findUnique_app k t1 t2 :
  findUnique k (t1 ++ t2)
  = match findUnique k t1 with Some r => Some r | None => findUnique k t2 end.
Proof.
  unfold findUnique. induction t1 as [|r t1 IH]; simpl; [done|].
  by destruct (bool_decide (keyOf r = k)).
Qed.

Lemma createManySkipDuplicates_cons r data t :
  createManySkipDuplicates (r :: data) t
  = createManySkipDuplicates data
      (if findUnique (keyOf r) t is Some _ then t else t ++ [r]).
Proof. done. Qed.

(** [createMany] with [skipDuplicates] only appends: the rows of the table
    stay where they are and as they are; the rows appended are rows of
    [data] whose key the table did not hold. *)
Lemma createManySkipDuplicates_appends data t :
  ∃ added, createManySkipDuplicates data t = t ++ added
    ∧ (∀ r, r ∈ added → r ∈ data ∧ findUnique (keyOf r) t = None).
Proof.
  revert t. induction data as [|r data IH]; intros t.
  - exists []. split; [by rewrite app_nil_r|]. by intros ? ?%elem_of_nil.
  - rewrite createManySkipDuplicates_cons.
    destruct (findUnique (keyOf r) t) as [r'|] eqn:E.
    + destruct (IH t) as (added & -> & Hadded). exists added. split; [done|].
      intros x Hx. destruct (Hadded x Hx). split; [by right|done].
    + destruct (IH (t ++ [r])) as (added & -> & Hadded). exists (r :: added).
      split; [by rewrite <-app_assoc|].
      intros x [->|Hx]%elem_of_cons; [split; [left|done]|].
      destruct (Hadded x Hx) as [? Hnone]. split; [by right|].
      rewrite findUnique_app in Hnone. by destruct (findUnique (keyOf x) t).
Qed.

Lemma createManySkipDuplicates_keeps k t data :
  is_Some (findUnique k t) → is_Some (findUnique k (createManySkipDuplicates data t)).
Proof.
  intros [r Hr]. destruct (createManySkipDuplicates_appends data t) as (added & -> & _).
  rewrite findUnique_app, Hr. by eexists.
Qed.

(** Afterwards every key of [data] is in the table. *)
Lemma createManySkipDuplicates_present data t r :
  r ∈ data → is_Some (findUnique (keyOf r) (createManySkipDuplicates data t)).
Proof.
  revert t. induction data as [|x data IH]; intros t; [by intros ?%elem_of_nil|].
  rewrite createManySkipDuplicates_cons. intros [->|Hin]%elem_of_cons; [|by apply IH].
  apply createManySkipDuplicates_keeps.
  destruct (findUnique (keyOf x) t) eqn:E; [by eexists|].
  rewrite findUnique_app, E. simpl.
  unfold findUnique. simpl. rewrite bool_decide_eq_true_2 by done. by eexists.
Qed.

(** When every key of [data] is in the table, nothing is inserted. *)
Lemma createManySkipDuplicates_all_present data t :
  (∀ r, r ∈ data → is_Some (findUnique (keyOf r) t)) →
  createManySkipDuplicates data t = t.
Proof.
  induction data as [|r data IH]; intros Hall; [done|].
  rewrite createManySkipDuplicates_cons.
  destruct (Hall r) as [r' ->]; [left|].
  apply IH. intros x Hx. apply Hall. by right.
Qed.

(** No key is inserted twice. *)
Lemma createManySkipDuplicates_NoDup data t :
  NoDup (keyOf <$> t : list K) → NoDup (keyOf <$> createManySkipDuplicates data t : list K).
Proof.
  revert t. induction data as [|r data IH]; intros t Ht; [done|].
  rewrite createManySkipDuplicates_cons. apply IH.
  destruct (findUnique (keyOf r) t) eqn:E; [done|].
  rewrite fmap_app. apply NoDup_app. split_and!; [done| |apply NoDup_singleton].
  intros k Hk [->|[]%elem_of_nil]%elem_of_cons.
  apply findUnique_is_Some in Hk as [? Hk]. by rewrite Hk in E.
Qed.

Lemma upsert_present k (update : R → R) create t :
  is_Some (findUnique k t) →
  upsert k update create t = (λ r, if decide (keyOf r = k) then update r else r) <$> t.
Proof. intros [r Hr]. unfold upsert. by rewrite Hr. Qed.

Lemma upsert_absent k (update : R → R) create t :
  findUnique k t = None → upsert k update create t = t ++ [create].
Proof. intros Hr. unfold upsert. by rewrite Hr. Qed.

(** An upsert whose [update] is empty leaves an existing row as it is. *)
Lemma upsert_no_update k create t :
  is_Some (findUnique k t) → upsert k (λ r, r) create t = t.
Proof.
  intros Hk. rewrite upsert_present by done.
  rewrite <-(list_fmap_id t) at 2. apply list_fmap_ext.
  intros ? r _. by case_decide.
Qed.

Lemma upsert_keys k (update : R → R) create t :
  (∀ r, keyOf (update r) = keyOf r) → keyOf create = k →
  (keyOf <$> upsert k update create t : list K)
  = (keyOf <$> t) ++ (if findUnique k t is Some _ then [] else [k]).
Proof.
  intros Hupd Hcre. unfold upsert. destruct (findUnique k t) as [r0|] eqn:E.
  - rewrite app_nil_r, <-list_fmap_compose. apply list_fmap_ext.
    intros ? r _. simpl. case_decide; [apply Hupd|done].
  - by rewrite fmap_app, <-Hcre.
Qed.

Lemma upsert_NoDup k (update : R → R) create t :
  (∀ r, keyOf (update r) = keyOf r) → keyOf create = k →
  NoDup (keyOf <$> t : list K) → NoDup (keyOf <$> upsert k update create t : list K).
Proof.
  intros Hupd Hcre Ht. rewrite upsert_keys by done.
  destruct (findUnique k t) eqn:E; [by rewrite app_nil_r|].
  apply NoDup_app. split_and!; [done| |apply NoDup_singleton].
  intros k' Hk' [->|[]%elem_of_nil]%elem_of_cons.
  apply findUnique_is_Some in Hk' as [? Hk']. by rewrite Hk' in E.
Qed.

Lemma findUnique_fmap_update k k' (update : R → R) t :
  (∀ r, keyOf (update r) = keyOf r) →
  findUnique k' ((λ r, if decide (keyOf r = k) then update r else r) <$> t)
  = (λ r, if decide (keyOf r = k) then update r else r) <$> findUnique k' t.
Proof.
  intros Hupd. unfold findUnique. induction t as [|r t IH]; simpl; [done|].
  assert (keyOf (if decide (keyOf r = k) then update r else r) = keyOf r) as ->.
  { case_decide; [apply Hupd|done]. }
  by destruct (bool_decide (keyOf r = k')).
Qed.

(** After an upsert the key is in the table, with the updated row or the
    created one. *)
Lemma findUnique_upsert k (update : R → R) create t :
  (∀ r, keyOf (update r) = keyOf r) → keyOf create = k →
  findUnique k (upsert k update create t)
  = Some (match findUnique k t with Some r => update r | None => create end).
Proof.
  intros Hupd Hcre. unfold upsert. destruct (findUnique k t) as [r|] eqn:E.
  - rewrite findUnique_fmap_update, E by done. simpl.
    apply findUnique_Some in E as [_ E]. by rewrite decide_True.
  - rewrite findUnique_app, E. unfold findUnique. simpl.
    by rewrite bool_decide_eq_true_2.
Qed.

Lemma findUnique_upsert_ne k k' (update : R → R) create t :
  (∀ r, keyOf (update r) = keyOf r) → keyOf create = k → k' ≠ k →
  findUnique k' (upsert k update create t) = findUnique k' t.
Proof.
  intros Hupd Hcre Hne. unfold upsert. destruct (findUnique k t) as [r|] eqn:E.
  - rewrite findUnique_fmap_update by done.
    destruct (findUnique k' t) as [r'|] eqn:E'; simpl; [|done].
    apply findUnique_Some in E' as [_ E']. by rewrite decide_False by congruence.
  - rewrite findUnique_app. destruct (findUnique k' t); [done|].
    unfold findUnique. simpl. by rewrite bool_decide_eq_false_2 by congruence.
Qed.

End TableFacts.

(** ** The rows and operations [initializeStudentProgress] prepares *)

Lemma rowsFirst_false cid s ids :
  rowsFirst cid s false ids = (λ y, mkEntityProgress s y cid INCOMPLETE) <$> ids.
Proof. by destruct ids. Qed.

Lemma rowsFirst_length cid s first ids : length (rowsFirst cid s first ids) = length ids.
Proof. destruct ids; simpl; [done|]. by rewrite length_fmap. Qed.

Lemma itemStep_fold_true cid s p acc items :
  (foldl (itemStep cid s p) (true, acc) items).2
  = acc ++ ((λ y, mkEntityProgress s y cid INCOMPLETE) <$> (sectionItemId <$> items)).
Proof.
  revert acc. induction items as [|i items IH]; intros acc; simpl.
  - by rewrite app_nil_r.
  - rewrite andb_false_r, IH, <-app_assoc. done.
Qed.

Lemma itemStep_fold cid s p acc items :
  (foldl (itemStep cid s p) (false, acc) items).2
  = acc ++ rowsFirst cid s (bool_decide (p = IN_PROGRESS)) (sectionItemId <$> items).
Proof.
  destruct items as [|i items]; simpl; [by rewrite app_nil_r|].
  rewrite andb_true_r, itemStep_fold_true, <-app_assoc. done.
Qed.

Lemma sectionStep_fold_true h cid s mp sd idt secs :
  ∃ b, foldl (sectionStep h cid s mp) (true, sd, idt) secs
       = (b, sd ++ ((λ y, mkEntityProgress s y cid INCOMPLETE) <$> (sectionId <$> secs)),
          idt ++ (secs ≫= λ sec, rowsFirst cid s false (sectionItemId <$> itemsOf h sec))).
Proof.
  revert sd idt. induction secs as [|sec secs IH]; intros sd idt; simpl.
  - exists true. by rewrite !app_nil_r.
  - rewrite andb_false_r.
    destruct (foldl (itemStep cid s INCOMPLETE) (false, idt) (itemsOf h sec))
      as [b' idt'] eqn:E.
    pose proof (itemStep_fold cid s INCOMPLETE idt (itemsOf h sec)) as E'.
    rewrite E in E'. simpl in E'. subst idt'.
    destruct (IH (sd ++ [mkEntityProgress s (sectionId sec) cid INCOMPLETE])
                (idt ++ rowsFirst cid s false (sectionItemId <$> itemsOf h sec)))
      as [b ->].
    exists b. by rewrite <-!app_assoc.
Qed.

Lemma sectionStep_fold h cid s mp sd idt secs :
  ∃ b, foldl (sectionStep h cid s mp) (false, sd, idt) secs
       = (b, sd ++ rowsFirst cid s (bool_decide (mp = IN_PROGRESS)) (sectionId <$> secs),
          idt ++ itemRowsOf h cid s (bool_decide (mp = IN_PROGRESS)) secs).
Proof.
  destruct secs as [|sec secs]; simpl.
  - exists false. by rewrite !app_nil_r.
  - rewrite andb_true_r.
    set (sp := if bool_decide (mp = IN_PROGRESS) then IN_PROGRESS else INCOMPLETE).
    destruct (foldl (itemStep cid s sp) (false, idt) (itemsOf h sec)) as [b' idt'] eqn:E.
    pose proof (itemStep_fold cid s sp idt (itemsOf h sec)) as E'.
    rewrite E in E'. simpl in E'. subst idt'.
    destruct (sectionStep_fold_true h cid s mp
                (sd ++ [mkEntityProgress s (sectionId sec) cid sp])
                (idt ++ rowsFirst cid s (bool_decide (sp = IN_PROGRESS))
                          (sectionItemId <$> itemsOf h sec)) secs) as [b ->].
    exists b. rewrite <-!app_assoc. simpl.
    assert (bool_decide (sp = IN_PROGRESS) = bool_decide (mp = IN_PROGRESS)) as ->.
    { unfold sp. by destruct (bool_decide (mp = IN_PROGRESS)). }
    done.
Qed.

Lemma moduleStep_fold h st cid s flag md sd idt mods :
  ∃ b, foldl (moduleStep h st cid s) (flag, md, sd, idt) mods
       = (b, md ++ moduleRowsFrom st cid s flag mods,
          sd ++ sectionRowsFrom h st cid s flag mods,
          idt ++ itemRowsFrom h st cid s flag mods).
Proof.
  revert flag md sd idt. induction mods as [|m mods IH]; intros flag md sd idt.
  - exists flag. simpl. by rewrite !app_nil_r.
  - cbn [foldl]. unfold moduleStep at 2.
    set (mp := if flag then IN_PROGRESS else INCOMPLETE).
    destruct (sectionStep_fold h cid s mp sd idt (sectionsOf h m)) as [b' E].
    rewrite E.
    assert (bool_decide (mp = IN_PROGRESS) = flag) as ->.
    { unfold mp. by destruct flag. }
    fold (moduleFlag st cid s m).
    destruct (IH (moduleFlag st cid s m) (md ++ [mkEntityProgress s (moduleId m) cid mp])
                (sd ++ rowsFirst cid s flag (sectionId <$> sectionsOf h m))
                (idt ++ itemRowsOf h cid s flag (sectionsOf h m))) as [b ->].
    exists b. simpl. by rewrite <-!app_assoc.
Qed.

Lemma moduleRowsFrom_length st cid s flag mods :
  length (moduleRowsFrom st cid s flag mods) = length mods.
Proof. revert flag. induction mods; intros flag; simpl; [done|]. by rewrite IHmods. Qed.

Lemma sectionRowsFrom_length h st cid s flag mods :
  length (sectionRowsFrom h st cid s flag mods) = length (mods ≫= sectionsOf h).
Proof.
  revert flag. induction mods as [|m mods IH]; intros flag; csimpl; [done|].
  by rewrite !length_app, rowsFirst_length, length_fmap, IH.
Qed.

Lemma itemRowsOf_length h cid s flag secs :
  length (itemRowsOf h cid s flag secs) = length (secs ≫= itemsOf h).
Proof.
  destruct secs as [|sec secs]; csimpl; [done|].
  rewrite !length_app, rowsFirst_length, length_fmap. f_equal.
  induction secs as [|sec' secs IH]; csimpl; [done|].
  by rewrite !length_app, rowsFirst_length, length_fmap, IH.
Qed.

Lemma itemRowsFrom_length h st cid s flag mods :
  length (itemRowsFrom h st cid s flag mods)
  = length (mods ≫= λ m, sectionsOf h m ≫= itemsOf h).
Proof.
  revert flag. induction mods as [|m mods IH]; intros flag; csimpl; [done|].
  by rewrite !length_app, itemRowsOf_length, IH.
Qed.

Lemma studentStep_eq h st cd n ops s :
  studentStep h st cd (n, ops) s = (n + rowsPerStudent h cd, ops ++ studentOps h st cd s).
Proof.
  unfold studentStep.
  destruct (moduleStep_fold h st (courseInstanceId cd) s true [] [] [] (modulesOf h cd))
    as [b ->]. simpl.
  rewrite moduleRowsFrom_length, sectionRowsFrom_length, itemRowsFrom_length.
  unfold rowsPerStudent, studentOps, nextOps. f_equal; [lia|].
  by rewrite <-!app_assoc.
Qed.

Lemma studentStep_fold h st cd n ops ss :
  foldl (studentStep h st cd) (n, ops) ss
  = (n + length ss * rowsPerStudent h cd, ops ++ (ss ≫= studentOps h st cd)).
Proof.
  revert n ops. induction ss as [|s ss IH]; intros n ops.
  - simpl. f_equal; [lia|by rewrite app_nil_r].
  - cbn [foldl]. rewrite studentStep_eq, IH, bind_cons.
    f_equal; [cbn [length]; lia|by rewrite <-app_assoc].
Qed.

(** ** The transaction *)

Lemma runOp_is_Some op st : is_Some (runOp op st) ↔ opAccepted op.
Proof.
  destruct op as [| | | | |nd|nd|nd]; simpl; try (split; [done|by eexists]).
  - destruct (mn_sectionId nd); simpl; split; by eauto using is_Some_None.
  - destruct (sn_sectionItemId nd); simpl; split; by eauto using is_Some_None.
Qed.

Lemma transaction_is_Some ops st : is_Some (transaction ops st) ↔ Forall opAccepted ops.
Proof.
  revert st. induction ops as [|op ops IH]; intros st; simpl.
  - split; [by constructor|by eexists].
  - rewrite Forall_cons, <-(runOp_is_Some op st).
    destruct (runOp op st) as [st'|]; simpl.
    + rewrite IH. split; [by split; [eexists|]|by intros [_ ?]].
    + split; [by intros ?%is_Some_None|by intros [?%is_Some_None _]].
Qed.

Lemma runOp_tables op st st' :
  runOp op st = Some st' →
  totalProgress st' = applyTotalProgress (totalProgress st) op
  ∧ studentCourseProgress st' = applyCourseProgress (studentCourseProgress st) op
  ∧ studentModuleProgress st' = applyModuleProgress (studentModuleProgress st) op
  ∧ studentSectionProgress st' = applySectionProgress (studentSectionProgress st) op
  ∧ studentSectionItemProgress st'
    = applySectionItemProgress (studentSectionItemProgress st) op.
Proof.
  destruct op as [| | | | |nd|nd|nd]; simpl; intros Hrun; simplify_eq; try done.
  - destruct (mn_sectionId nd); simplify_eq/=. done.
  - destruct (sn_sectionItemId nd); simplify_eq/=. done.
Qed.

Lemma transaction_tables ops st st' :
  transaction ops st = Some st' →
  totalProgress st' = foldl applyTotalProgress (totalProgress st) ops
  ∧ studentCourseProgress st' = foldl applyCourseProgress (studentCourseProgress st) ops
  ∧ studentModuleProgress st' = foldl applyModuleProgress (studentModuleProgress st) ops
  ∧ studentSectionProgress st' = foldl applySectionProgress (studentSectionProgress st) ops
  ∧ studentSectionItemProgress st'
    = foldl applySectionItemProgress (studentSectionItemProgress st) ops.
Proof.
  revert st. induction ops as [|op ops IH]; intros st; simpl.
  - by intros [= ->].
  - destruct (runOp op st) as [st1|] eqn:E; simpl; [|done]. intros Htx.
    destruct (runOp_tables _ _ _ E) as (<- & <- & <- & <- & <-). by apply IH.
Qed.

(** The adjacency upserts touch no table of progress rows. *)
Lemma nextOps_tables h cd :
  (∀ t, foldl applyTotalProgress t (nextOps h cd) = t)
  ∧ (∀ t, foldl applyCourseProgress t (nextOps h cd) = t)
  ∧ (∀ t, foldl applyModuleProgress t (nextOps h cd) = t)
  ∧ (∀ t, foldl applySectionProgress t (nextOps h cd) = t)
  ∧ (∀ t, foldl applySectionItemProgress t (nextOps h cd) = t).
Proof.
  unfold nextOps.
  split_and!; intros t; rewrite !foldl_app;
    repeat match goal with
    | |- context [foldl ?f ?t (?g <$> ?l)] =>
        assert (foldl f t (g <$> l) = t) as -> by (by induction l)
    end; done.
Qed.

Lemma studentOps_tables h st cd s :
  let cid := courseInstanceId cd in
  (∀ t, foldl applyTotalProgress t (studentOps h st cd s)
        = upsert (s, cid)
            (λ r, mkTotalProgress (tp_studentId r) (tp_courseInstanceId r) 0)
            (mkTotalProgress s cid 0) t)
  ∧ (∀ t, foldl applyCourseProgress t (studentOps h st cd s)
          = upsert (s, cid) (λ r, r) (mkCourseProgress s cid IN_PROGRESS) t)
  ∧ (∀ t, foldl applyModuleProgress t (studentOps h st cd s)
          = createManySkipDuplicates (moduleRowsFrom st cid s true (modulesOf h cd)) t)
  ∧ (∀ t, foldl applySectionProgress t (studentOps h st cd s)
          = createManySkipDuplicates (sectionRowsFrom h st cid s true (modulesOf h cd)) t)
  ∧ (∀ t, foldl applySectionItemProgress t (studentOps h st cd s)
          = createManySkipDuplicates (itemRowsFrom h st cid s true (modulesOf h cd)) t).
Proof.
  destruct (nextOps_tables h cd) as (H1 & H2 & H3 & H4 & H5).
  unfold studentOps.
  split_and!; intros t; rewrite foldl_app; simpl; auto.
Qed.

Lemma foldl_bind {A B C : Type} (f : A → B → A) (g : C → list B) (a : A) (l : list C) :
  foldl f a (l ≫= g) = foldl (λ a x, foldl f a (g x)) a l.
Proof.
  revert a. induction l as [|x l IH]; intros a; [done|].
  by rewrite bind_cons, foldl_app, IH.
Qed.

(** The outcome of [initializeStudentProgress], in one piece. *)
Lemma initializeStudentProgress_eq cd h st :
  initializeStudentProgress cd h st
  = let h1 := (extractAllIds cd h).2 in
    match transaction (studentIds cd ≫= studentOps h1 st cd) st with
    | Some st' =>
        (Ok (mkInitResult (length (studentIds cd))
               (length (studentIds cd) * rowsPerStudent h1 cd)), h1, st')
    | None => (Throw FailedToInitialize, h1, st)
    end.
Proof.
  unfold initializeStudentProgress.
  destruct (extractAllIds cd h) as [ids h1]. simpl.
  by rewrite studentStep_fold.
Qed.

(** ** C9: the count returned *)

Lemma length_bind_ext {A B C : Type} (f : A → list B) (g : A → list C) (l : list A) :
  (∀ x, x ∈ l → length (f x) = length (g x)) → length (l ≫= f) = length (l ≫= g).
Proof.
  induction l as [|x l IH]; intros Hfg; [done|].
  rewrite !bind_cons, !length_app, Hfg, IH; [done| |left].
  intros y ?. apply Hfg. by right.
Qed.

(** Sorting in place does not change the number of rows. *)
Lemma rowsPerStudent_extractAllIds cd h :
  rowsPerStudent (extractAllIds cd h).2 cd = rowsPerStudent h cd.
Proof.
  unfold rowsPerStudent. rewrite extractAllIds_modulesOf. do 2 f_equal.
  - f_equal. apply length_bind_ext. intros m Hm.
    by rewrite extractAllIds_sectionsOf, sortBySequence_length.
  - apply length_bind_ext. intros m Hm.
    rewrite extractAllIds_sectionsOf by done.
    transitivity (length (sortBySequence (sectionsOf h m) ≫= itemsOf h)).
    + apply length_bind_ext. intros s Hs. rewrite elem_of_sortBySequence in Hs.
      by rewrite (extractAllIds_itemsOf cd h m s), sortBySequence_length.
    + by rewrite sortBySequence_perm.
Qed.

(** Whether the transaction is accepted does not depend on the database. *)
Lemma studentOps_accepted h st cd s :
  Forall opAccepted (studentOps h st cd s) ↔ Forall opAccepted (nextOps h cd).
Proof.
  unfold studentOps. rewrite Forall_app. split; [by intros [_ ?]|].
  intros ?. split; [|done]. by repeat constructor.
Qed.

Lemma students_accepted h st st' cd ss :
  Forall opAccepted (ss ≫= studentOps h st cd) →
  Forall opAccepted (ss ≫= studentOps h st' cd).
Proof.
  rewrite !Forall_bind. intros Hall. eapply Forall_impl; [exact Hall|].
  intros s. simpl. by rewrite !studentOps_accepted.
Qed.

(** The call never fails in another way than by the transaction being
    refused, which depends on the curriculum only; it then leaves the
    database as it was. *)
Lemma initializeStudentProgress_outcome cd h st :
  let h1 := (extractAllIds cd h).2 in
  (Forall opAccepted (studentIds cd ≫= studentOps h1 st cd) ∧
   ∃ st', initializeStudentProgress cd h st
          = (Ok (mkInitResult (length (studentIds cd))
                   (length (studentIds cd) * rowsPerStudent h cd)), h1, st'))
  ∨ (¬ Forall opAccepted (studentIds cd ≫= studentOps h1 st cd) ∧
     initializeStudentProgress cd h st = (Throw FailedToInitialize, h1, st)).
Proof.
  intros h1. rewrite initializeStudentProgress_eq. cbv zeta. fold h1.
  pose proof (transaction_is_Some (studentIds cd ≫= studentOps h1 st cd) st) as Htx.
  destruct (transaction (studentIds cd ≫= studentOps h1 st cd) st) as [st'|].
  - left. split; [apply (proj1 Htx); eauto|]. exists st'.
    unfold h1. by rewrite rowsPerStudent_extractAllIds.
  - right. split; [|done]. intros Hacc. apply (proj2 Htx) in Hacc. by destruct Hacc.
Qed.

(** C9.  When the call returns, [studentCount] is the number of student IDs
    and [totalRecords] is that number times one (the course row) plus the
    numbers of modules, sections and section items of the curriculum, as the
    arrays hold them: the database is not part of the count.  A second call
    over the database the first one left returns, with the same count. *)
Theorem totalRecords_counts_prepared_rows cd h st r h1 st1 :
  initializeStudentProgress cd h st = (Ok r, h1, st1) →
  studentCount r = length (studentIds cd)
  ∧ totalRecords r
    = length (studentIds cd)
      * (1 + (length (modulesOf h cd)
              + length (modulesOf h cd ≫= sectionsOf h)
              + length (modulesOf h cd ≫= λ m, sectionsOf h m ≫= itemsOf h)))
  ∧ ∃ r2 st2, initializeStudentProgress cd h1 st1 = (Ok r2, h1, st2)
              ∧ totalRecords r2 = totalRecords r.
Proof.
  intros Hrun.
  destruct (initializeStudentProgress_outcome cd h st) as [[Hacc [st' E]]|[_ E]];
    rewrite E in Hrun; [|done].
  injection Hrun as <- <- <-. split_and!; [done|done|].
  set (h1 := (extractAllIds cd h).2) in *.
  destruct (initializeStudentProgress_outcome cd h1 st') as [[_ [st2 E2]]|[Hrej _]].
  - unfold h1 at 3 in E2. rewrite extractAllIds_heap_idemp in E2. fold h1 in E2.
    eexists _, st2. split; [exact E2|]. simpl.
    unfold h1. by rewrite rowsPerStudent_extractAllIds.
  - destruct Hrej. unfold h1 at 1. rewrite extractAllIds_heap_idemp. fold h1.
    by eapply students_accepted.
Qed.

(** C9 on the sample: two students, 1 + 2 + 4 + 8 rows each. *)
Lemma totalRecords_sample :
  studentCount (mkInitResult 2 30) = length (studentIds sampleCourse)
  ∧ totalRecords (mkInitResult 2 30)
    = length (studentIds sampleCourse)
      * (1 + (length (modulesOf sampleHeap sampleCourse)
              + length (modulesOf sampleHeap sampleCourse ≫= sectionsOf sampleHeap)
              + length (modulesOf sampleHeap sampleCourse
                          ≫= λ m, sectionsOf sampleHeap m ≫= itemsOf sampleHeap)))
  ∧ ∃ r2 st2,
      initializeStudentProgress sampleCourse
        (initializeStudentProgress sampleCourse sampleHeap emptyStore).1.2
        (initializeStudentProgress sampleCourse sampleHeap emptyStore).2
      = (Ok r2, (initializeStudentProgress sampleCourse sampleHeap emptyStore).1.2, st2)
      ∧ totalRecords r2 = totalRecords (mkInitResult 2 30).
Proof.
  apply (totalRecords_counts_prepared_rows sampleCourse sampleHeap emptyStore).
  vm_compute. reflexivity.
Defined.

(** ** The tables after [initializeStudentProgress] *)

Lemma foldl_bind_ext {A B C : Type} (f : A → B → A) (f' : A → C → A)
    (g : C → list B) (a : A) (l : list C) :
  (∀ a x, foldl f a (g x) = f' a x) → foldl f a (l ≫= g) = foldl f' a l.
Proof.
  intros Hf. rewrite foldl_bind. revert a.
  induction l as [|x l IH]; intros a; simpl; [done|]. by rewrite Hf, IH.
Qed.

(** Each table of progress rows after a call that returned: the students are
    gone through in order; the rows of a student are those the loops
    prepared from the database as it was before the call. *)
Lemma initializeStudentProgress_tables cd h st r h1 st1 :
  initializeStudentProgress cd h st = (Ok r, h1, st1) →
  let cid := courseInstanceId cd in
  h1 = (extractAllIds cd h).2
  ∧ Forall opAccepted (studentIds cd ≫= studentOps h1 st cd)
  ∧ totalProgress st1
    = foldl (λ t s, upsert (s, cid)
                      (λ r, mkTotalProgress (tp_studentId r) (tp_courseInstanceId r) 0)
                      (mkTotalProgress s cid 0) t)
        (totalProgress st) (studentIds cd)
  ∧ studentCourseProgress st1
    = foldl (λ t s, upsert (s, cid) (λ r, r) (mkCourseProgress s cid IN_PROGRESS) t)
        (studentCourseProgress st) (studentIds cd)
  ∧ studentModuleProgress st1
    = foldl (λ t s, createManySkipDuplicates
                      (moduleRowsFrom st cid s true (modulesOf h1 cd)) t)
        (studentModuleProgress st) (studentIds cd)
  ∧ studentSectionProgress st1
    = foldl (λ t s, createManySkipDuplicates
                      (sectionRowsFrom h1 st cid s true (modulesOf h1 cd)) t)
        (studentSectionProgress st) (studentIds cd)
  ∧ studentSectionItemProgress st1
    = foldl (λ t s, createManySkipDuplicates
                      (itemRowsFrom h1 st cid s true (modulesOf h1 cd)) t)
        (studentSectionItemProgress st) (studentIds cd).
Proof.
  rewrite initializeStudentProgress_eq. cbv zeta.
  set (h' := (extractAllIds cd h).2).
  destruct (transaction (studentIds cd ≫= studentOps h' st cd) st) as [st'|] eqn:Htx;
    [|done].
  intros [= <- <- <-].
  split; [done|].
  split; [apply (proj1 (transaction_is_Some _ st)); by rewrite Htx|].
  destruct (transaction_tables _ _ _ Htx) as (-> & -> & -> & -> & ->).
  split_and!; apply foldl_bind_ext; intros t s; apply studentOps_tables.
Qed.

Section StudentFolds.
Context {R K : Type} `{Keyed R K} `{EqDecision K}.
Variable data : string → list R.
Implicit Types (t : list R) (ss : list string).

(** Rows are only appended, and only rows prepared for one of the students. *)
Lemma foldl_createMany_appends ss t :
  ∃ added, foldl (λ t s, createManySkipDuplicates (data s) t) t ss = t ++ added
    ∧ ∀ r, r ∈ added → ∃ s, s ∈ ss ∧ r ∈ data s.
Proof.
  revert t. induction ss as [|s ss IH]; intros t; simpl.
  - exists []. split; [by rewrite app_nil_r|]. by intros ? ?%elem_of_nil.
  - destruct (createManySkipDuplicates_appends (data s) t) as (a1 & -> & Ha1).
    destruct (IH (t ++ a1)) as (a2 & -> & Ha2).
    exists (a1 ++ a2). split; [by rewrite app_assoc|].
    intros r [Hr|Hr]%elem_of_app.
    + exists s. split; [left|]. by destruct (Ha1 r Hr).
    + destruct (Ha2 r Hr) as (s' & ? & ?). exists s'. split; [by right|done].
Qed.

Lemma foldl_createMany_NoDup ss t :
  NoDup (keyOf <$> t : list K) →
  NoDup (keyOf <$> foldl (λ t s, createManySkipDuplicates (data s) t) t ss : list K).
Proof.
  revert t. induction ss as [|s ss IH]; intros t Ht; simpl; [done|].
  by apply IH, createManySkipDuplicates_NoDup.
Qed.

Lemma foldl_createMany_keeps ss t k :
  is_Some (findUnique k t) →
  is_Some (findUnique k (foldl (λ t s, createManySkipDuplicates (data s) t) t ss)).
Proof.
  intros [r Hr]. destruct (foldl_createMany_appends ss t) as (added & -> & _).
  rewrite findUnique_app, Hr. by eexists.
Qed.

(** Afterwards the table holds every key prepared for a student of the list. *)
Lemma foldl_createMany_present ss t s r :
  s ∈ ss → r ∈ data s →
  is_Some (findUnique (keyOf r)
             (foldl (λ t s, createManySkipDuplicates (data s) t) t ss)).
Proof.
  revert t. induction ss as [|s' ss IH]; intros t; [by intros ?%elem_of_nil|].
  intros [->|Hin]%elem_of_cons Hr; simpl; [|by apply IH].
  by apply foldl_createMany_keeps, createManySkipDuplicates_present.
Qed.

(** When the table holds every key prepared, nothing is inserted. *)
Lemma foldl_createMany_fixed ss t :
  (∀ s r, s ∈ ss → r ∈ data s → is_Some (findUnique (keyOf r) t)) →
  foldl (λ t s, createManySkipDuplicates (data s) t) t ss = t.
Proof.
  induction ss as [|s ss IH]; intros Hall; simpl; [done|].
  rewrite createManySkipDuplicates_all_present.
  - apply IH. intros s' r ? ?. apply (Hall s'); [by right|done].
  - intros r ?. apply (Hall s); [left|done].
Qed.

End StudentFolds.

(** The keys prepared do not depend on the database. *)
Lemma rowsFirst_keys cid s b b' ids :
  (keyOf <$> rowsFirst cid s b ids : list (string * string * string))
  = keyOf <$> rowsFirst cid s b' ids.
Proof. by destruct ids. Qed.

Lemma itemRowsOf_keys h cid s b b' secs :
  (keyOf <$> itemRowsOf h cid s b secs : list (string * string * string))
  = keyOf <$> itemRowsOf h cid s b' secs.
Proof.
  destruct secs as [|sec secs]; simpl; [done|].
  by rewrite !fmap_app, (rowsFirst_keys _ _ b b').
Qed.

Lemma moduleRowsFrom_keys st st' cid s b b' mods :
  (keyOf <$> moduleRowsFrom st cid s b mods : list (string * string * string))
  = keyOf <$> moduleRowsFrom st' cid s b' mods.
Proof.
  revert b b'. induction mods as [|m mods IH]; intros b b'; simpl; [done|].
  f_equal. apply IH.
Qed.

Lemma sectionRowsFrom_keys h st st' cid s b b' mods :
  (keyOf <$> sectionRowsFrom h st cid s b mods : list (string * string * string))
  = keyOf <$> sectionRowsFrom h st' cid s b' mods.
Proof.
  revert b b'. induction mods as [|m mods IH]; intros b b'; simpl; [done|].
  rewrite !fmap_app, (rowsFirst_keys _ _ b b'). f_equal. apply IH.
Qed.

Lemma itemRowsFrom_keys h st st' cid s b b' mods :
  (keyOf <$> itemRowsFrom h st cid s b mods : list (string * string * string))
  = keyOf <$> itemRowsFrom h st' cid s b' mods.
Proof.
  revert b b'. induction mods as [|m mods IH]; intros b b'; simpl; [done|].
  rewrite !fmap_app, (itemRowsOf_keys _ _ _ b b'). f_equal. apply IH.
Qed.

(** A key prepared from one database is prepared from any other. *)
Lemma same_keys_present {R K : Type} `{Keyed R K} `{EqDecision K}
    (d1 d2 : list R) (t : list R) :
  (keyOf <$> d1 : list K) = keyOf <$> d2 →
  (∀ r, r ∈ d1 → is_Some (findUnique (keyOf r) t)) →
  ∀ r, r ∈ d2 → is_Some (findUnique (keyOf r) t).
Proof.
  intros Hk Hall r Hr.
  assert (keyOf r ∈ (keyOf <$> d1 : list K)) as (r1 & -> & Hr1)%list_elem_of_fmap.
  { rewrite Hk. by apply list_elem_of_fmap_2. }
  by apply Hall.
Qed.

(** The course rows: [upsert] with an empty [update]. *)
Section CourseFold.
Variable cid : string.
Implicit Types (t : list StudentCourseProgressRow) (ss : list string).

Lemma upsertCourseRows_appends ss t :
  ∃ added, upsertCourseRows cid t ss = t ++ added
    ∧ ∀ r, r ∈ added →
        scp_progress r = IN_PROGRESS ∧ findUnique (keyOf r : string * string) t = None.
Proof.
  revert t. induction ss as [|s ss IH]; intros t; simpl.
  - exists []. split; [by rewrite app_nil_r|]. by intros ? ?%elem_of_nil.
  - destruct (findUnique (s, cid) t) as [r0|] eqn:E.
    + rewrite upsert_no_update by (by rewrite E). apply IH.
    + rewrite upsert_absent by done.
      destruct (IH (t ++ [mkCourseProgress s cid IN_PROGRESS])) as (a & -> & Ha).
      exists (mkCourseProgress s cid IN_PROGRESS :: a).
      split; [by rewrite <-app_assoc|].
      intros r [->|Hr]%elem_of_cons; [done|].
      destruct (Ha r Hr) as [? Hnone]. split; [done|].
      rewrite findUnique_app in Hnone. by destruct (findUnique (keyOf r) t).
Qed.

Lemma upsertCourseRows_NoDup ss t :
  NoDup (keyOf <$> t : list (string * string)) →
  NoDup (keyOf <$> upsertCourseRows cid t ss : list (string * string)).
Proof.
  revert t. induction ss as [|s ss IH]; intros t Ht; simpl; [done|].
  by apply IH, upsert_NoDup.
Qed.

Lemma upsertCourseRows_keeps ss t k :
  is_Some (findUnique k t) → is_Some (findUnique k (upsertCourseRows cid t ss)).
Proof.
  intros [r Hr]. destruct (upsertCourseRows_appends ss t) as (added & -> & _).
  rewrite findUnique_app, Hr. by eexists.
Qed.

Lemma upsertCourseRows_present ss t s :
  s ∈ ss → is_Some (findUnique (s, cid) (upsertCourseRows cid t ss)).
Proof.
  revert t. induction ss as [|s' ss IH]; intros t; [by intros ?%elem_of_nil|].
  intros [->|Hin]%elem_of_cons; simpl; [|by apply IH].
  apply upsertCourseRows_keeps. rewrite findUnique_upsert by done. by eexists.
Qed.

Lemma upsertCourseRows_fixed ss t :
  (∀ s, s ∈ ss → is_Some (findUnique (s, cid) t)) → upsertCourseRows cid t ss = t.
Proof.
  induction ss as [|s ss IH]; intros Hall; simpl; [done|].
  rewrite upsert_no_update by (apply Hall; left).
  apply IH. intros s' ?. apply Hall. by right.
Qed.

End CourseFold.

(** [TotalProgress]: every upsert writes 0. *)
Section TotalFold.
Variable cid : string.
Implicit Types (t : list TotalProgressRow) (ss : list string).

Lemma upsertTotalRows_keeps_zero ss t s r :
  findUnique (s, cid) t = Some r → tp_progress r = 0%Z →
  ∃ r', findUnique (s, cid) (upsertTotalRows cid t ss) = Some r' ∧ tp_progress r' = 0%Z.
Proof.
  revert t r. induction ss as [|s' ss IH]; intros t r Hr Hz; simpl; [by eauto|].
  destruct (decide (s' = s)) as [->|Hne].
  - eapply IH; [by apply findUnique_upsert|]. by rewrite Hr.
  - eapply IH; [|exact Hz]. rewrite findUnique_upsert_ne; [done..|congruence].
Qed.

Lemma upsertTotalRows_zero ss t s :
  s ∈ ss →
  ∃ r, findUnique (s, cid) (upsertTotalRows cid t ss) = Some r ∧ tp_progress r = 0%Z.
Proof.
  revert t. induction ss as [|s' ss IH]; intros t; [by intros ?%elem_of_nil|].
  intros Hin. destruct (decide (s' = s)) as [->|Hne].
  - simpl. eapply upsertTotalRows_keeps_zero; [by apply findUnique_upsert|].
    by destruct (findUnique (s, cid) t).
  - apply elem_of_cons in Hin as [->|Hin]; [done|]. by apply IH.
Qed.

End TotalFold.

(** ** C6: running the initialisation again *)

(** Any run inserts and never overwrites: each table of progress rows
    afterwards is the table before followed by the rows inserted, and a table
    without duplicate keys stays so. *)
Lemma initialization_only_appends cd h st r h1 st1 :
  initializeStudentProgress cd h st = (Ok r, h1, st1) →
  (∃ added, studentCourseProgress st1 = studentCourseProgress st ++ added)
  ∧ (∃ added, studentModuleProgress st1 = studentModuleProgress st ++ added)
  ∧ (∃ added, studentSectionProgress st1 = studentSectionProgress st ++ added)
  ∧ (∃ added, studentSectionItemProgress st1 = studentSectionItemProgress st ++ added)
  ∧ (NoDup (keyOf <$> studentCourseProgress st : list (string * string)) →
     NoDup (keyOf <$> studentCourseProgress st1 : list (string * string)))
  ∧ (NoDup (keyOf <$> studentModuleProgress st : list (string * string * string)) →
     NoDup (keyOf <$> studentModuleProgress st1 : list (string * string * string)))
  ∧ (NoDup (keyOf <$> studentSectionProgress st : list (string * string * string)) →
     NoDup (keyOf <$> studentSectionProgress st1 : list (string * string * string)))
  ∧ (NoDup (keyOf <$> studentSectionItemProgress st : list (string * string * string)) →
     NoDup (keyOf <$> studentSectionItemProgress st1 : list (string * string * string))).
Proof.
  intros Hrun.
  destruct (initializeStudentProgress_tables _ _ _ _ _ _ Hrun)
    as (_ & _ & _ & -> & -> & -> & ->).
  split_and!.
  - destruct (upsertCourseRows_appends (courseInstanceId cd) (studentIds cd)
                (studentCourseProgress st)) as (a & E & _). by exists a.
  - destruct (foldl_createMany_appends
                (λ s, moduleRowsFrom st (courseInstanceId cd) s true (modulesOf h1 cd))
                (studentIds cd) (studentModuleProgress st)) as (a & E & _). by exists a.
  - destruct (foldl_createMany_appends
                (λ s, sectionRowsFrom h1 st (courseInstanceId cd) s true (modulesOf h1 cd))
                (studentIds cd) (studentSectionProgress st)) as (a & E & _). by exists a.
  - destruct (foldl_createMany_appends
                (λ s, itemRowsFrom h1 st (courseInstanceId cd) s true (modulesOf h1 cd))
                (studentIds cd) (studentSectionItemProgress st)) as (a & E & _). by exists a.
  - apply upsertCourseRows_NoDup.
  - apply (foldl_createMany_NoDup
             (λ s, moduleRowsFrom st (courseInstanceId cd) s true (modulesOf h1 cd))).
  - apply (foldl_createMany_NoDup
             (λ s, sectionRowsFrom h1 st (courseInstanceId cd) s true (modulesOf h1 cd))).
  - apply (foldl_createMany_NoDup
             (λ s, itemRowsFrom h1 st (courseInstanceId cd) s true (modulesOf h1 cd))).
Qed.

(** C6.  Let a first run have returned, leaving the heap [h1] and the
    database [st1], and let the second run start from a database [st1'] that
    holds at least the keys of the progress rows of [st1]; statuses and
    [TotalProgress] may have changed in between.  The second run returns; the
    course, module, section and item tables are as in [st1']: no row is
    inserted and no status, the course row's included, is overwritten; and the
    [TotalProgress] of every listed student is 0. *)
Theorem reinitialization_keeps_rows cd h st r h1 st1 st1' :
  initializeStudentProgress cd h st = (Ok r, h1, st1) →
  (keyOf <$> studentCourseProgress st1 : list (string * string))
    ⊆ keyOf <$> studentCourseProgress st1' →
  (keyOf <$> studentModuleProgress st1 : list (string * string * string))
    ⊆ keyOf <$> studentModuleProgress st1' →
  (keyOf <$> studentSectionProgress st1 : list (string * string * string))
    ⊆ keyOf <$> studentSectionProgress st1' →
  (keyOf <$> studentSectionItemProgress st1 : list (string * string * string))
    ⊆ keyOf <$> studentSectionItemProgress st1' →
  ∃ r2 st2,
    initializeStudentProgress cd h1 st1' = (Ok r2, h1, st2)
    ∧ studentCourseProgress st2 = studentCourseProgress st1'
    ∧ studentModuleProgress st2 = studentModuleProgress st1'
    ∧ studentSectionProgress st2 = studentSectionProgress st1'
    ∧ studentSectionItemProgress st2 = studentSectionItemProgress st1'
    ∧ ∀ s, s ∈ studentIds cd →
        ∃ tp, findUnique (s, courseInstanceId cd) (totalProgress st2) = Some tp
              ∧ tp_progress tp = 0%Z.
Proof.
  intros Hrun Hc Hm Hs Hi.
  destruct (initializeStudentProgress_tables _ _ _ _ _ _ Hrun)
    as (Hh1 & Hacc & _ & Ec & Em & Es & Ei).
  assert (Hidem : (extractAllIds cd h1).2 = h1).
  { rewrite Hh1. apply extractAllIds_heap_idemp. }
  destruct (initializeStudentProgress_outcome cd h1 st1')
    as [[_ [st2 E2]]|[Hrej _]]; rewrite Hidem in *.
  2:{ destruct Hrej. by eapply students_accepted. }
  eexists _, st2. split; [exact E2|].
  destruct (initializeStudentProgress_tables _ _ _ _ _ _ E2)
    as (_ & _ & -> & -> & -> & -> & ->).
  split_and!.
  - apply upsertCourseRows_fixed. intros s Hin.
    apply findUnique_is_Some, Hc, findUnique_is_Some.
    rewrite Ec. by apply upsertCourseRows_present.
  - apply (foldl_createMany_fixed
             (λ s, moduleRowsFrom st1' (courseInstanceId cd) s true (modulesOf h1 cd))).
    intros s r' Hin Hr'. apply findUnique_is_Some, Hm, findUnique_is_Some.
    revert r' Hr'.
    apply (same_keys_present
             (moduleRowsFrom st (courseInstanceId cd) s true (modulesOf h1 cd)));
      [apply moduleRowsFrom_keys|].
    intros r' Hr'. rewrite Em.
    by apply (foldl_createMany_present
                (λ s, moduleRowsFrom st (courseInstanceId cd) s true (modulesOf h1 cd))
                _ _ s).
  - apply (foldl_createMany_fixed
             (λ s, sectionRowsFrom h1 st1' (courseInstanceId cd) s true (modulesOf h1 cd))).
    intros s r' Hin Hr'. apply findUnique_is_Some, Hs, findUnique_is_Some.
    revert r' Hr'.
    apply (same_keys_present
             (sectionRowsFrom h1 st (courseInstanceId cd) s true (modulesOf h1 cd)));
      [apply sectionRowsFrom_keys|].
    intros r' Hr'. rewrite Es.
    by apply (foldl_createMany_present
                (λ s, sectionRowsFrom h1 st (courseInstanceId cd) s true (modulesOf h1 cd))
                _ _ s).
  - apply (foldl_createMany_fixed
             (λ s, itemRowsFrom h1 st1' (courseInstanceId cd) s true (modulesOf h1 cd))).
    intros s r' Hin Hr'. apply findUnique_is_Some, Hi, findUnique_is_Some.
    revert r' Hr'.
    apply (same_keys_present
             (itemRowsFrom h1 st (courseInstanceId cd) s true (modulesOf h1 cd)));
      [apply itemRowsFrom_keys|].
    intros r' Hr'. rewrite Ei.
    by apply (foldl_createMany_present
                (λ s, itemRowsFrom h1 st (courseInstanceId cd) s true (modulesOf h1 cd))
                _ _ s).
  - intros s Hin. by apply upsertTotalRows_zero.
Qed.

(** C6 on the sample. *)
Lemma reinitialization_sample :
  let h1 := (initializeStudentProgress sampleCourse orderedHeap emptyStore).1.2 in
  ∃ r2 st2,
    initializeStudentProgress sampleCourse h1 progressedStore = (Ok r2, h1, st2)
    ∧ studentCourseProgress st2 = studentCourseProgress progressedStore
    ∧ studentModuleProgress st2 = studentModuleProgress progressedStore
    ∧ studentSectionProgress st2 = studentSectionProgress progressedStore
    ∧ studentSectionItemProgress st2 = studentSectionItemProgress progressedStore
    ∧ ∀ s, s ∈ studentIds sampleCourse →
        ∃ tp, findUnique (s, courseInstanceId sampleCourse) (totalProgress st2) = Some tp
              ∧ tp_progress tp = 0%Z.
Proof.
  intros h1.
  apply (reinitialization_keeps_rows sampleCourse orderedHeap emptyStore
           (mkInitResult 2 30) h1 initializedStore progressedStore).
  - vm_compute. reflexivity.
  - replace (keyOf <$> studentCourseProgress progressedStore : list (string * string))
      with (keyOf <$> studentCourseProgress initializedStore : list (string * string))
      by (vm_compute; reflexivity).
    done.
  - replace (keyOf <$> studentModuleProgress progressedStore
               : list (string * string * string))
      with (keyOf <$> studentModuleProgress initializedStore
               : list (string * string * string))
      by (vm_compute; reflexivity).
    done.
  - replace (keyOf <$> studentSectionProgress progressedStore
               : list (string * string * string))
      with (keyOf <$> studentSectionProgress initializedStore
               : list (string * string * string))
      by (vm_compute; reflexivity).
    done.
  - replace (keyOf <$> studentSectionItemProgress progressedStore
               : list (string * string * string))
      with (keyOf <$> studentSectionItemProgress initializedStore
               : list (string * string * string))
      by (vm_compute; reflexivity).
    done.
Defined.

(** ** C3: the rows of a student who had none *)

Lemma filter_none {A : Type} (P : A → Prop) `{∀ x, Decision (P x)} (l : list A) :
  (∀ x, x ∈ l → ¬ P x) → filter P l = [].
Proof.
  induction l as [|x l IH]; intros Hl; [done|].
  rewrite filter_cons_False by (apply Hl; left).
  apply IH. intros y ?. apply Hl. by right.
Qed.

Lemma rowsOf_findUnique_None s cid t id :
  rowsOf s cid t = [] → findUnique (s, id, cid) t = None.
Proof.
  intros Hnone. apply findUnique_None. intros r Hr Hk.
  eapply (filter_nil_not_elem_of _ _ r Hnone); [|done].
  unfold keyOf, entity_keyed in Hk. by simplify_eq.
Qed.

Section FirstRow.
Variables (cid s : string).
Variable data : string → list EntityProgressRow.
Hypothesis data_owner :
  ∀ s' r, r ∈ data s' → ep_studentId r = s' ∧ ep_courseInstanceId r = cid.
Variables (x : EntityProgressRow) (rest : list EntityProgressRow).
Hypothesis data_s : data s = x :: rest.
Hypothesis rest_incomplete : Forall (λ r, ep_progress r = INCOMPLETE) rest.

(** Once the first row of the student is in the table, whatever is inserted
    for the student later is INCOMPLETE. *)
Lemma first_row_kept ss t others :
  rowsOf s cid t = x :: others →
  Forall (λ r, ep_progress r = INCOMPLETE) others →
  ∃ others',
    rowsOf s cid (foldl (λ t s', createManySkipDuplicates (data s') t) t ss)
    = x :: others'
    ∧ Forall (λ r, ep_progress r = INCOMPLETE) others'.
Proof.
  revert t others. induction ss as [|s' ss IH]; intros t others Ht Ho; simpl.
  - by exists others.
  - destruct (createManySkipDuplicates_appends (data s') t) as (added & -> & Hadded).
    apply (IH _ (others ++ rowsOf s cid added)).
    + unfold rowsOf in *. by rewrite filter_app, Ht.
    + apply Forall_app. split; [done|]. apply Forall_forall. intros r Hr.
      apply list_elem_of_filter in Hr as [[Hs _] Hr].
      destruct (Hadded r Hr) as [Hdata Hnone].
      destruct (data_owner s' r Hdata) as [Hs' _].
      assert (s' = s) as -> by congruence.
      rewrite data_s in Hdata. apply elem_of_cons in Hdata as [->|Hrest].
      * exfalso. apply (proj1 (findUnique_None _ _) Hnone x); [|done].
        assert (x ∈ rowsOf s cid t) as Hx by (rewrite Ht; left).
        by apply list_elem_of_filter in Hx as [_ ?].
      * by apply (proj1 (Forall_forall _ _) rest_incomplete).
Qed.

(** A student without rows gets the first row first. *)
Lemma first_row_inserted ss t :
  rowsOf s cid t = [] → s ∈ ss →
  ∃ others,
    rowsOf s cid (foldl (λ t s', createManySkipDuplicates (data s') t) t ss)
    = x :: others
    ∧ Forall (λ r, ep_progress r = INCOMPLETE) others.
Proof.
  assert (Hx : ep_studentId x = s ∧ ep_courseInstanceId x = cid).
  { apply data_owner. rewrite data_s. left. }
  revert t. induction ss as [|s' ss IH]; intros t Ht; [by intros ?%elem_of_nil|].
  intros Hin. simpl. destruct (decide (s' = s)) as [->|Hne].
  - rewrite data_s, createManySkipDuplicates_cons.
    assert (findUnique (keyOf x) t = None) as ->.
    { destruct Hx as [<- <-]. by apply rowsOf_findUnique_None. }
    destruct (createManySkipDuplicates_appends rest (t ++ [x])) as (added & -> & Hadded).
    apply (first_row_kept _ _ (rowsOf s cid added)).
    + unfold rowsOf in *. rewrite !filter_app, Ht, filter_singleton_True by done. done.
    + apply Forall_forall. intros r Hr.
      apply list_elem_of_filter in Hr as [_ Hr].
      destruct (Hadded r Hr) as [Hrest _].
      by apply (proj1 (Forall_forall _ _) rest_incomplete).
  - apply elem_of_cons in Hin as [->|Hin]; [done|].
    destruct (createManySkipDuplicates_appends (data s') t) as (added & -> & Hadded).
    apply IH; [|done]. unfold rowsOf in *. rewrite filter_app, Ht. simpl.
    apply filter_none. intros r Hr [Hs _].
    destruct (Hadded r Hr) as [Hdata _].
    destruct (data_owner s' r Hdata) as [Hs' _]. congruence.
Qed.

End FirstRow.

Section CourseRow.
Variables (cid s : string).

Lemma course_row_kept ss t :
  courseRowsOf s cid t = [mkCourseProgress s cid IN_PROGRESS] →
  courseRowsOf s cid (upsertCourseRows cid t ss) = [mkCourseProgress s cid IN_PROGRESS].
Proof.
  intros Ht. destruct (upsertCourseRows_appends cid ss t) as (added & -> & Hadded).
  unfold courseRowsOf in *. rewrite filter_app, Ht.
  rewrite filter_none; [done|]. intros r Hr [Hs Hc].
  destruct (Hadded r Hr) as [_ Hnone].
  apply (proj1 (findUnique_None _ _) Hnone (mkCourseProgress s cid IN_PROGRESS)).
  - assert (mkCourseProgress s cid IN_PROGRESS
            ∈ filter (λ r, scp_studentId r = s ∧ scp_courseInstanceId r = cid) t) as Hx
      by (rewrite Ht; left).
    by apply list_elem_of_filter in Hx as [_ ?].
  - unfold keyOf, course_keyed. simpl. by rewrite Hs, Hc.
Qed.

Lemma course_row_inserted ss t :
  courseRowsOf s cid t = [] → s ∈ ss →
  courseRowsOf s cid (upsertCourseRows cid t ss) = [mkCourseProgress s cid IN_PROGRESS].
Proof.
  revert t. induction ss as [|s' ss IH]; intros t Ht; [by intros ?%elem_of_nil|].
  intros Hin. simpl. destruct (decide (s' = s)) as [->|Hne].
  - rewrite upsert_absent.
    + apply course_row_kept. unfold courseRowsOf in *.
      by rewrite filter_app, Ht, filter_singleton_True.
    + apply findUnique_None. intros r Hr Hk.
      eapply (filter_nil_not_elem_of _ _ r Ht); [|done].
      unfold keyOf, course_keyed in Hk. by simplify_eq.
  - apply elem_of_cons in Hin as [->|Hin]; [done|].
    apply IH; [|done]. unfold upsert.
    destruct (findUnique (s', cid) t) eqn:E.
    + erewrite list_fmap_ext; [by rewrite list_fmap_id|].
      intros ? r _. simpl. by case_decide.
    + unfold courseRowsOf in *. rewrite filter_app, Ht. simpl.
      apply filter_singleton_False; [exact []|]. simpl. by intros [? _].
Qed.

End CourseRow.

(** The rows prepared for a student belong to the student. *)
Lemma rowsFirst_owner cid s b ids r :
  r ∈ rowsFirst cid s b ids → ep_studentId r = s ∧ ep_courseInstanceId r = cid.
Proof.
  destruct ids as [|x xs]; simpl; [by intros ?%elem_of_nil|].
  intros [->|(y & -> & _)%list_elem_of_fmap]%elem_of_cons; done.
Qed.

Lemma itemRowsOf_owner h cid s b secs r :
  r ∈ itemRowsOf h cid s b secs → ep_studentId r = s ∧ ep_courseInstanceId r = cid.
Proof.
  destruct secs as [|sec secs]; simpl; [by intros ?%elem_of_nil|].
  intros [Hr|(sec' & Hr & _)%list_elem_of_bind]%elem_of_app;
    by eapply rowsFirst_owner.
Qed.

Lemma moduleRowsFrom_owner st cid s b mods r :
  r ∈ moduleRowsFrom st cid s b mods → ep_studentId r = s ∧ ep_courseInstanceId r = cid.
Proof.
  revert b. induction mods as [|m mods IH]; intros b; simpl; [by intros ?%elem_of_nil|].
  intros [->|Hr]%elem_of_cons; [done|by eapply IH].
Qed.

Lemma sectionRowsFrom_owner h st cid s b mods r :
  r ∈ sectionRowsFrom h st cid s b mods →
  ep_studentId r = s ∧ ep_courseInstanceId r = cid.
Proof.
  revert b. induction mods as [|m mods IH]; intros b; simpl; [by intros ?%elem_of_nil|].
  intros [Hr|Hr]%elem_of_app; [by eapply rowsFirst_owner|by eapply IH].
Qed.

Lemma itemRowsFrom_owner h st cid s b mods r :
  r ∈ itemRowsFrom h st cid s b mods → ep_studentId r = s ∧ ep_courseInstanceId r = cid.
Proof.
  revert b. induction mods as [|m mods IH]; intros b; simpl; [by intros ?%elem_of_nil|].
  intros [Hr|Hr]%elem_of_app; [by eapply itemRowsOf_owner|by eapply IH].
Qed.

(** Without the flag every row is INCOMPLETE. *)
Lemma rowsFirst_false_incomplete cid s ids :
  Forall (λ r, ep_progress r = INCOMPLETE) (rowsFirst cid s false ids).
Proof.
  rewrite rowsFirst_false. apply Forall_fmap, Forall_forall. by intros.
Qed.

Lemma rowsFirst_bind_incomplete {A : Type} cid s (f : A → list string) (l : list A) :
  Forall (λ r, ep_progress r = INCOMPLETE) (l ≫= λ x, rowsFirst cid s false (f x)).
Proof.
  apply Forall_bind, Forall_forall. intros x _. apply rowsFirst_false_incomplete.
Qed.

Lemma itemRowsOf_false_incomplete h cid s secs :
  Forall (λ r, ep_progress r = INCOMPLETE) (itemRowsOf h cid s false secs).
Proof.
  destruct secs as [|sec secs]; simpl; [constructor|].
  apply Forall_app. split; [apply rowsFirst_false_incomplete|].
  apply (rowsFirst_bind_incomplete cid s (λ sec', sectionItemId <$> itemsOf h sec')).
Qed.

Section NoModuleRows.
Variables (h : Heap) (st : Store) (cid s : string).
Hypothesis no_module_rows : rowsOf s cid (studentModuleProgress st) = [].

(** A student without module rows has completed no module. *)
Lemma moduleFlag_no_rows m : moduleFlag st cid s m = false.
Proof. unfold moduleFlag. by rewrite rowsOf_findUnique_None. Qed.

Lemma moduleRowsFrom_false_incomplete mods :
  Forall (λ r, ep_progress r = INCOMPLETE) (moduleRowsFrom st cid s false mods).
Proof.
  induction mods as [|m mods IH]; simpl; [constructor|].
  rewrite moduleFlag_no_rows. by constructor.
Qed.

Lemma sectionRowsFrom_false_incomplete mods :
  Forall (λ r, ep_progress r = INCOMPLETE) (sectionRowsFrom h st cid s false mods).
Proof.
  induction mods as [|m mods IH]; simpl; [constructor|].
  rewrite moduleFlag_no_rows. apply Forall_app.
  split; [apply rowsFirst_false_incomplete|done].
Qed.

Lemma itemRowsFrom_false_incomplete mods :
  Forall (λ r, ep_progress r = INCOMPLETE) (itemRowsFrom h st cid s false mods).
Proof.
  induction mods as [|m mods IH]; simpl; [constructor|].
  rewrite moduleFlag_no_rows. apply Forall_app.
  split; [apply itemRowsOf_false_incomplete|done].
Qed.

Lemma moduleRowsFrom_first m1 mods :
  ∃ others,
    moduleRowsFrom st cid s true (m1 :: mods)
    = mkEntityProgress s (moduleId m1) cid IN_PROGRESS :: others
    ∧ Forall (λ r, ep_progress r = INCOMPLETE) others.
Proof.
  eexists. split; [done|]. rewrite moduleFlag_no_rows.
  apply moduleRowsFrom_false_incomplete.
Qed.

Lemma sectionRowsFrom_first m1 mods s1 secs :
  sectionsOf h m1 = s1 :: secs →
  ∃ others,
    sectionRowsFrom h st cid s true (m1 :: mods)
    = mkEntityProgress s (sectionId s1) cid IN_PROGRESS :: others
    ∧ Forall (λ r, ep_progress r = INCOMPLETE) others.
Proof.
  intros E. simpl. rewrite E, moduleFlag_no_rows. simpl.
  eexists. split; [done|]. apply Forall_app.
  split; [|apply sectionRowsFrom_false_incomplete].
  apply Forall_fmap, Forall_forall. by intros.
Qed.

Lemma itemRowsFrom_first m1 mods s1 secs i1 items :
  sectionsOf h m1 = s1 :: secs → itemsOf h s1 = i1 :: items →
  ∃ others,
    itemRowsFrom h st cid s true (m1 :: mods)
    = mkEntityProgress s (sectionItemId i1) cid IN_PROGRESS :: others
    ∧ Forall (λ r, ep_progress r = INCOMPLETE) others.
Proof.
  intros E1 E2. simpl. rewrite E1, moduleFlag_no_rows. simpl. rewrite E2. simpl.
  eexists. split; [done|]. rewrite <-app_assoc. apply Forall_app.
  split; [apply Forall_fmap, Forall_forall; by intros|].
  apply Forall_app. split; [|apply itemRowsFrom_false_incomplete].
  apply (rowsFirst_bind_incomplete cid s (λ sec', sectionItemId <$> itemsOf h sec')).
Qed.

End NoModuleRows.

(** When the transaction is accepted for at least one student, the first
    module has a section and that module's first section has an item: the
    adjacency upserts found a child with sequence 1 in each. *)
Lemma accepted_first_chain h st cd s ss m1 mods :
  Forall opAccepted (ss ≫= studentOps h st cd) → s ∈ ss →
  modulesOf h cd = m1 :: mods →
  ∃ s1 secs i1 items, sectionsOf h m1 = s1 :: secs ∧ itemsOf h s1 = i1 :: items.
Proof.
  intros Hacc Hs Hmods.
  assert (Hnext : Forall opAccepted (nextOps h cd)).
  { rewrite Forall_bind in Hacc.
    apply (proj1 (studentOps_accepted h st cd s)).
    by apply (proj1 (Forall_forall _ _) Hacc). }
  unfold nextOps, getNextData in Hnext. simpl in Hnext. rewrite Hmods in Hnext.
  apply Forall_app in Hnext as [Hm Hnext]. apply Forall_app in Hnext as [Hsec _].
  rewrite imap_cons in Hm. apply Forall_fmap, Forall_cons in Hm as [Hm _].
  simpl in Hm. destruct (findSequenceOne (sectionsOf h m1)) as [x|] eqn:Ex;
    [|by destruct Hm].
  destruct (sectionsOf h m1) as [|s1 secs] eqn:Esec; [done|].
  rewrite bind_cons, Esec, imap_cons in Hsec.
  apply Forall_fmap, Forall_app in Hsec as [Hsec _].
  apply Forall_cons in Hsec as [Hsec _].
  simpl in Hsec. destruct (findSequenceOne (itemsOf h s1)) as [y|] eqn:Ey;
    [|by destruct Hsec].
  destruct (itemsOf h s1) as [|i1 items] eqn:Eitems; [done|].
  by exists s1, secs, i1, items.
Qed.

(** C3, as stated, fails: over a course without modules and an empty
    database the call returns, the course rows are created, and no student
    has a section item IN_PROGRESS. *)
Lemma empty_curriculum_marks_no_item :
  (initializeStudentProgress sampleCourse emptyCurriculumHeap emptyStore).1.1
    = Ok (mkInitResult 2 2)
  ∧ studentSectionItemProgress
      (initializeStudentProgress sampleCourse emptyCurriculumHeap emptyStore).2 = []
  ∧ studentCourseProgress
      (initializeStudentProgress sampleCourse emptyCurriculumHeap emptyStore).2
    = [mkCourseProgress "alice" "C" IN_PROGRESS; mkCourseProgress "bob" "C" IN_PROGRESS].
Proof. vm_compute. done. Qed.

(** C3, amended.  Let the [modules] array be given in ascending sequence,
    [m1] being its first module, [s1] the first section of [m1] by sequence
    and [i1] the first item of [s1] by sequence; let the call return; let [s]
    be a listed student without course, module, section or item rows for the
    course instance before the call.  Then, among the rows of [s] for the
    course instance afterwards: the item rows are the row of [i1], IN_PROGRESS,
    followed by INCOMPLETE rows only; the section rows are the row of [s1],
    IN_PROGRESS, followed by INCOMPLETE rows only; the module rows are the row
    of [m1], IN_PROGRESS, followed by INCOMPLETE rows only; the one course row
    is IN_PROGRESS; [TotalProgress] is 0. *)
Theorem initialization_marks_first_chain cd h st r h1 st1 m1 mods s1 i1 s :
  initializeStudentProgress cd h st = (Ok r, h1, st1) →
  modulesOf h cd = m1 :: mods →
  StronglySorted seq_le (modulesOf h cd) →
  head (sortBySequence (sectionsOf h m1)) = Some s1 →
  head (sortBySequence (itemsOf h s1)) = Some i1 →
  s ∈ studentIds cd →
  courseRowsOf s (courseInstanceId cd) (studentCourseProgress st) = [] →
  rowsOf s (courseInstanceId cd) (studentModuleProgress st) = [] →
  rowsOf s (courseInstanceId cd) (studentSectionProgress st) = [] →
  rowsOf s (courseInstanceId cd) (studentSectionItemProgress st) = [] →
  ∃ moduleRows sectionRows itemRows tp,
    (∀ m, m ∈ modulesOf h cd → seq_le m1 m)
    ∧ (s1 ∈ sectionsOf h m1 ∧ ∀ x, x ∈ sectionsOf h m1 → seq_le s1 x)
    ∧ (i1 ∈ itemsOf h s1 ∧ ∀ x, x ∈ itemsOf h s1 → seq_le i1 x)
    ∧ rowsOf s (courseInstanceId cd) (studentSectionItemProgress st1)
      = mkEntityProgress s (sectionItemId i1) (courseInstanceId cd) IN_PROGRESS :: itemRows
    ∧ Forall (λ r, ep_progress r = INCOMPLETE) itemRows
    ∧ rowsOf s (courseInstanceId cd) (studentSectionProgress st1)
      = mkEntityProgress s (sectionId s1) (courseInstanceId cd) IN_PROGRESS :: sectionRows
    ∧ Forall (λ r, ep_progress r = INCOMPLETE) sectionRows
    ∧ rowsOf s (courseInstanceId cd) (studentModuleProgress st1)
      = mkEntityProgress s (moduleId m1) (courseInstanceId cd) IN_PROGRESS :: moduleRows
    ∧ Forall (λ r, ep_progress r = INCOMPLETE) moduleRows
    ∧ courseRowsOf s (courseInstanceId cd) (studentCourseProgress st1)
      = [mkCourseProgress s (courseInstanceId cd) IN_PROGRESS]
    ∧ findUnique (s, courseInstanceId cd) (totalProgress st1) = Some tp
    ∧ tp_progress tp = 0%Z.
Proof.
  intros Hrun Hmods Hsorted Hhead1 Hhead2 Hs Hc0 Hm0 Hs0 Hi0.
  set (cid := courseInstanceId cd) in *.
  destruct (initializeStudentProgress_tables _ _ _ _ _ _ Hrun)
    as (Hh1 & _ & Et & Ec & Em & Es & Ei). fold cid in Et, Ec, Em, Es, Ei.
  assert (Hmods1 : modulesOf h1 cd = m1 :: mods).
  { by rewrite Hh1, extractAllIds_modulesOf. }
  assert (Hm1 : m1 ∈ modulesOf h cd) by (rewrite Hmods; left).
  destruct (sortBySequence_head_least _ _ Hhead1) as [Hs1 Hleast1].
  destruct (sortBySequence_head_least _ _ Hhead2) as [Hi1 Hleast2].
  assert (∃ secs, sectionsOf h1 m1 = s1 :: secs) as [secs Esec].
  { rewrite Hh1, (extractAllIds_sectionsOf cd h m1 Hm1).
    destruct (sortBySequence (sectionsOf h m1)); simplify_eq/=. by eexists. }
  assert (∃ items, itemsOf h1 s1 = i1 :: items) as [items Eitems].
  { rewrite Hh1, (extractAllIds_itemsOf cd h m1 s1 Hm1 Hs1).
    destruct (sortBySequence (itemsOf h s1)); simplify_eq/=. by eexists. }
  destruct (itemRowsFrom_first h1 st cid s Hm0 m1 mods s1 secs i1 items Esec Eitems)
    as (irest & Eidata & Hirest).
  destruct (sectionRowsFrom_first h1 st cid s Hm0 m1 mods s1 secs Esec)
    as (srest & Esdata & Hsrest).
  destruct (moduleRowsFrom_first st cid s Hm0 m1 mods) as (mrest & Emdata & Hmrest).
  rewrite <-Hmods1 in Eidata, Esdata, Emdata.
  destruct (first_row_inserted cid s
              (λ s', itemRowsFrom h1 st cid s' true (modulesOf h1 cd))
              (λ s' r', itemRowsFrom_owner h1 st cid s' true _ r')
              _ _ Eidata Hirest (studentIds cd) _ Hi0 Hs) as (itemRows & Hirows & ?).
  destruct (first_row_inserted cid s
              (λ s', sectionRowsFrom h1 st cid s' true (modulesOf h1 cd))
              (λ s' r', sectionRowsFrom_owner h1 st cid s' true _ r')
              _ _ Esdata Hsrest (studentIds cd) _ Hs0 Hs) as (sectionRows & Hsrows & ?).
  destruct (first_row_inserted cid s
              (λ s', moduleRowsFrom st cid s' true (modulesOf h1 cd))
              (λ s' r', moduleRowsFrom_owner st cid s' true _ r')
              _ _ Emdata Hmrest (studentIds cd) _ Hm0 Hs) as (moduleRows & Hmrows & ?).
  destruct (upsertTotalRows_zero cid (studentIds cd) (totalProgress st) s Hs)
    as (tp & Htp & Hzero).
  exists moduleRows, sectionRows, itemRows, tp.
  split_and!; try done.
  - intros m Hm. rewrite Hmods in Hsorted, Hm.
    apply StronglySorted_inv in Hsorted as [_ Hall].
    apply elem_of_cons in Hm as [->|Hm]; [unfold seq_le; lia|].
    by apply (proj1 (Forall_forall _ _) Hall).
  - by rewrite Ei.
  - by rewrite Es.
  - by rewrite Em.
  - rewrite Ec. by apply course_row_inserted.
  - by rewrite Et.
Qed.

(** The amended C3 on the sample, for alice. *)
Lemma initialization_sample :
  ∃ moduleRows sectionRows itemRows tp,
    (∀ m, m ∈ modulesOf orderedHeap sampleCourse → seq_le (mkModule "M1" 1%Z 1%positive) m)
    ∧ (mkSection "M1S1" 1%Z 1%positive ∈ sectionsOf orderedHeap (mkModule "M1" 1%Z 1%positive)
       ∧ ∀ x, x ∈ sectionsOf orderedHeap (mkModule "M1" 1%Z 1%positive) →
              seq_le (mkSection "M1S1" 1%Z 1%positive) x)
    ∧ (mkSectionItem "M1S1I1" 1%Z ∈ itemsOf orderedHeap (mkSection "M1S1" 1%Z 1%positive)
       ∧ ∀ x, x ∈ itemsOf orderedHeap (mkSection "M1S1" 1%Z 1%positive) →
              seq_le (mkSectionItem "M1S1I1" 1%Z) x)
    ∧ rowsOf "alice" (courseInstanceId sampleCourse)
        (studentSectionItemProgress initializedStore)
      = mkEntityProgress "alice" (sectionItemId (mkSectionItem "M1S1I1" 1%Z))
          (courseInstanceId sampleCourse) IN_PROGRESS :: itemRows
    ∧ Forall (λ r, ep_progress r = INCOMPLETE) itemRows
    ∧ rowsOf "alice" (courseInstanceId sampleCourse)
        (studentSectionProgress initializedStore)
      = mkEntityProgress "alice" (sectionId (mkSection "M1S1" 1%Z 1%positive))
          (courseInstanceId sampleCourse) IN_PROGRESS :: sectionRows
    ∧ Forall (λ r, ep_progress r = INCOMPLETE) sectionRows
    ∧ rowsOf "alice" (courseInstanceId sampleCourse)
        (studentModuleProgress initializedStore)
      = mkEntityProgress "alice" (moduleId (mkModule "M1" 1%Z 1%positive))
          (courseInstanceId sampleCourse) IN_PROGRESS :: moduleRows
    ∧ Forall (λ r, ep_progress r = INCOMPLETE) moduleRows
    ∧ courseRowsOf "alice" (courseInstanceId sampleCourse)
        (studentCourseProgress initializedStore)
      = [mkCourseProgress "alice" (courseInstanceId sampleCourse) IN_PROGRESS]
    ∧ findUnique ("alice", courseInstanceId sampleCourse) (totalProgress initializedStore)
      = Some tp
    ∧ tp_progress tp = 0%Z.
Proof.
  apply (initialization_marks_first_chain sampleCourse orderedHeap emptyStore
           (mkInitResult 2 30)
           (initializeStudentProgress sampleCourse orderedHeap emptyStore).1.2
           initializedStore (mkModule "M1" 1%Z 1%positive)
           [mkModule "M2" 2%Z 2%positive]
           (mkSection "M1S1" 1%Z 1%positive) (mkSectionItem "M1S1I1" 1%Z) "alice").
  - vm_compute. reflexivity.
  - vm_compute. reflexivity.
  - assert (modulesOf orderedHeap sampleCourse
            = [mkModule "M1" 1%Z 1%positive; mkModule "M2" 2%Z 2%positive]) as ->
      by (vm_compute; reflexivity).
    repeat constructor. unfold seq_le, sequence, module_sequenced. simpl. lia.
  - vm_compute. reflexivity.
  - vm_compute. reflexivity.
  - vm_compute. constructor.
  - reflexivity.
  - reflexivity.
  - reflexivity.
  - reflexivity.
Defined.

(** * Further properties *)

(** ** [extractAllIds]: the lists and the first IDs, read from the input *)

Lemma find_head_filter {A : Type} (P : A → Prop) `{∀ x, Decision (P x)} (l : list A) :
  List.find (λ x, bool_decide (P x)) l = head (filter P l).
Proof.
  induction l as [|x l IH]; simpl; [done|].
  rewrite filter_cons. destruct (decide (P x)) as [Hx|Hx].
  - by rewrite bool_decide_eq_true_2.
  - by rewrite bool_decide_eq_false_2.
Qed.

(** Sorting does not change which element [find] answers with: the sort is
    stable. *)
Lemma findSequenceOne_sort {A : Type} `{Sequenced A} (l : list A) :
  findSequenceOne (sortBySequence l) = findSequenceOne l.
Proof.
  unfold findSequenceOne.
  by rewrite !(find_head_filter (λ x, sequence x = 1%Z)), sortBySequence_stable.
Qed.

Lemma bind_ext_in {A B : Type} (f g : A → list B) (l : list A) :
  (∀ x, x ∈ l → f x = g x) → l ≫= f = l ≫= g.
Proof.
  induction l as [|x l IH]; intros Hfg; [done|].
  rewrite !bind_cons, Hfg, IH; [done| |left].
  intros y ?. apply Hfg. by right.
Qed.

Lemma bind_perm_in {A B : Type} (f g : A → list B) (l : list A) :
  (∀ x, x ∈ l → f x ≡ₚ g x) → l ≫= f ≡ₚ l ≫= g.
Proof.
  induction l as [|x l IH]; intros Hfg; [done|].
  rewrite !bind_cons, Hfg, IH; [done| |left].
  intros y ?. apply Hfg. by right.
Qed.

(** What [extractAllIds] returns, in terms of the arrays it was given. *)
Lemma extractAllIds_ids cd h :
  let mods := sortBySequence (modulesOf h cd) in
  let fm := findSequenceOne (modulesOf h cd) in
  let fs := fm ≫= λ m, findSequenceOne (sectionsOf h m) in
  let fi := fs ≫= λ s, findSequenceOne (itemsOf h s) in
  (extractAllIds cd h).1
  = mkSeperatedIds
      (moduleId <$> mods)
      (mods ≫= λ m, sectionId <$> sortBySequence (sectionsOf h m))
      (mods ≫= λ m, sortBySequence (sectionsOf h m) ≫= λ s,
         sectionItemId <$> sortBySequence (itemsOf h s))
      (moduleId <$> fm)
      (orNull (sectionId <$> fs))
      (orNull (sectionItemId <$> fi)).
Proof.
  intros mods fm fs fi.
  assert (Hsec : ∀ m, m ∈ modulesOf h cd →
            sectionsOf (foldl sortModuleInPlace h mods) m = sortBySequence (sectionsOf h m)).
  { intros m Hm. pose proof (extractAllIds_sectionsOf cd h m Hm) as E.
    by rewrite extractAllIds_heap in E. }
  assert (Hitem : ∀ m s, m ∈ modulesOf h cd → s ∈ sectionsOf h m →
            itemsOf (foldl sortModuleInPlace h mods) s = sortBySequence (itemsOf h s)).
  { intros m s Hm Hs. pose proof (extractAllIds_itemsOf cd h m s Hm Hs) as E.
    by rewrite extractAllIds_heap in E. }
  assert (Esecs : (mods ≫= λ m, sectionId <$> sectionsOf (foldl sortModuleInPlace h mods) m)
                = (mods ≫= λ m, sectionId <$> sortBySequence (sectionsOf h m))).
  { apply bind_ext_in. intros m Hm. unfold mods in Hm.
    rewrite elem_of_sortBySequence in Hm. by rewrite Hsec. }
  assert (Eitems :
    (mods ≫= λ m, sectionsOf (foldl sortModuleInPlace h mods) m ≫= λ s,
       sectionItemId <$> itemsOf (foldl sortModuleInPlace h mods) s)
    = (mods ≫= λ m, sortBySequence (sectionsOf h m) ≫= λ s,
         sectionItemId <$> sortBySequence (itemsOf h s))).
  { apply bind_ext_in. intros m Hm. unfold mods in Hm.
    rewrite elem_of_sortBySequence in Hm. rewrite Hsec by done.
    apply bind_ext_in. intros s Hs. rewrite elem_of_sortBySequence in Hs.
    by rewrite (Hitem m s). }
  unfold extractAllIds. fold mods. rewrite Esecs, Eitems.
  unfold mods at 1. rewrite findSequenceOne_sort. fold fm.
  unfold fi, fs. destruct fm as [m|] eqn:Efm; simpl; [|done].
  apply findSequenceOne_Some in Efm as [Hm _].
  rewrite Hsec, findSequenceOne_sort by done.
  destruct (findSequenceOne (sectionsOf h m)) as [s|] eqn:Efs; simpl; [|done].
  apply findSequenceOne_Some in Efs as [Hs _].
  by rewrite (Hitem m s), findSequenceOne_sort.
Qed.

(** X1.  The [sections] list returned by [extractAllIds] goes through the
    modules in ascending sequence and, within a module, through its sections
    in ascending sequence; the [sectionItems] list does the same one level
    down.  Each list holds the IDs of the curriculum it was given, every one
    as often as it occurs there: no ID is dropped or repeated. *)
Theorem extractAllIds_lists_in_sequence_order cd h :
  let ids := (extractAllIds cd h).1 in
  let mods := sortBySequence (modulesOf h cd) in
  ids_sections ids = (mods ≫= λ m, sectionId <$> sortBySequence (sectionsOf h m))
  ∧ ids_sectionItems ids
    = (mods ≫= λ m, sortBySequence (sectionsOf h m) ≫= λ s,
         sectionItemId <$> sortBySequence (itemsOf h s))
  ∧ ids_modules ids ≡ₚ moduleId <$> modulesOf h cd
  ∧ ids_sections ids ≡ₚ (modulesOf h cd ≫= λ m, sectionId <$> sectionsOf h m)
  ∧ ids_sectionItems ids
    ≡ₚ (modulesOf h cd ≫= λ m, sectionsOf h m ≫= λ s, sectionItemId <$> itemsOf h s).
Proof.
  intros ids mods. unfold ids. rewrite extractAllIds_ids. simpl. fold mods.
  split_and!; [done|done|..].
  - unfold mods. by rewrite sortBySequence_perm.
  - unfold mods. rewrite sortBySequence_perm.
    apply bind_perm_in. intros m _. by rewrite sortBySequence_perm.
  - unfold mods. rewrite sortBySequence_perm.
    apply bind_perm_in. intros m _. rewrite sortBySequence_perm.
    apply bind_perm_in. intros s _. by rewrite sortBySequence_perm.
Qed.

(** X2.  [firstModule] is the ID of the first module of the caller's array
    whose sequence is 1, whether or not other modules have sequence 1 too:
    sorting is stable and does not change which one is found.  [firstSection]
    is the ID of the first section with sequence 1 in that module's array as
    it was given, [firstSectionItem] the ID of the first item with sequence 1
    in that section's array; a missing link of the chain, or an ID that is the
    empty string, gives [null]. *)
Theorem first_ids_are_first_in_array_order cd h :
  let ids := (extractAllIds cd h).1 in
  let fm := findSequenceOne (modulesOf h cd) in
  let fs := fm ≫= λ m, findSequenceOne (sectionsOf h m) in
  let fi := fs ≫= λ s, findSequenceOne (itemsOf h s) in
  firstModule ids = moduleId <$> fm
  ∧ firstSection ids = orNull (sectionId <$> fs)
  ∧ firstSectionItem ids = orNull (sectionItemId <$> fi).
Proof. intros ids fm fs fi. unfold ids. by rewrite extractAllIds_ids. Qed.

(** X3.  Calling [extractAllIds] again on the curriculum it has sorted
    returns the same IDs and writes nothing. *)
Theorem extractAllIds_twice cd h :
  extractAllIds cd (extractAllIds cd h).2 = extractAllIds cd h.
Proof.
  apply injective_projections; [|apply extractAllIds_heap_idemp].
  set (h' := (extractAllIds cd h).2).
  assert (Hsec : ∀ m, m ∈ modulesOf h cd →
            sectionsOf h' m = sortBySequence (sectionsOf h m)).
  { intros m Hm. by apply extractAllIds_sectionsOf. }
  assert (Hitem : ∀ m s, m ∈ modulesOf h cd → s ∈ sectionsOf h m →
            itemsOf h' s = sortBySequence (itemsOf h s)).
  { intros m s Hm Hs. by apply (extractAllIds_itemsOf cd h m). }
  rewrite !extractAllIds_ids. cbv zeta.
  assert (modulesOf h' cd = modulesOf h cd) as -> by apply extractAllIds_modulesOf.
  f_equal.
  - apply bind_ext_in. intros m Hm. rewrite elem_of_sortBySequence in Hm.
    by rewrite Hsec, sortBySequence_idemp.
  - apply bind_ext_in. intros m Hm. rewrite elem_of_sortBySequence in Hm.
    rewrite Hsec, sortBySequence_idemp by done.
    apply bind_ext_in. intros s Hs. rewrite elem_of_sortBySequence in Hs.
    by rewrite (Hitem m s), sortBySequence_idemp.
  - destruct (findSequenceOne (modulesOf h cd)) as [m|] eqn:Efm; simpl; [|done].
    apply findSequenceOne_Some in Efm as [Hm _].
    by rewrite Hsec, findSequenceOne_sort.
  - destruct (findSequenceOne (modulesOf h cd)) as [m|] eqn:Efm; simpl; [|done].
    apply findSequenceOne_Some in Efm as [Hm _].
    rewrite Hsec, findSequenceOne_sort by done.
    destruct (findSequenceOne (sectionsOf h m)) as [s|] eqn:Efs; simpl; [|done].
    apply findSequenceOne_Some in Efs as [Hs _].
    by rewrite (Hitem m s), findSequenceOne_sort.
Qed.

(** ** [extractAllIds]: what is written *)

Lemma decide_iff {A : Type} (P Q : Prop) `{Decision P, Decision Q} (x y : A) :
  (P ↔ Q) → (if decide P then x else y) = (if decide Q then x else y).
Proof. intros HPQ. destruct (decide P), (decide Q); tauto. Qed.

(** Every array of the heap after [extractAllIds]. *)
Lemma extractAllIds_heap_lookup cd h :
  let h' := (extractAllIds cd h).2 in
  (∀ l, sectionArrays h' !! l
        = if decide (l ∈ sections <$> modulesOf h cd)
          then sortBySequence <$> sectionArrays h !! l else sectionArrays h !! l)
  ∧ (∀ l, itemArrays h' !! l
          = if decide (l ∈ modulesOf h cd ≫= λ m, sectionItems <$> sectionsOf h m)
            then sortBySequence <$> itemArrays h !! l else itemArrays h !! l).
Proof.
  intros h'. unfold h'. rewrite extractAllIds_heap. split; intros l.
  - rewrite sortModules_sectionArrays, sortAll_lookup.
    apply decide_iff. by rewrite sortBySequence_perm.
  - rewrite sortModules_itemArrays, sortAll_lookup.
    apply decide_iff. rewrite sortBySequence_perm.
    assert ((modulesOf h cd ≫= λ m, sectionItems <$> sortBySequence (sectionsOf h m))
            ≡ₚ (modulesOf h cd ≫= λ m, sectionItems <$> sectionsOf h m)) as ->; [|done].
    apply bind_perm_in. intros m _. by rewrite sortBySequence_perm.
Qed.

(** X4.  [extractAllIds] writes only to the arrays the course refers to: a
    [sections] array that no module of the course holds, and a [sectionItems]
    array that no section of a module of the course holds, is after the call
    what it was before; and no array is created or removed. *)
Theorem extractAllIds_frame cd h :
  let h' := (extractAllIds cd h).2 in
  (∀ l, l ∉ sections <$> modulesOf h cd → sectionArrays h' !! l = sectionArrays h !! l)
  ∧ (∀ l, l ∉ (modulesOf h cd ≫= λ m, sectionItems <$> sectionsOf h m) →
       itemArrays h' !! l = itemArrays h !! l)
  ∧ (∀ l, is_Some (sectionArrays h' !! l) ↔ is_Some (sectionArrays h !! l))
  ∧ (∀ l, is_Some (itemArrays h' !! l) ↔ is_Some (itemArrays h !! l)).
Proof.
  intros h'. destruct (extractAllIds_heap_lookup cd h) as [Hs Hi]. fold h' in Hs, Hi.
  split_and!; intros l.
  - intros Hl. by rewrite Hs, decide_False.
  - intros Hl. by rewrite Hi, decide_False.
  - rewrite Hs. case_decide; [|done]. by rewrite fmap_is_Some.
  - rewrite Hi. case_decide; [|done]. by rewrite fmap_is_Some.
Qed.

(** X5.  On a curriculum whose [sections] and [sectionItems] arrays are
    already in ascending sequence, [extractAllIds] writes nothing: the heap
    after the call is the heap before, whatever the order of the modules. *)
Theorem extractAllIds_sorted_curriculum_unchanged cd h :
  (∀ m, m ∈ modulesOf h cd → StronglySorted seq_le (sectionsOf h m)) →
  (∀ m s, m ∈ modulesOf h cd → s ∈ sectionsOf h m → StronglySorted seq_le (itemsOf h s)) →
  (extractAllIds cd h).2 = h.
Proof.
  intros Hsec Hitem.
  destruct (extractAllIds_heap_lookup cd h) as [Hs Hi].
  pose proof (extractAllIds_moduleArrays cd h) as Hm.
  assert (Es : sectionArrays (extractAllIds cd h).2 = sectionArrays h).
  { apply map_eq. intros l. rewrite Hs. case_decide as Hl; [|done].
    apply list_elem_of_fmap in Hl as (m & -> & Hmem).
    specialize (Hsec m Hmem). unfold sectionsOf in Hsec.
    rewrite lookup_total_alt in Hsec.
    destruct (sectionArrays h !! sections m) as [a|]; simpl in *; [|done].
    by rewrite sortBySequence_id. }
  assert (Ei : itemArrays (extractAllIds cd h).2 = itemArrays h).
  { apply map_eq. intros l. rewrite Hi. case_decide as Hl; [|done].
    apply list_elem_of_bind in Hl as (m & Hl & Hmem).
    apply list_elem_of_fmap in Hl as (s & -> & Hsmem).
    specialize (Hitem m s Hmem Hsmem). unfold itemsOf in Hitem.
    rewrite lookup_total_alt in Hitem.
    destruct (itemArrays h !! sectionItems s) as [a|]; simpl in *; [|done].
    by rewrite sortBySequence_id. }
  destruct (extractAllIds cd h).2, h; simpl in *. by subst.
Qed.

(** X5 on the sample course once [extractAllIds] has sorted it. *)
Lemma extractAllIds_sorted_curriculum_unchanged_sample :
  (extractAllIds sampleCourse sortedHeap).2 = sortedHeap.
Proof.
  assert (Em : modulesOf sortedHeap sampleCourse
               = [mkModule "M2" 2%Z 2%positive; mkModule "M1" 1%Z 1%positive])
    by (vm_compute; reflexivity).
  assert (E1 : sectionsOf sortedHeap (mkModule "M1" 1%Z 1%positive)
               = [mkSection "M1S1" 1%Z 1%positive; mkSection "M1S2" 2%Z 2%positive])
    by (vm_compute; reflexivity).
  assert (E2 : sectionsOf sortedHeap (mkModule "M2" 2%Z 2%positive)
               = [mkSection "M2S1" 1%Z 3%positive; mkSection "M2S2" 2%Z 4%positive])
    by (vm_compute; reflexivity).
  apply extractAllIds_sorted_curriculum_unchanged.
  - intros m Hm. rewrite Em in Hm. set_unfold in Hm.
    destruct Hm as [->|[->|[]]]; [rewrite E2|rewrite E1];
      repeat constructor; unfold seq_le, sequence, section_sequenced; simpl; lia.
  - intros m s Hm Hs. rewrite Em in Hm. set_unfold in Hm.
    destruct Hm as [->|[->|[]]]; [rewrite E2 in Hs|rewrite E1 in Hs];
      set_unfold in Hs; destruct Hs as [->|[->|[]]];
      match goal with
      | |- StronglySorted _ ?l =>
          let v := eval vm_compute in l in
          replace l with v by (vm_compute; reflexivity)
      end;
      repeat constructor; unfold seq_le, sequence, item_sequenced; simpl; lia.
Defined.

(** ** [getNextData]: the module records and the first-child pointers *)

(** X6.  [getNextData] makes one module record per element of the [modules]
    array, in the order of the array and with the course instance of the
    call.  The next pointer of a record is [null] when the record is the last
    one, and when the ID of the record that follows is the empty string; in
    every other case it is the ID of the record that follows. *)
Theorem moduleNext_records_chain cd h :
  let recs := moduleNextData (getNextData cd h) in
  mn_moduleId <$> recs = moduleId <$> modulesOf h cd
  ∧ (∀ i r, recs !! i = Some r →
       mn_courseInstanceId r = courseInstanceId cd
       ∧ mn_nextModuleId r = orNull (mn_moduleId <$> recs !! S i))
  ∧ (∀ i r r', recs !! i = Some r → recs !! S i = Some r' →
       mn_nextModuleId r
       = if decide (mn_moduleId r' = "") then None else Some (mn_moduleId r'))
  ∧ (∀ i r, recs !! i = Some r → recs !! S i = None → mn_nextModuleId r = None)
  ∧ (∀ r, last recs = Some r → mn_nextModuleId r = None).
Proof.
  intros recs.
  assert (Hlk : ∀ i, recs !! i
            = moduleNextOf h (courseInstanceId cd) (modulesOf h cd) i <$> modulesOf h cd !! i).
  { intros i. unfold recs, getNextData. simpl. apply list_lookup_imap. }
  assert (Hids : mn_moduleId <$> recs = moduleId <$> modulesOf h cd).
  { apply list_eq. intros i. rewrite !list_lookup_fmap, Hlk.
    by destruct (modulesOf h cd !! i). }
  assert (Hchain : ∀ i r, recs !! i = Some r →
            mn_courseInstanceId r = courseInstanceId cd
            ∧ mn_nextModuleId r = orNull (mn_moduleId <$> recs !! S i)).
  { intros i r Hr. rewrite Hlk in Hr.
    destruct (modulesOf h cd !! i) as [m|]; simplify_eq/=. split; [done|].
    rewrite Hlk. by destruct (modulesOf h cd !! S i). }
  split_and!; [done|done| | |].
  - intros i r r' Hr Hr'. destruct (Hchain _ _ Hr) as [_ ->]. by rewrite Hr'.
  - intros i r Hr Hr'. destruct (Hchain _ _ Hr) as [_ ->]. by rewrite Hr'.
  - intros r Hr. rewrite last_lookup in Hr.
    destruct (Hchain _ _ Hr) as [_ ->].
    destruct recs as [|r0 recs0]; [done|]. simpl.
    by rewrite lookup_ge_None_2.
Qed.

(** X7.  A first-child pointer points into its own parent: when the
    [sectionId] of a module record is not [null], it is the ID of a section
    of that module whose sequence is 1; when the [sectionItemId] of a section
    record is not [null], it is the ID of an item of that section whose
    sequence is 1.  A parent without a child of sequence 1 has the pointer
    [null]. *)
Theorem first_child_pointers_stay_within_parent cd h :
  let nd := getNextData cd h in
  (∀ r, r ∈ moduleNextData nd →
     ∃ m, m ∈ modulesOf h cd ∧ mn_moduleId r = moduleId m
       ∧ (∀ x, mn_sectionId r = Some x →
            ∃ s, s ∈ sectionsOf h m ∧ sequence s = 1%Z ∧ sectionId s = x)
       ∧ ((∀ s, s ∈ sectionsOf h m → sequence s ≠ 1%Z) → mn_sectionId r = None))
  ∧ (∀ r, r ∈ sectionNextData nd →
       ∃ m s, m ∈ modulesOf h cd ∧ s ∈ sectionsOf h m
         ∧ sn_moduleId r = moduleId m ∧ sn_sectionId r = sectionId s
         ∧ (∀ x, sn_sectionItemId r = Some x →
              ∃ it, it ∈ itemsOf h s ∧ sequence it = 1%Z ∧ sectionItemId it = x)
         ∧ ((∀ it, it ∈ itemsOf h s → sequence it ≠ 1%Z) → sn_sectionItemId r = None)).
Proof.
  intros nd. split.
  - intros r Hr. unfold nd, getNextData in Hr. simpl in Hr.
    apply list_elem_of_lookup in Hr as [i Hr]. rewrite list_lookup_imap in Hr.
    destruct (modulesOf h cd !! i) as [m|] eqn:Hm; simplify_eq/=.
    exists m. split_and!; [by eapply list_elem_of_lookup_2|done| |].
    + intros x Hx. apply orNull_Some in Hx.
      destruct (findSequenceOne (sectionsOf h m)) as [s|] eqn:Hs; simplify_eq/=.
      apply findSequenceOne_Some in Hs as [? ?]. by exists s.
    + intros Hnone. apply findSequenceOne_None in Hnone. by rewrite Hnone.
  - intros r Hr. unfold nd, getNextData in Hr. simpl in Hr.
    apply list_elem_of_bind in Hr as (m & Hr & Hm).
    apply list_elem_of_lookup in Hr as [i Hr]. rewrite list_lookup_imap in Hr.
    destruct (sectionsOf h m !! i) as [s|] eqn:Hs; simplify_eq/=.
    exists m, s. split_and!; [done|by eapply list_elem_of_lookup_2|done|done| |].
    + intros x Hx. apply orNull_Some in Hx.
      destruct (findSequenceOne (itemsOf h s)) as [it|] eqn:Hit; simplify_eq/=.
      apply findSequenceOne_Some in Hit as [? ?]. by exists it.
    + intros Hnone. apply findSequenceOne_None in Hnone. by rewrite Hnone.
Qed.

(** X8.  Within [initializeStudentProgress], [getNextData] reads the
    curriculum that [extractAllIds] has sorted, and the two agree on the head
    of the course: the record of the first module with sequence 1 carries, as
    its first-section pointer, the [firstSection] that [extractAllIds]
    returned, and its ID is the [firstModule]. *)
Theorem first_ids_agree_with_module_record cd h i m :
  modulesOf h cd !! i = Some m →
  findSequenceOne (modulesOf h cd) = Some m →
  ∃ r, moduleNextData (getNextData cd (extractAllIds cd h).2) !! i = Some r
     ∧ firstModule (extractAllIds cd h).1 = Some (mn_moduleId r)
     ∧ firstSection (extractAllIds cd h).1 = mn_sectionId r.
Proof.
  intros Hi Hfm. unfold getNextData. simpl.
  rewrite extractAllIds_modulesOf, list_lookup_imap, Hi. simpl.
  eexists. split; [done|]. simpl.
  rewrite extractAllIds_ids. simpl. rewrite Hfm. simpl. split; [done|].
  rewrite extractAllIds_sectionsOf by (by eapply list_elem_of_lookup_2).
  by rewrite findSequenceOne_sort.
Qed.

(** X8 on the sample, whose modules array lists M2 before M1. *)
Lemma first_ids_agree_with_module_record_sample :
  ∃ r, moduleNextData (getNextData sampleCourse (extractAllIds sampleCourse sampleHeap).2)
         !! 1 = Some r
     ∧ firstModule (extractAllIds sampleCourse sampleHeap).1 = Some (mn_moduleId r)
     ∧ firstSection (extractAllIds sampleCourse sampleHeap).1 = mn_sectionId r.
Proof.
  apply (first_ids_agree_with_module_record sampleCourse sampleHeap 1
           (mkModule "M1" 1%Z 1%positive)); vm_compute; reflexivity.
Defined.

(** ** [initializeStudentProgress]: when it returns *)

Lemma nextOps_accepted h cd :
  Forall opAccepted (nextOps h cd) ↔ firstChildrenGiven h cd.
Proof.
  unfold nextOps, getNextData, firstChildrenGiven. simpl.
  rewrite !Forall_app, !Forall_fmap, !Forall_forall. split.
  - intros (Hm & Hs & _) m Hmem. split.
    + apply list_elem_of_lookup in Hmem as [i Hi].
      apply (Hm (moduleNextOf h (courseInstanceId cd) (modulesOf h cd) i m)).
      apply list_elem_of_lookup. exists i. by rewrite list_lookup_imap, Hi.
    + intros s Hsmem. apply list_elem_of_lookup in Hsmem as [i Hi].
      apply (Hs (sectionNextOf h m i s)).
      apply list_elem_of_bind. exists m. split; [|done].
      apply list_elem_of_lookup. exists i. by rewrite list_lookup_imap, Hi.
  - intros Hall. split_and!.
    + intros r Hr. apply list_elem_of_lookup in Hr as [i Hr].
      rewrite list_lookup_imap in Hr.
      destruct (modulesOf h cd !! i) as [m|] eqn:Hm; simplify_eq/=.
      apply Hall. by eapply list_elem_of_lookup_2.
    + intros r Hr. apply list_elem_of_bind in Hr as (m & Hr & Hm).
      apply list_elem_of_lookup in Hr as [i Hr]. rewrite list_lookup_imap in Hr.
      destruct (sectionsOf h m !! i) as [s|] eqn:Hs; simplify_eq/=.
      apply (Hall m Hm). by eapply list_elem_of_lookup_2.
    + by intros.
Qed.

(** Sorting in place does not change whether the first children are given. *)
Lemma firstChildrenGiven_extractAllIds cd h :
  firstChildrenGiven (extractAllIds cd h).2 cd ↔ firstChildrenGiven h cd.
Proof.
  unfold firstChildrenGiven. rewrite extractAllIds_modulesOf.
  apply forall_proper. intros m.
  split; intros Hall Hm; specialize (Hall Hm);
    rewrite extractAllIds_sectionsOf, findSequenceOne_sort in * by done;
    (split; [apply Hall|]); intros s Hs.
  - rewrite <-findSequenceOne_sort, <-(extractAllIds_itemsOf cd h m s) by done.
    apply Hall. by rewrite elem_of_sortBySequence.
  - rewrite elem_of_sortBySequence in Hs.
    rewrite (extractAllIds_itemsOf cd h m s), findSequenceOne_sort by done.
    by apply Hall.
Qed.

Lemma students_accepted_iff h st cd :
  Forall opAccepted (studentIds cd ≫= studentOps h st cd)
  ↔ studentIds cd = [] ∨ firstChildrenGiven h cd.
Proof.
  rewrite Forall_bind, <-nextOps_accepted. destruct (studentIds cd) as [|s ss].
  - split; [by left|constructor].
  - split.
    + intros Hall. right. apply Forall_cons in Hall as [Hs _].
      by apply (proj1 (studentOps_accepted h st cd s)).
    + intros [?|Hacc]; [done|]. apply Forall_forall. intros s' _.
      by apply (proj2 (studentOps_accepted h st cd s')).
Qed.

(** X9.  A curriculum in which some module has no section with sequence 1,
    or some section no item with sequence 1, or in which the ID of such a
    first child is the empty string, is refused as soon as there is a student:
    the [create] side of an adjacency upsert then lacks a required column,
    the call throws "Failed to initialize student progress", and the database
    is as before the call.  Hence a call that returned had an empty student
    list or was given every first child.  Whether it throws or returns, the
    call leaves the caller's curriculum sorted in place. *)
Theorem initialization_needs_first_children cd h st :
  let h1 := (extractAllIds cd h).2 in
  (studentIds cd ≠ [] → ¬ firstChildrenGiven h cd →
     initializeStudentProgress cd h st = (Throw FailedToInitialize, h1, st))
  ∧ (∀ r h' st1, initializeStudentProgress cd h st = (Ok r, h', st1) →
       studentIds cd = [] ∨ firstChildrenGiven h cd)
  ∧ (initializeStudentProgress cd h st).1.2 = h1.
Proof.
  intros h1.
  pose proof (students_accepted_iff h1 st cd) as Hiff.
  unfold h1 in Hiff at 2. rewrite firstChildrenGiven_extractAllIds in Hiff.
  destruct (initializeStudentProgress_outcome cd h st) as [[Hacc [st1 E]]|[Hrej E]];
    fold h1 in Hacc || fold h1 in Hrej; fold h1 in E.
  - split_and!.
    + intros Hne Hno. apply Hiff in Hacc as [?|?]; done.
    + intros _ _ _ _. by apply Hiff.
    + by rewrite E.
  - split_and!; [done| |by rewrite E].
    intros r h' st1 Hok. by rewrite E in Hok.
Qed.

(** X9 on the sample students and a course whose one module has no section:
    the call is refused and the database is as before. *)
Lemma initialization_refused_sample :
  initializeStudentProgress sampleCourse noSectionHeap initializedStore
  = (Throw FailedToInitialize, (extractAllIds sampleCourse noSectionHeap).2, initializedStore).
Proof.
  apply (proj1 (initialization_needs_first_children
                  sampleCourse noSectionHeap initializedStore)); [done|].
  intros Hgiven.
  destruct (Hgiven (mkModule "M" 1%Z 1%positive)) as [[x Hx] _].
  - replace (modulesOf noSectionHeap sampleCourse) with [mkModule "M" 1%Z 1%positive]
      by (vm_compute; reflexivity).
    left.
  - replace (orNull (sectionId <$>
               findSequenceOne (sectionsOf noSectionHeap (mkModule "M" 1%Z 1%positive))))
      with (@None string) in Hx by (vm_compute; reflexivity).
    done.
Defined.

(** X10.  With an empty student list the call returns zero counts and writes
    nothing to the database: also the adjacency records of the curriculum are
    not written, and a curriculum that would be refused is not looked at. *)
Theorem no_students_no_writes cd h st :
  studentIds cd = [] →
  initializeStudentProgress cd h st = (Ok (mkInitResult 0 0), (extractAllIds cd h).2, st).
Proof. intros Hnil. rewrite initializeStudentProgress_eq. cbv zeta. by rewrite Hnil. Qed.

(** X10 on a course without students whose one module has no section. *)
Lemma no_students_no_writes_sample :
  initializeStudentProgress noStudentCourse noSectionHeap initializedStore
  = (Ok (mkInitResult 0 0), (extractAllIds noStudentCourse noSectionHeap).2, initializedStore).
Proof. by apply no_students_no_writes. Defined.

(** ** [initializeStudentProgress]: the adjacency tables *)

Lemma runOp_next_tables op st st' :
  runOp op st = Some st' →
  moduleNext st' = applyModuleNext (moduleNext st) op
  ∧ sectionNext st' = applySectionNext (sectionNext st) op
  ∧ sectionItemNext st' = applySectionItemNext (sectionItemNext st) op.
Proof.
  destruct op as [| | | | |nd|nd|nd]; simpl; intros Hrun; simplify_eq; try done.
  - destruct (mn_sectionId nd); simplify_eq/=. done.
  - destruct (sn_sectionItemId nd); simplify_eq/=. done.
Qed.

Lemma transaction_next_tables ops st st' :
  transaction ops st = Some st' →
  moduleNext st' = foldl applyModuleNext (moduleNext st) ops
  ∧ sectionNext st' = foldl applySectionNext (sectionNext st) ops
  ∧ sectionItemNext st' = foldl applySectionItemNext (sectionItemNext st) ops.
Proof.
  revert st. induction ops as [|op ops IH]; intros st; simpl.
  - by intros [= ->].
  - destruct (runOp op st) as [st1|] eqn:E; simpl; [|done]. intros Htx.
    destruct (runOp_next_tables _ _ _ E) as (<- & <- & <-). by apply IH.
Qed.

Lemma foldl_fmap {A B C : Type} (f : A → B → A) (g : C → B) (a : A) (l : list C) :
  foldl f a (g <$> l) = foldl (λ a x, f a (g x)) a l.
Proof. revert a. induction l as [|x l IH]; intros a; simpl; [done|]. by rewrite IH. Qed.

(** Each adjacency table after a call that returned: for every student the
    records of [getNextData] are upserted, in order. *)
Lemma initializeStudentProgress_next_tables cd h st r h1 st1 :
  initializeStudentProgress cd h st = (Ok r, h1, st1) →
  let nd := getNextData cd h1 in
  moduleNext st1
  = foldl (λ t x, applyModuleNext t (ModuleNextUpsert x)) (moduleNext st)
      (studentIds cd ≫= λ _, moduleNextData nd)
  ∧ sectionNext st1
    = foldl (λ t x, applySectionNext t (SectionNextUpsert x)) (sectionNext st)
        (studentIds cd ≫= λ _, sectionNextData nd)
  ∧ sectionItemNext st1
    = foldl (λ t x, applySectionItemNext t (SectionItemNextUpsert x)) (sectionItemNext st)
        (studentIds cd ≫= λ _, sectionItemNextData nd).
Proof.
  rewrite initializeStudentProgress_eq. cbv zeta.
  set (h' := (extractAllIds cd h).2).
  destruct (transaction (studentIds cd ≫= studentOps h' st cd) st) as [st'|] eqn:Htx;
    [|done].
  intros [= <- <- <-].
  destruct (transaction_next_tables _ _ _ Htx) as (-> & -> & ->).
  split_and!; symmetry; rewrite foldl_bind; symmetry; apply foldl_bind_ext; intros t s;
    unfold studentOps, nextOps; rewrite !foldl_app, !foldl_fmap; simpl;
    repeat match goal with
    | |- context [foldl ?f ?t ?l] =>
        lazymatch f with
        | (λ _ _, applyModuleNext _ (ModuleNextUpsert _)) => fail
        | (λ _ _, applySectionNext _ (SectionNextUpsert _)) => fail
        | (λ _ _, applySectionItemNext _ (SectionItemNextUpsert _)) => fail
        | _ => assert (foldl f t l = t) as -> by (by induction l)
        end
    end; done.
Qed.

(** A table that goes through a list of upserts. *)
Section UpsertFold.
Context {R K X : Type} `{Keyed R K} `{EqDecision K}.
Variables (key : X → K) (upd : X → R → R) (cre : X → R).
Hypothesis upd_key : ∀ x r, keyOf (upd x r) = keyOf r.
Hypothesis cre_key : ∀ x, keyOf (cre x) = key x.
Implicit Types (xs : list X) (t : list R) (P : R → Prop).

(** A row of the table keeps what every update keeps. *)
Lemma upsert_fold_kept P xs t k r :
  (∀ x r, x ∈ xs → key x = k → P r → P (upd x r)) →
  findUnique k t = Some r → P r →
  ∃ r', findUnique k (foldl (λ t x, upsert (key x) (upd x) (cre x) t) t xs) = Some r'
        ∧ P r'.
Proof.
  revert t r. induction xs as [|x xs IH]; intros t r Hupd Hr HP; simpl; [by eauto|].
  destruct (decide (key x = k)) as [Hk|Hk].
  - apply (IH _ (upd x r)).
    + intros y r' ? ? ?. apply Hupd; [by right|done..].
    + subst k. rewrite findUnique_upsert, Hr; [done|apply upd_key|apply cre_key].
    + apply Hupd; [left|done..].
  - apply (IH _ r).
    + intros y r' ? ? ?. apply Hupd; [by right|done..].
    + rewrite findUnique_upsert_ne; [done|apply upd_key|apply cre_key|congruence].
    + done.
Qed.

(** A key that one of the upserts names is in the table afterwards, with what
    every upsert of that key writes. *)
Lemma upsert_fold_written P xs t k :
  (∀ x r, x ∈ xs → key x = k → P (upd x r)) →
  (∀ x, x ∈ xs → key x = k → P (cre x)) →
  (∃ x, x ∈ xs ∧ key x = k) →
  ∃ r', findUnique k (foldl (λ t x, upsert (key x) (upd x) (cre x) t) t xs) = Some r'
        ∧ P r'.
Proof.
  revert t. induction xs as [|x xs IH]; intros t Hu Hc (y & Hy & Hk);
    [by apply elem_of_nil in Hy|].
  simpl. destruct (decide (key x = k)) as [Hx|Hx].
  - assert (∃ r, findUnique k (upsert (key x) (upd x) (cre x) t) = Some r ∧ P r)
      as (r & Hr & HP).
    { rewrite <-Hx. rewrite findUnique_upsert; [|apply upd_key|apply cre_key].
      eexists. split; [done|].
      destruct (findUnique (key x) t) as [r0|]; [apply Hu|apply Hc]; by first [left|done]. }
    apply (upsert_fold_kept P xs _ k r); [|done..].
    intros z r' ? ? _. apply Hu; [by right|done].
  - apply IH.
    + intros z r' ? ?. apply Hu; [by right|done].
    + intros z ? ?. apply Hc; [by right|done].
    + apply elem_of_cons in Hy as [->|Hy]; [done|]. by exists y.
Qed.

End UpsertFold.

(** X11.  [initializeStudentProgress] updates an adjacency row that exists
    and never replaces it: the row keeps its key, its parent and its
    first-child pointer; only the next pointer is written.  A curriculum
    whose first section or first item has changed leaves the stored
    first-child pointers as they were. *)
Theorem adjacency_rows_keep_first_child cd h st r h1 st1 :
  initializeStudentProgress cd h st = (Ok r, h1, st1) →
  (∀ k row, findUnique k (moduleNext st) = Some row →
     ∃ row', findUnique k (moduleNext st1) = Some row'
       ∧ mnr_moduleId row' = mnr_moduleId row
       ∧ mnr_sectionId row' = mnr_sectionId row
       ∧ mnr_courseInstanceId row' = mnr_courseInstanceId row)
  ∧ (∀ k row, findUnique k (sectionNext st) = Some row →
       ∃ row', findUnique k (sectionNext st1) = Some row'
         ∧ snr_sectionId row' = snr_sectionId row
         ∧ snr_sectionItemId row' = snr_sectionItemId row
         ∧ snr_moduleId row' = snr_moduleId row)
  ∧ (∀ k row, findUnique k (sectionItemNext st) = Some row →
       ∃ row', findUnique k (sectionItemNext st1) = Some row'
         ∧ sinr_sectionItemId row' = sinr_sectionItemId row
         ∧ sinr_sectionId row' = sinr_sectionId row).
Proof.
  intros Hrun.
  destruct (initializeStudentProgress_next_tables _ _ _ _ _ _ Hrun) as (-> & -> & ->).
  split_and!; intros k row Hrow.
  - apply (upsert_fold_kept (H := moduleNext_keyed) mn_moduleId
             (λ nd r, mkModuleNext (mnr_moduleId r) (mnr_sectionId r)
                        (mn_nextModuleId nd) (mnr_courseInstanceId r))
             (λ nd, mkModuleNext (mn_moduleId nd) (default "" (mn_sectionId nd))
                      (mn_nextModuleId nd) (mn_courseInstanceId nd))
             (λ _ _, eq_refl) (λ _, eq_refl)
             (λ row', mnr_moduleId row' = mnr_moduleId row
                      ∧ mnr_sectionId row' = mnr_sectionId row
                      ∧ mnr_courseInstanceId row' = mnr_courseInstanceId row)
             _ _ k row); done.
  - apply (upsert_fold_kept (H := sectionNext_keyed) sn_sectionId
             (λ nd r, mkSectionNext (snr_sectionId r) (snr_sectionItemId r)
                        (sn_nextSectionId nd) (snr_moduleId r))
             (λ nd, mkSectionNext (sn_sectionId nd) (default "" (sn_sectionItemId nd))
                      (sn_nextSectionId nd) (sn_moduleId nd))
             (λ _ _, eq_refl) (λ _, eq_refl)
             (λ row', snr_sectionId row' = snr_sectionId row
                      ∧ snr_sectionItemId row' = snr_sectionItemId row
                      ∧ snr_moduleId row' = snr_moduleId row)
             _ _ k row); done.
  - apply (upsert_fold_kept (H := sectionItemNext_keyed) sin_sectionItemId
             (λ nd r, mkSectionItemNext (sinr_sectionItemId r)
                        (sin_nextSectionItemId nd) (sinr_sectionId r))
             (λ nd, mkSectionItemNext (sin_sectionItemId nd)
                      (sin_nextSectionItemId nd) (sin_sectionId nd))
             (λ _ _, eq_refl) (λ _, eq_refl)
             (λ row', sinr_sectionItemId row' = sinr_sectionItemId row
                      ∧ sinr_sectionId row' = sinr_sectionId row)
             _ _ k row); done.
Qed.

(** X11 on the sample: the course, initialised with its modules in ascending
    order, is initialised again with the modules array in descending order. *)
Lemma adjacency_rows_keep_first_child_sample :
  let st1 := (initializeStudentProgress sampleCourse sampleHeap initializedStore).2 in
  (∀ k row, findUnique k (moduleNext initializedStore) = Some row →
     ∃ row', findUnique k (moduleNext st1) = Some row'
       ∧ mnr_moduleId row' = mnr_moduleId row
       ∧ mnr_sectionId row' = mnr_sectionId row
       ∧ mnr_courseInstanceId row' = mnr_courseInstanceId row)
  ∧ (∀ k row, findUnique k (sectionNext initializedStore) = Some row →
       ∃ row', findUnique k (sectionNext st1) = Some row'
         ∧ snr_sectionId row' = snr_sectionId row
         ∧ snr_sectionItemId row' = snr_sectionItemId row
         ∧ snr_moduleId row' = snr_moduleId row)
  ∧ (∀ k row, findUnique k (sectionItemNext initializedStore) = Some row →
       ∃ row', findUnique k (sectionItemNext st1) = Some row'
         ∧ sinr_sectionItemId row' = sinr_sectionItemId row
         ∧ sinr_sectionId row' = sinr_sectionId row).
Proof.
  intros st1.
  apply (adjacency_rows_keep_first_child sampleCourse sampleHeap initializedStore
           (mkInitResult 2 30)
           (initializeStudentProgress sampleCourse sampleHeap initializedStore).1.2).
  vm_compute. reflexivity.
Defined.

Lemma NoDup_fmap_elem {A B : Type} (f : A → B) (l : list A) (x y : A) :
  NoDup (f <$> l) → x ∈ l → y ∈ l → f x = f y → x = y.
Proof.
  induction l as [|a l IH]; [by intros _ ?%elem_of_nil|].
  rewrite fmap_cons, NoDup_cons.
  intros [Ha Hl] [->|Hx]%elem_of_cons [->|Hy]%elem_of_cons Hf; [done| | |by apply IH].
  - destruct Ha. rewrite Hf. by apply list_elem_of_fmap_2.
  - destruct Ha. rewrite <-Hf. by apply list_elem_of_fmap_2.
Qed.

Lemma elem_of_bind_const {A B : Type} (ss : list A) (l : list B) (x : B) :
  x ∈ (ss ≫= λ _, l) ↔ ss ≠ [] ∧ x ∈ l.
Proof.
  rewrite list_elem_of_bind. split.
  - intros (s & Hx & Hs). split; [|done]. by intros ->; apply elem_of_nil in Hs.
  - intros [Hne Hx]. destruct ss as [|s ss]; [done|]. exists s. split; [done|left].
Qed.

Lemma fmap_bind_list {A B C : Type} (f : B → C) (g : A → list B) (l : list A) :
  f <$> (l ≫= g) = l ≫= λ x, f <$> g x.
Proof. induction l as [|x l IH]; [done|]. by rewrite !bind_cons, fmap_app, IH. Qed.

(** The IDs the records of [getNextData] are keyed by. *)
Lemma getNextData_keys cd h :
  mn_moduleId <$> moduleNextData (getNextData cd h) = moduleId <$> modulesOf h cd
  ∧ sn_sectionId <$> sectionNextData (getNextData cd h)
    = (modulesOf h cd ≫= λ m, sectionId <$> sectionsOf h m)
  ∧ sin_sectionItemId <$> sectionItemNextData (getNextData cd h)
    = (modulesOf h cd ≫= λ m, sectionsOf h m ≫= λ s, sectionItemId <$> itemsOf h s).
Proof.
  unfold getNextData. simpl. split_and!.
  - rewrite fmap_imap. apply imap_const.
  - rewrite fmap_bind_list. apply bind_ext_in. intros m _.
    rewrite fmap_imap. apply imap_const.
  - rewrite fmap_bind_list. apply bind_ext_in. intros m _.
    rewrite fmap_bind_list. apply bind_ext_in. intros s _.
    rewrite fmap_imap. apply imap_const.
Qed.

(** The IDs of the curriculum after [extractAllIds] are those before, in
    another order. *)
Lemma extractAllIds_keys_perm cd h :
  let h1 := (extractAllIds cd h).2 in
  moduleId <$> modulesOf h1 cd = moduleId <$> modulesOf h cd
  ∧ (modulesOf h1 cd ≫= λ m, sectionId <$> sectionsOf h1 m)
    ≡ₚ (modulesOf h cd ≫= λ m, sectionId <$> sectionsOf h m)
  ∧ (modulesOf h1 cd ≫= λ m, sectionsOf h1 m ≫= λ s, sectionItemId <$> itemsOf h1 s)
    ≡ₚ (modulesOf h cd ≫= λ m, sectionsOf h m ≫= λ s, sectionItemId <$> itemsOf h s).
Proof.
  intros h1. unfold h1. rewrite extractAllIds_modulesOf. split_and!; [done|..].
  - apply bind_perm_in. intros m Hm.
    by rewrite extractAllIds_sectionsOf, sortBySequence_perm.
  - apply bind_perm_in. intros m Hm. rewrite extractAllIds_sectionsOf by done.
    transitivity (sortBySequence (sectionsOf h m) ≫= λ s, sectionItemId <$> itemsOf h s).
    + apply bind_perm_in. intros s Hs. rewrite elem_of_sortBySequence in Hs.
      by rewrite (extractAllIds_itemsOf cd h m s), sortBySequence_perm.
    + by rewrite sortBySequence_perm.
Qed.

(** X12.  After a call for at least one student, the next pointer stored for
    an entity is the one [getNextData] computed from the curriculum as
    [extractAllIds] left it, whether the adjacency row was created by the call
    or was there before: at each level, provided the IDs of that level are
    pairwise distinct in the curriculum. *)
Theorem adjacency_rows_carry_next_pointers cd h st r h1 st1 :
  initializeStudentProgress cd h st = (Ok r, h1, st1) →
  studentIds cd ≠ [] →
  (NoDup (moduleId <$> modulesOf h cd) →
     ∀ x, x ∈ moduleNextData (getNextData cd h1) →
       ∃ row, findUnique (mn_moduleId x) (moduleNext st1) = Some row
            ∧ mnr_nextModuleId row = mn_nextModuleId x)
  ∧ (NoDup (modulesOf h cd ≫= λ m, sectionId <$> sectionsOf h m) →
       ∀ x, x ∈ sectionNextData (getNextData cd h1) →
         ∃ row, findUnique (sn_sectionId x) (sectionNext st1) = Some row
              ∧ snr_nextSectionId row = sn_nextSectionId x)
  ∧ (NoDup (modulesOf h cd ≫= λ m, sectionsOf h m ≫= λ s, sectionItemId <$> itemsOf h s) →
       ∀ x, x ∈ sectionItemNextData (getNextData cd h1) →
         ∃ row, findUnique (sin_sectionItemId x) (sectionItemNext st1) = Some row
              ∧ sinr_nextSectionItemId row = sin_nextSectionItemId x).
Proof.
  intros Hrun Hne.
  destruct (initializeStudentProgress_next_tables _ _ _ _ _ _ Hrun) as (-> & -> & ->).
  assert (Hh1 : h1 = (extractAllIds cd h).2).
  { by destruct (initializeStudentProgress_tables _ _ _ _ _ _ Hrun) as [-> _]. }
  destruct (getNextData_keys cd h1) as (Km & Ks & Ki).
  destruct (extractAllIds_keys_perm cd h) as (Pm & Ps & Pi). rewrite <-Hh1 in Pm, Ps, Pi.
  split_and!; intros Hnd x Hx.
  - rewrite <-Pm, <-Km in Hnd.
    apply (upsert_fold_written (H := moduleNext_keyed) mn_moduleId
             (λ nd r, mkModuleNext (mnr_moduleId r) (mnr_sectionId r)
                        (mn_nextModuleId nd) (mnr_courseInstanceId r))
             (λ nd, mkModuleNext (mn_moduleId nd) (default "" (mn_sectionId nd))
                      (mn_nextModuleId nd) (mn_courseInstanceId nd))
             (λ _ _, eq_refl) (λ _, eq_refl)
             (λ row, mnr_nextModuleId row = mn_nextModuleId x)).
    + intros y r' [_ Hy]%elem_of_bind_const Hk. simpl.
      by rewrite (NoDup_fmap_elem _ _ _ _ Hnd Hy Hx Hk).
    + intros y [_ Hy]%elem_of_bind_const Hk. simpl.
      by rewrite (NoDup_fmap_elem _ _ _ _ Hnd Hy Hx Hk).
    + exists x. by rewrite elem_of_bind_const.
  - rewrite <-Ps, <-Ks in Hnd.
    apply (upsert_fold_written (H := sectionNext_keyed) sn_sectionId
             (λ nd r, mkSectionNext (snr_sectionId r) (snr_sectionItemId r)
                        (sn_nextSectionId nd) (snr_moduleId r))
             (λ nd, mkSectionNext (sn_sectionId nd) (default "" (sn_sectionItemId nd))
                      (sn_nextSectionId nd) (sn_moduleId nd))
             (λ _ _, eq_refl) (λ _, eq_refl)
             (λ row, snr_nextSectionId row = sn_nextSectionId x)).
    + intros y r' [_ Hy]%elem_of_bind_const Hk. simpl.
      by rewrite (NoDup_fmap_elem _ _ _ _ Hnd Hy Hx Hk).
    + intros y [_ Hy]%elem_of_bind_const Hk. simpl.
      by rewrite (NoDup_fmap_elem _ _ _ _ Hnd Hy Hx Hk).
    + exists x. by rewrite elem_of_bind_const.
  - rewrite <-Pi, <-Ki in Hnd.
    apply (upsert_fold_written (H := sectionItemNext_keyed) sin_sectionItemId
             (λ nd r, mkSectionItemNext (sinr_sectionItemId r)
                        (sin_nextSectionItemId nd) (sinr_sectionId r))
             (λ nd, mkSectionItemNext (sin_sectionItemId nd)
                      (sin_nextSectionItemId nd) (sin_sectionId nd))
             (λ _ _, eq_refl) (λ _, eq_refl)
             (λ row, sinr_nextSectionItemId row = sin_nextSectionItemId x)).
    + intros y r' [_ Hy]%elem_of_bind_const Hk. simpl.
      by rewrite (NoDup_fmap_elem _ _ _ _ Hnd Hy Hx Hk).
    + intros y [_ Hy]%elem_of_bind_const Hk. simpl.
      by rewrite (NoDup_fmap_elem _ _ _ _ Hnd Hy Hx Hk).
    + exists x. by rewrite elem_of_bind_const.
Qed.

(** X12 on the same two runs. *)
Lemma adjacency_rows_carry_next_pointers_sample :
  let h1 := (initializeStudentProgress sampleCourse sampleHeap initializedStore).1.2 in
  let st1 := (initializeStudentProgress sampleCourse sampleHeap initializedStore).2 in
  (NoDup (moduleId <$> modulesOf sampleHeap sampleCourse) →
     ∀ x, x ∈ moduleNextData (getNextData sampleCourse h1) →
       ∃ row, findUnique (mn_moduleId x) (moduleNext st1) = Some row
            ∧ mnr_nextModuleId row = mn_nextModuleId x)
  ∧ (NoDup (modulesOf sampleHeap sampleCourse ≫= λ m, sectionId <$> sectionsOf sampleHeap m) →
       ∀ x, x ∈ sectionNextData (getNextData sampleCourse h1) →
         ∃ row, findUnique (sn_sectionId x) (sectionNext st1) = Some row
              ∧ snr_nextSectionId row = sn_nextSectionId x)
  ∧ (NoDup (modulesOf sampleHeap sampleCourse
              ≫= λ m, sectionsOf sampleHeap m ≫= λ s, sectionItemId <$> itemsOf sampleHeap s) →
       ∀ x, x ∈ sectionItemNextData (getNextData sampleCourse h1) →
         ∃ row, findUnique (sin_sectionItemId x) (sectionItemNext st1) = Some row
              ∧ sinr_nextSectionItemId row = sin_nextSectionItemId x).
Proof.
  intros h1 st1.
  apply (adjacency_rows_carry_next_pointers sampleCourse sampleHeap initializedStore
           (mkInitResult 2 30)); [|done].
  vm_compute. reflexivity.
Defined.

(** ** [initializeStudentProgress]: the rows inserted *)

Section TableLookups.
Context {R K : Type} `{Keyed R K} `{EqDecision K}.
Implicit Types (t data : list R) (r : R) (k : K).

(** Looking a key up after [createMany] with [skipDuplicates]: the row the
    table held, else the first row of [data] with that key. *)
Lemma findUnique_createManySkipDuplicates k data t :
  findUnique k (createManySkipDuplicates data t)
  = match findUnique k t with Some r => Some r | None => findUnique k data end.
Proof.
  revert t. induction data as [|r data IH]; intros t.
  - simpl. by destruct (findUnique k t).
  - rewrite createManySkipDuplicates_cons, IH.
    assert (Hcons : findUnique k (r :: data)
                    = if decide (keyOf r = k) then Some r else findUnique k data).
    { unfold findUnique. simpl. by destruct (decide (keyOf r = k));
        [rewrite bool_decide_eq_true_2|rewrite bool_decide_eq_false_2]. }
    rewrite Hcons.
    destruct (findUnique (keyOf r) t) as [r0|] eqn:Er.
    + destruct (findUnique k t) eqn:Ek; [done|].
      rewrite decide_False; [done|]. intros <-. by rewrite Er in Ek.
    + rewrite findUnique_app. destruct (findUnique k t) eqn:Ek; [done|].
      unfold findUnique at 1. simpl.
      destruct (decide (keyOf r = k));
        [by rewrite bool_decide_eq_true_2|by rewrite bool_decide_eq_false_2].
Qed.

Lemma findUnique_lookup_NoDup t i r :
  NoDup (keyOf <$> t : list K) → t !! i = Some r → findUnique (keyOf r) t = Some r.
Proof.
  intros Hnd Hi. apply list_elem_of_lookup_2 in Hi.
  destruct (proj2 (findUnique_is_Some (keyOf r) t)) as [r' Hr'];
    [by apply list_elem_of_fmap_2|].
  rewrite Hr'. f_equal. apply findUnique_Some in Hr' as [Hin Hk].
  by apply (NoDup_fmap_elem (keyOf : R → K) t).
Qed.

Lemma length_createManySkipDuplicates data t :
  (length (createManySkipDuplicates data t) ≤ length t + length data)%nat.
Proof.
  revert t. induction data as [|r data IH]; intros t; [simpl; lia|].
  rewrite createManySkipDuplicates_cons.
  destruct (findUnique (keyOf r) t).
  - specialize (IH t). simpl. lia.
  - specialize (IH (t ++ [r])). rewrite length_app in IH. simpl in *. lia.
Qed.

Variable data : string → list R.

(** The student loop: a key that only the rows of student [s] can hold. *)
Lemma foldl_createMany_lookup ss t k s :
  (∀ s', s' ≠ s → findUnique k (data s') = None) →
  findUnique k (foldl (λ t s, createManySkipDuplicates (data s) t) t ss)
  = match findUnique k t with
    | Some r => Some r
    | None => if decide (s ∈ ss) then findUnique k (data s) else None
    end.
Proof.
  intros Hother. revert t. induction ss as [|s' ss IH]; intros t; cbn [foldl].
  - rewrite decide_False by apply not_elem_of_nil. by destruct (findUnique k t).
  - rewrite IH, findUnique_createManySkipDuplicates.
    destruct (findUnique k t) as [r|]; [done|].
    destruct (decide (s' = s)) as [->|Hne].
    + rewrite (decide_True (P := s ∈ s :: ss)) by left.
      destruct (findUnique k (data s)); [done|]. by case_decide.
    + rewrite Hother by done.
      apply decide_iff. rewrite elem_of_cons.
      split; [by right|]. intros [?|?]; [congruence|done].
Qed.

Lemma length_foldl_createMany ss t n :
  (∀ s, length (data s) = n) →
  (length (foldl (λ t s, createManySkipDuplicates (data s) t) t ss)
   ≤ length t + length ss * n)%nat.
Proof.
  intros Hn. revert t. induction ss as [|s ss IH]; intros t; simpl; [lia|].
  specialize (IH (createManySkipDuplicates (data s) t)).
  pose proof (length_createManySkipDuplicates (data s) t). rewrite Hn in *. lia.
Qed.

End TableLookups.

(** The module row prepared at index [i]: IN_PROGRESS for the first module of
    the array, and for a module whose predecessor in the array is stored as
    COMPLETE. *)
Lemma moduleRowsFrom_lookup st cid s flag mods i m :
  mods !! i = Some m →
  moduleRowsFrom st cid s flag mods !! i
  = Some (mkEntityProgress s (moduleId m) cid
            (if match i with
                | 0 => flag
                | S j => from_option (moduleFlag st cid s) false (mods !! j)
                end
             then IN_PROGRESS else INCOMPLETE)).
Proof.
  revert flag i. induction mods as [|m0 mods IH]; intros flag i Hi; [done|].
  destruct i as [|j]; simpl in *; [by simplify_eq|].
  rewrite (IH _ _ Hi). by destruct j.
Qed.

Lemma moduleRowsFrom_keys_eq st cid s flag mods :
  (keyOf <$> moduleRowsFrom st cid s flag mods : list (string * string * string))
  = (λ m, (s, moduleId m, cid)) <$> mods.
Proof.
  revert flag. induction mods as [|m mods IH]; intros flag; simpl; [done|].
  by rewrite IH.
Qed.

(** X13.  When the call returns, a listed student who had no progress row
    for the module at index [i] of the array has one afterwards, and its
    status is IN_PROGRESS when [i] is 0 or when the module at index [i - 1]
    was stored as COMPLETE for the student before the call, INCOMPLETE
    otherwise (module IDs being pairwise distinct).  The flag is read from the
    database as it was before the call: rows the call itself inserts do not
    count. *)
Theorem new_module_row_follows_stored_status cd h st r h1 st1 s i m :
  initializeStudentProgress cd h st = (Ok r, h1, st1) →
  NoDup (moduleId <$> modulesOf h cd) →
  s ∈ studentIds cd →
  modulesOf h cd !! i = Some m →
  findUnique (s, moduleId m, courseInstanceId cd) (studentModuleProgress st) = None →
  findUnique (s, moduleId m, courseInstanceId cd) (studentModuleProgress st1)
  = Some (mkEntityProgress s (moduleId m) (courseInstanceId cd)
            (if match i with
                | 0 => true
                | S j => from_option (moduleFlag st (courseInstanceId cd) s) false
                           (modulesOf h cd !! j)
                end
             then IN_PROGRESS else INCOMPLETE)).
Proof.
  intros Hrun Hnd Hs Hi Hnone.
  destruct (initializeStudentProgress_tables _ _ _ _ _ _ Hrun)
    as (Hh1 & _ & _ & _ & -> & _ & _).
  assert (modulesOf h1 cd = modulesOf h cd) as -> by (by rewrite Hh1, extractAllIds_modulesOf).
  set (cid := courseInstanceId cd) in *.
  rewrite (foldl_createMany_lookup
             (λ s, moduleRowsFrom st cid s true (modulesOf h cd)) _ _ _ s), Hnone.
  - rewrite decide_True by done.
    pose proof (moduleRowsFrom_lookup st cid s true _ _ _ Hi) as Hrow.
    apply (findUnique_lookup_NoDup _ i) in Hrow; [done|].
    rewrite moduleRowsFrom_keys_eq.
    rewrite (list_fmap_compose moduleId (λ x, (s, x, cid))).
    apply NoDup_fmap_2; [|done]. by intros x y [=].
  - intros s' Hne. apply findUnique_None. intros row Hrow Hk.
    apply moduleRowsFrom_owner in Hrow as [Hown _].
    unfold keyOf, entity_keyed in Hk. by simplify_eq.
Qed.

(** X13 on the sample: alice has completed M1 and M2 when M3 is added to the
    course; her row for M3 is created IN_PROGRESS. *)
Lemma new_module_row_follows_stored_status_sample :
  findUnique ("alice", "M3", "C")
    (studentModuleProgress
       (initializeStudentProgress sampleCourse extendedHeap completedStore).2)
  = Some (mkEntityProgress "alice" "M3" "C" IN_PROGRESS).
Proof.
  replace (Some (mkEntityProgress "alice" "M3" "C" IN_PROGRESS))
    with (Some (mkEntityProgress "alice" (moduleId (mkModule "M3" 3%Z 3%positive))
                  (courseInstanceId sampleCourse)
                  (if match 2 with
                      | 0 => true
                      | S j => from_option
                                 (moduleFlag completedStore (courseInstanceId sampleCourse)
                                    "alice") false
                                 (modulesOf extendedHeap sampleCourse !! j)
                      end
                   then IN_PROGRESS else INCOMPLETE)))
    by (vm_compute; reflexivity).
  apply (new_module_row_follows_stored_status sampleCourse extendedHeap completedStore
           (mkInitResult 2 36)
           (initializeStudentProgress sampleCourse extendedHeap completedStore).1.2
           _ "alice" 2 (mkModule "M3" 3%Z 3%positive)).
  - vm_compute. reflexivity.
  - replace (moduleId <$> modulesOf extendedHeap sampleCourse) with ["M1"; "M2"; "M3"]
      by (vm_compute; reflexivity).
    apply (bool_decide_unpack _). vm_compute. exact I.
  - left.
  - vm_compute. reflexivity.
  - vm_compute. reflexivity.
Defined.

(** ** [initializeStudentProgress]: what is left alone *)

Lemma upsertTotalRows_other cid t ss s' cid' :
  s' ∉ ss ∨ cid' ≠ cid →
  findUnique (s', cid') (upsertTotalRows cid t ss) = findUnique (s', cid') t.
Proof.
  intros Hother. revert t. induction ss as [|s ss IH]; intros t; simpl; [done|].
  rewrite IH.
  - apply findUnique_upsert_ne; [done|done|].
    intros [= -> ->]. destruct Hother as [Hs|Hc]; [|done]. apply Hs. left.
  - destruct Hother as [Hs|Hc]; [left|by right]. intros ?. apply Hs. by right.
Qed.

Lemma upsertCourseRows_added cid ss t :
  ∃ added, upsertCourseRows cid t ss = t ++ added
    ∧ ∀ r, r ∈ added → scp_studentId r ∈ ss ∧ scp_courseInstanceId r = cid.
Proof.
  revert t. induction ss as [|s ss IH]; intros t; simpl.
  - exists []. split; [by rewrite app_nil_r|]. by intros ? ?%elem_of_nil.
  - destruct (findUnique (s, cid) t) as [r0|] eqn:E.
    + rewrite upsert_no_update by (by rewrite E).
      destruct (IH t) as (a & -> & Ha). exists a. split; [done|].
      intros r Hr. destruct (Ha r Hr). split; [by right|done].
    + rewrite upsert_absent by done.
      destruct (IH (t ++ [mkCourseProgress s cid IN_PROGRESS])) as (a & -> & Ha).
      exists (mkCourseProgress s cid IN_PROGRESS :: a).
      split; [by rewrite <-app_assoc|].
      intros r [->|Hr]%elem_of_cons; [split; [left|done]|].
      destruct (Ha r Hr). split; [by right|done].
Qed.

Lemma length_upsertCourseRows cid ss t :
  (length (upsertCourseRows cid t ss) ≤ length t + length ss)%nat.
Proof.
  revert t. induction ss as [|s ss IH]; intros t; simpl; [lia|].
  specialize (IH (upsert (s, cid) (λ r, r) (mkCourseProgress s cid IN_PROGRESS) t)).
  unfold upsert in *. destruct (findUnique (s, cid) t).
  - rewrite length_fmap in IH. lia.
  - rewrite length_app in IH. simpl in IH. lia.
Qed.

(** The rows of one student and course instance, among rows appended for
    other students or another course instance. *)
Lemma rowsOf_appended (data : string → list EntityProgressRow) cid ss t s' cid' :
  (∀ s r, r ∈ data s → ep_studentId r = s ∧ ep_courseInstanceId r = cid) →
  s' ∉ ss ∨ cid' ≠ cid →
  rowsOf s' cid' (foldl (λ t s, createManySkipDuplicates (data s) t) t ss)
  = rowsOf s' cid' t.
Proof.
  intros Hown Hother.
  destruct (foldl_createMany_appends data ss t) as (added & -> & Hadded).
  unfold rowsOf. rewrite filter_app, (filter_none _ added), app_nil_r; [done|].
  intros r Hr [Hs Hc]. destruct (Hadded r Hr) as (s & Hin & Hdata).
  destruct (Hown s r Hdata) as [Hs' Hc'].
  destruct Hother as [Hnin|Hne]; [apply Hnin|apply Hne]; congruence.
Qed.

(** X14.  The call touches the rows of the listed students in the course
    instance of the call only: the progress rows and the [TotalProgress] of a
    student who is not listed, and those of any student in another course
    instance, are after the call what they were before. *)
Theorem initialization_leaves_other_rows cd h st r h1 st1 s' cid' :
  initializeStudentProgress cd h st = (Ok r, h1, st1) →
  s' ∉ studentIds cd ∨ cid' ≠ courseInstanceId cd →
  findUnique (s', cid') (totalProgress st1) = findUnique (s', cid') (totalProgress st)
  ∧ courseRowsOf s' cid' (studentCourseProgress st1)
    = courseRowsOf s' cid' (studentCourseProgress st)
  ∧ rowsOf s' cid' (studentModuleProgress st1) = rowsOf s' cid' (studentModuleProgress st)
  ∧ rowsOf s' cid' (studentSectionProgress st1) = rowsOf s' cid' (studentSectionProgress st)
  ∧ rowsOf s' cid' (studentSectionItemProgress st1)
    = rowsOf s' cid' (studentSectionItemProgress st).
Proof.
  intros Hrun Hother.
  destruct (initializeStudentProgress_tables _ _ _ _ _ _ Hrun)
    as (_ & _ & -> & -> & -> & -> & ->).
  split_and!.
  - by apply upsertTotalRows_other.
  - destruct (upsertCourseRows_added (courseInstanceId cd) (studentIds cd)
                (studentCourseProgress st)) as (added & E & Hadded).
    unfold upsertCourseRows in E. rewrite E.
    unfold courseRowsOf. rewrite filter_app, (filter_none _ added), app_nil_r; [done|].
    intros row Hrow [Hs Hc]. destruct (Hadded row Hrow) as [Hin Hcid].
    destruct Hother as [Hnin|Hne]; [apply Hnin|apply Hne]; congruence.
  - apply (rowsOf_appended
             (λ s, moduleRowsFrom st (courseInstanceId cd) s true (modulesOf h1 cd))
             (courseInstanceId cd));
      [|done].
    intros s row. apply moduleRowsFrom_owner.
  - apply (rowsOf_appended
             (λ s, sectionRowsFrom h1 st (courseInstanceId cd) s true (modulesOf h1 cd))
             (courseInstanceId cd));
      [|done].
    intros s row. apply sectionRowsFrom_owner.
  - apply (rowsOf_appended
             (λ s, itemRowsFrom h1 st (courseInstanceId cd) s true (modulesOf h1 cd))
             (courseInstanceId cd));
      [|done].
    intros s row. apply itemRowsFrom_owner.
Qed.

(** X14 on the sample: the course is initialised again for bob alone, when
    alice is at the last item of M1 and her [TotalProgress] is 40. *)
Lemma initialization_leaves_other_rows_sample :
  let st1 := (initializeStudentProgress (mkCourseProgressData "C" ["bob"] 1%positive)
                orderedHeap progressedStore).2 in
  findUnique ("alice", "C") (totalProgress st1)
    = findUnique ("alice", "C") (totalProgress progressedStore)
  ∧ courseRowsOf "alice" "C" (studentCourseProgress st1)
    = courseRowsOf "alice" "C" (studentCourseProgress progressedStore)
  ∧ rowsOf "alice" "C" (studentModuleProgress st1)
    = rowsOf "alice" "C" (studentModuleProgress progressedStore)
  ∧ rowsOf "alice" "C" (studentSectionProgress st1)
    = rowsOf "alice" "C" (studentSectionProgress progressedStore)
  ∧ rowsOf "alice" "C" (studentSectionItemProgress st1)
    = rowsOf "alice" "C" (studentSectionItemProgress progressedStore).
Proof.
  intros st1.
  apply (initialization_leaves_other_rows (mkCourseProgressData "C" ["bob"] 1%positive)
           orderedHeap progressedStore (mkInitResult 1 15)
           (initializeStudentProgress (mkCourseProgressData "C" ["bob"] 1%positive)
              orderedHeap progressedStore).1.2).
  - vm_compute. reflexivity.
  - left. simpl. apply (bool_decide_unpack _). vm_compute. exact I.
Defined.

(** X15.  [totalRecords] is an upper bound of what the call inserts: the
    four tables of progress rows grow, together, by at most [totalRecords]
    rows.  (Rows that exist are skipped and still counted.) *)
Theorem totalRecords_bounds_rows_inserted cd h st r h1 st1 :
  initializeStudentProgress cd h st = (Ok r, h1, st1) →
  (length (studentCourseProgress st1) + length (studentModuleProgress st1)
   + length (studentSectionProgress st1) + length (studentSectionItemProgress st1)
   ≤ length (studentCourseProgress st) + length (studentModuleProgress st)
     + length (studentSectionProgress st) + length (studentSectionItemProgress st)
     + totalRecords r)%nat.
Proof.
  intros Hrun.
  destruct (initializeStudentProgress_tables _ _ _ _ _ _ Hrun)
    as (_ & _ & _ & -> & -> & -> & ->).
  assert (Hr : totalRecords r = length (studentIds cd) * rowsPerStudent h1 cd).
  { rewrite initializeStudentProgress_eq in Hrun. cbv zeta in Hrun.
    destruct (transaction _ st); by simplify_eq. }
  rewrite Hr. unfold rowsPerStudent.
  pose proof (length_upsertCourseRows (courseInstanceId cd) (studentIds cd)
                (studentCourseProgress st)) as Hc.
  unfold upsertCourseRows in Hc.
  pose proof (length_foldl_createMany
                (λ s, moduleRowsFrom st (courseInstanceId cd) s true (modulesOf h1 cd))
                (studentIds cd) (studentModuleProgress st) _
                (λ s, moduleRowsFrom_length st _ s true _)) as Hm.
  pose proof (length_foldl_createMany
                (λ s, sectionRowsFrom h1 st (courseInstanceId cd) s true (modulesOf h1 cd))
                (studentIds cd) (studentSectionProgress st) _
                (λ s, sectionRowsFrom_length h1 st _ s true _)) as Hs.
  pose proof (length_foldl_createMany
                (λ s, itemRowsFrom h1 st (courseInstanceId cd) s true (modulesOf h1 cd))
                (studentIds cd) (studentSectionItemProgress st) _
                (λ s, itemRowsFrom_length h1 st _ s true _)) as Hi.
  simpl in *. nia.
Qed.

(** X15 on the sample: a second run inserts nothing and counts 30. *)
Lemma totalRecords_bounds_rows_inserted_sample :
  let st1 := (initializeStudentProgress sampleCourse orderedHeap initializedStore).2 in
  (length (studentCourseProgress st1) + length (studentModuleProgress st1)
   + length (studentSectionProgress st1) + length (studentSectionItemProgress st1)
   ≤ length (studentCourseProgress initializedStore)
     + length (studentModuleProgress initializedStore)
     + length (studentSectionProgress initializedStore)
     + length (studentSectionItemProgress initializedStore)
     + totalRecords (mkInitResult 2 30))%nat.
Proof.
  intros st1.
  apply (totalRecords_bounds_rows_inserted sampleCourse orderedHeap initializedStore
           (mkInitResult 2 30)
           (initializeStudentProgress sampleCourse orderedHeap initializedStore).1.2).
  vm_compute. reflexivity.
Defined.

(** ** [initializeStudentProgress]: the rows afterwards *)

Lemma findUnique_app_Some {R K : Type} `{Keyed R K} `{EqDecision K}
    (k : K) (t added : list R) (r : R) :
  findUnique k t = Some r → findUnique k (t ++ added) = Some r.
Proof. intros Hr. by rewrite findUnique_app, Hr. Qed.

(** X16.  A call that returns never modifies a progress row: a course,
    module, section or item row that existed before the call is found
    afterwards, under the same key, as it was, status included.  The
    [TotalProgress] of every listed student is 0 afterwards, whatever it was
    before. *)
Theorem initialization_never_overwrites cd h st r h1 st1 :
  initializeStudentProgress cd h st = (Ok r, h1, st1) →
  (∀ k row, findUnique k (studentCourseProgress st) = Some row →
     findUnique k (studentCourseProgress st1) = Some row)
  ∧ (∀ k row, findUnique k (studentModuleProgress st) = Some row →
       findUnique k (studentModuleProgress st1) = Some row)
  ∧ (∀ k row, findUnique k (studentSectionProgress st) = Some row →
       findUnique k (studentSectionProgress st1) = Some row)
  ∧ (∀ k row, findUnique k (studentSectionItemProgress st) = Some row →
       findUnique k (studentSectionItemProgress st1) = Some row)
  ∧ (∀ s, s ∈ studentIds cd →
       ∃ tp, findUnique (s, courseInstanceId cd) (totalProgress st1) = Some tp
             ∧ tp_progress tp = 0%Z).
Proof.
  intros Hrun.
  destruct (initialization_only_appends _ _ _ _ _ _ Hrun)
    as ([ac ->] & [am ->] & [asec ->] & [ai ->] & _).
  destruct (initializeStudentProgress_tables _ _ _ _ _ _ Hrun) as (_ & _ & -> & _).
  split_and!; try (intros k row; apply findUnique_app_Some).
  intros s Hs. by apply upsertTotalRows_zero.
Qed.

(** X16 on the sample: the course is initialised again when alice is at the
    last item of M1 and her [TotalProgress] is 40. *)
Lemma initialization_never_overwrites_sample :
  let st1 := (initializeStudentProgress sampleCourse orderedHeap progressedStore).2 in
  (∀ k row, findUnique k (studentCourseProgress progressedStore) = Some row →
     findUnique k (studentCourseProgress st1) = Some row)
  ∧ (∀ k row, findUnique k (studentModuleProgress progressedStore) = Some row →
       findUnique k (studentModuleProgress st1) = Some row)
  ∧ (∀ k row, findUnique k (studentSectionProgress progressedStore) = Some row →
       findUnique k (studentSectionProgress st1) = Some row)
  ∧ (∀ k row, findUnique k (studentSectionItemProgress progressedStore) = Some row →
       findUnique k (studentSectionItemProgress st1) = Some row)
  ∧ (∀ s, s ∈ studentIds sampleCourse →
       ∃ tp, findUnique (s, courseInstanceId sampleCourse) (totalProgress st1) = Some tp
             ∧ tp_progress tp = 0%Z).
Proof.
  intros st1.
  apply (initialization_never_overwrites sampleCourse orderedHeap progressedStore
           (mkInitResult 2 30)
           (initializeStudentProgress sampleCourse orderedHeap progressedStore).1.2).
  vm_compute. reflexivity.
Defined.

(** The keys of the rows prepared for a student. *)
Lemma rowsFirst_keys_eq cid s b ids :
  (keyOf <$> rowsFirst cid s b ids : list (string * string * string))
  = (λ id, (s, id, cid)) <$> ids.
Proof.
  destruct ids as [|x xs]; simpl; [done|]. f_equal.
  rewrite <-list_fmap_compose. by apply list_fmap_ext.
Qed.

Lemma sectionRowsFrom_keys_eq h st cid s b mods :
  (keyOf <$> sectionRowsFrom h st cid s b mods : list (string * string * string))
  = (mods ≫= λ m, (λ x, (s, sectionId x, cid)) <$> sectionsOf h m).
Proof.
  revert b. induction mods as [|m mods IH]; intros b; [done|].
  cbn [sectionRowsFrom]. rewrite bind_cons, fmap_app, rowsFirst_keys_eq, IH.
  by rewrite <-list_fmap_compose.
Qed.

Lemma itemRowsOf_keys_eq h cid s b secs :
  (keyOf <$> itemRowsOf h cid s b secs : list (string * string * string))
  = (secs ≫= λ sec, (λ x, (s, sectionItemId x, cid)) <$> itemsOf h sec).
Proof.
  destruct secs as [|sec secs]; [done|].
  cbn [itemRowsOf]. rewrite bind_cons, fmap_app, rowsFirst_keys_eq, <-list_fmap_compose.
  f_equal. rewrite fmap_bind_list. apply bind_ext_in. intros sec' _.
  by rewrite rowsFirst_keys_eq, <-list_fmap_compose.
Qed.

Lemma itemRowsFrom_keys_eq h st cid s b mods :
  (keyOf <$> itemRowsFrom h st cid s b mods : list (string * string * string))
  = (mods ≫= λ m, sectionsOf h m ≫= λ sec,
       (λ x, (s, sectionItemId x, cid)) <$> itemsOf h sec).
Proof.
  revert b. induction mods as [|m mods IH]; intros b; [done|].
  cbn [itemRowsFrom]. by rewrite bind_cons, fmap_app, itemRowsOf_keys_eq, IH.
Qed.

(** A key among the keys prepared for a listed student is in the table
    afterwards. *)
Lemma foldl_createMany_key_present {R K : Type} `{Keyed R K} `{EqDecision K}
    (data : string → list R) (ss : list string) (t : list R) (s : string) (k : K) :
  s ∈ ss → k ∈ (keyOf <$> data s : list K) →
  is_Some (findUnique k (foldl (λ t s, createManySkipDuplicates (data s) t) t ss)).
Proof.
  intros Hs (row & -> & Hrow)%list_elem_of_fmap.
  by apply (foldl_createMany_present data ss t s).
Qed.

(** X17.  When the call returns, every listed student has a course row and
    a progress row for every module, every section and every section item of
    the curriculum. *)
Theorem initialization_covers_curriculum cd h st r h1 st1 s :
  initializeStudentProgress cd h st = (Ok r, h1, st1) →
  s ∈ studentIds cd →
  is_Some (findUnique (s, courseInstanceId cd) (studentCourseProgress st1))
  ∧ ∀ m, m ∈ modulesOf h cd →
      is_Some (findUnique (s, moduleId m, courseInstanceId cd) (studentModuleProgress st1))
      ∧ ∀ sec, sec ∈ sectionsOf h m →
          is_Some (findUnique (s, sectionId sec, courseInstanceId cd)
                     (studentSectionProgress st1))
          ∧ ∀ it, it ∈ itemsOf h sec →
              is_Some (findUnique (s, sectionItemId it, courseInstanceId cd)
                         (studentSectionItemProgress st1)).
Proof.
  intros Hrun Hs.
  destruct (initializeStudentProgress_tables _ _ _ _ _ _ Hrun)
    as (Hh1 & _ & _ & -> & -> & -> & ->).
  set (cid := courseInstanceId cd).
  assert (Hmods : modulesOf h1 cd = modulesOf h cd)
    by (by rewrite Hh1, extractAllIds_modulesOf).
  split; [by apply upsertCourseRows_present|].
  intros m Hm. split.
  { apply (foldl_createMany_key_present
             (λ s, moduleRowsFrom st cid s true (modulesOf h1 cd)) _ _ s); [done|].
    rewrite moduleRowsFrom_keys_eq, Hmods.
    by apply (list_elem_of_fmap_2 (λ m, (s, moduleId m, cid))). }
  intros sec Hsec.
  assert (Hsec1 : sec ∈ sectionsOf h1 m).
  { by rewrite Hh1, extractAllIds_sectionsOf, elem_of_sortBySequence. }
  split.
  { apply (foldl_createMany_key_present
             (λ s, sectionRowsFrom h1 st cid s true (modulesOf h1 cd)) _ _ s); [done|].
    rewrite sectionRowsFrom_keys_eq, Hmods.
    apply list_elem_of_bind. exists m. split; [|done].
    by apply (list_elem_of_fmap_2 (λ x, (s, sectionId x, cid))). }
  intros it Hit.
  assert (Hit1 : it ∈ itemsOf h1 sec).
  { by rewrite Hh1, (extractAllIds_itemsOf cd h m sec), elem_of_sortBySequence. }
  apply (foldl_createMany_key_present
           (λ s, itemRowsFrom h1 st cid s true (modulesOf h1 cd)) _ _ s); [done|].
  rewrite itemRowsFrom_keys_eq, Hmods.
  apply list_elem_of_bind. exists m. split; [|done].
  apply list_elem_of_bind. exists sec. split; [|done].
  by apply (list_elem_of_fmap_2 (λ x, (s, sectionItemId x, cid))).
Qed.

(** X17 on the sample, for bob, when M3 is added to the course. *)
Lemma initialization_covers_curriculum_sample :
  let st1 := (initializeStudentProgress sampleCourse extendedHeap completedStore).2 in
  is_Some (findUnique ("bob", courseInstanceId sampleCourse) (studentCourseProgress st1))
  ∧ ∀ m, m ∈ modulesOf extendedHeap sampleCourse →
      is_Some (findUnique ("bob", moduleId m, courseInstanceId sampleCourse)
                 (studentModuleProgress st1))
      ∧ ∀ sec, sec ∈ sectionsOf extendedHeap m →
          is_Some (findUnique ("bob", sectionId sec, courseInstanceId sampleCourse)
                     (studentSectionProgress st1))
          ∧ ∀ it, it ∈ itemsOf extendedHeap sec →
              is_Some (findUnique ("bob", sectionItemId it, courseInstanceId sampleCourse)
                         (studentSectionItemProgress st1)).
Proof.
  intros st1.
  apply (initialization_covers_curriculum sampleCourse extendedHeap completedStore
           (mkInitResult 2 36)
           (initializeStudentProgress sampleCourse extendedHeap completedStore).1.2).
  - vm_compute. reflexivity.
  - right. left.
Defined.

(** ** The cascade engine: what a call reports *)

Lemma bind_Ok_inv {A B : Type} (m : M A) (f : A → M B) st b st' :
  (m ≫= f) st = (Ok b, st') → ∃ a st1, m st = (Ok a, st1) ∧ f a st1 = (Ok b, st').
Proof.
  unfold mbind, M_bind. destruct (m st) as [[a|e] st1]; [by eauto|done].
Qed.

Tactic Notation "bind_inv" hyp(H) "as" ident(a) ident(Ha) :=
  let st := fresh "st" in apply bind_Ok_inv in H as (a & st & Ha & H).

Section ReportFacts.
Variable repo : CourseProgressRepository.
Variables courseInstanceId studentId : string.

Lemma updateModuleProgress_report moduleId st u st' :
  updateModuleProgress repo courseInstanceId studentId moduleId true st = (Ok u, st') →
  (∃ nextModuleId sectionId firstItemId,
     u = mkUpdatedEntities None (Some [moduleId; nextModuleId]) (Some [sectionId])
           (Some [firstItemId]))
  ∨ u = mkUpdatedEntities (Some courseInstanceId) (Some [moduleId]) None None.
Proof.
  unfold updateModuleProgress. intros H.
  bind_inv H as x1 H1. bind_inv H as d H2. destruct d as [d|]; [|done].
  destruct (orNull (mnr_nextModuleId d)) as [next|].
  - bind_inv H as x3 H3. bind_inv H as nd H4. destruct nd as [nd|]; [|done].
    bind_inv H as x5 H5. bind_inv H as sd H6. destruct sd as [sd|]; [|done].
    bind_inv H as x7 H7. injection H as <- <-. left. by eexists _, _, _.
  - bind_inv H as v Hv. unfold updateCourseProgress in Hv. bind_inv Hv as x3 H3.
    injection Hv as <- <-. injection H as <- <-. by right.
Qed.

Lemma updateSectionProgress_report sectionId st u st' :
  updateSectionProgress repo courseInstanceId studentId sectionId true st = (Ok u, st') →
  (∃ nextSectionId firstItemId,
     u = mkUpdatedEntities None None (Some [sectionId; nextSectionId]) (Some [firstItemId]))
  ∨ (∃ moduleId nextModuleId firstItemId,
       u = mkUpdatedEntities None (Some [moduleId; nextModuleId]) (Some [sectionId])
             (Some [firstItemId]))
  ∨ (∃ moduleId,
       u = mkUpdatedEntities (Some courseInstanceId) (Some [moduleId]) (Some [sectionId])
             None).
Proof.
  unfold updateSectionProgress. intros H.
  bind_inv H as x1 H1. bind_inv H as d H2. destruct d as [d|]; [|done].
  destruct (orNull (snr_nextSectionId d)) as [next|].
  - bind_inv H as x3 H3. bind_inv H as nd H4. destruct nd as [nd|]; [|done].
    bind_inv H as x5 H5. injection H as <- <-. left. by eexists _, _.
  - bind_inv H as v Hv. injection H as <- <-. right.
    apply updateModuleProgress_report in Hv as [(nm & sec & it & ->)| ->]; simpl.
    + left. by eexists _, _, _.
    + right. by eexists.
Qed.

Lemma markSectionItem_report item st u st' :
  markSectionItem repo courseInstanceId studentId true item st = (Ok u, st') →
  cascadeReport courseInstanceId item u.
Proof.
  unfold markSectionItem. intros H.
  bind_inv H as x1 H1. bind_inv H as d H2. destruct d as [d|]; [|done].
  destruct (orNull (sinr_nextSectionItemId d)) as [next|].
  - bind_inv H as x3 H3. injection H as <- <-. left. by eexists.
  - bind_inv H as v Hv. injection H as <- <-. right.
    apply updateSectionProgress_report in Hv
      as [(ns & it & ->)|[(m & nm & it & ->)|(m & ->)]];
      unfold updateEntityListFields; simpl.
    + left. by eexists _, _, _.
    + right. left. by eexists _, _, _, _.
    + right. right. by eexists _, _.
Qed.

Lemma markSectionItem_plain item st u st' :
  markSectionItem repo courseInstanceId studentId false item st = (Ok u, st') →
  u = mkUpdatedEntities None None None (Some [item]).
Proof.
  unfold markSectionItem. intros H. bind_inv H as x1 H1. by injection H as <- <-.
Qed.

(** The entries a call returned, one per item and in the order of the items:
    each is the entry the loop body made for its item. *)
Lemma completeSectionItems_Ok cascade ids acc st us st' :
  completeSectionItems repo courseInstanceId studentId cascade ids acc st = (Ok us, st') →
  ∃ us', us = acc ++ us'
    ∧ Forall2 (λ item u, ∃ st1 st2,
                 markSectionItem repo courseInstanceId studentId cascade item st1
                 = (Ok u, st2)) ids us'.
Proof.
  revert acc st. induction ids as [|item ids IH]; intros acc st H; simpl in H.
  - injection H as <- <-. exists []. split; [by rewrite app_nil_r|constructor].
  - bind_inv H as u Hu. apply IH in H as (us' & -> & Hall).
    exists (u :: us'). split; [by rewrite <-app_assoc|].
    constructor; [|done]. unfold completeSectionItem in Hu. bind_inv Hu as x1 H1.
    by eauto.
Qed.

(** The accumulator is only appended to. *)
Lemma completeSectionItems_acc cascade ids acc st :
  completeSectionItems repo courseInstanceId studentId cascade ids acc st
  = match completeSectionItems repo courseInstanceId studentId cascade ids [] st with
    | (Ok us, st') => (Ok (acc ++ us), st')
    | (Throw e, st') => (Throw e, st')
    end.
Proof.
  revert acc st. induction ids as [|item ids IH]; intros acc st; simpl.
  - unfold mret, M_ret. by rewrite app_nil_r.
  - unfold mbind, M_bind.
    destruct (completeSectionItem _ _ _ _ _ st) as [[u|e] st1]; [|done].
    rewrite (IH (acc ++ [u])), (IH ([] ++ [u])).
    destruct (completeSectionItems _ _ _ _ _ [] st1) as [[us|e] st2]; [|done].
    by rewrite <-app_assoc.
Qed.

End ReportFacts.

(** X18.  With [cascade = true] a call that returns gives one entry per item
    of the list, in the order of the list, and each entry has one of four
    shapes: [sectionItems] alone, holding the item and its next item;
    [sections] holding the item's section and the next section, with the
    first item of that section and the item; [modules] holding the module and
    the next module, [sections] holding the item's section alone, with the
    first item of the next module and the item; or [course] holding the
    course instance of the call, with the module, the section and the item.
    [course] is set in the last shape only. *)
Theorem cascade_reports repo courseInstanceId studentId sectionItemIds st us st' :
  updateSectionItemProgress repo courseInstanceId studentId sectionItemIds true st
    = (Ok us, st') →
  Forall2 (cascadeReport courseInstanceId) sectionItemIds us.
Proof.
  unfold updateSectionItemProgress. intros H.
  apply completeSectionItems_Ok in H as (us' & -> & Hall). simpl.
  eapply Forall2_impl; [exact Hall|].
  intros item u (st1 & st2 & Hu). by eapply markSectionItem_report.
Qed.

(** X18 on the sample: alice completes the eight items in one call. *)
Lemma cascade_reports_sample :
  Forall2 (cascadeReport "C") sampleItems
    [mkUpdatedEntities None None None (Some ["M1S1I1"; "M1S1I2"]);
     mkUpdatedEntities None None (Some ["M1S1"; "M1S2"]) (Some ["M1S2I1"; "M1S1I2"]);
     mkUpdatedEntities None None None (Some ["M1S2I1"; "M1S2I2"]);
     mkUpdatedEntities None (Some ["M1"; "M2"]) (Some ["M1S2"]) (Some ["M2S1I1"; "M1S2I2"]);
     mkUpdatedEntities None None None (Some ["M2S1I1"; "M2S1I2"]);
     mkUpdatedEntities None None (Some ["M2S1"; "M2S2"]) (Some ["M2S2I1"; "M2S1I2"]);
     mkUpdatedEntities None None None (Some ["M2S2I1"; "M2S2I2"]);
     mkUpdatedEntities (Some "C") (Some ["M2"]) (Some ["M2S2"]) (Some ["M2S2I2"])].
Proof.
  apply (cascade_reports specRepository "C" "alice" sampleItems initializedStore _
           completedStore).
  vm_compute. reflexivity.
Defined.

(** X19.  With [cascade = false] a call that returns gives, for each item of
    the list and in the order of the list, an entry that holds that item
    alone: no section, module or course is reported. *)
Theorem plain_reports repo courseInstanceId studentId sectionItemIds st us st' :
  updateSectionItemProgress repo courseInstanceId studentId sectionItemIds false st
    = (Ok us, st') →
  us = (λ item, mkUpdatedEntities None None None (Some [item])) <$> sectionItemIds.
Proof.
  unfold updateSectionItemProgress. intros H.
  apply completeSectionItems_Ok in H as (us' & -> & Hall). simpl.
  induction Hall as [|item u ids us (st1 & st2 & Hu) _ IH]; [done|].
  apply markSectionItem_plain in Hu as ->. by rewrite fmap_cons, IH.
Qed.

(** X19 on the sample. *)
Lemma plain_reports_sample :
  [mkUpdatedEntities None None None (Some ["M1S1I1"]);
   mkUpdatedEntities None None None (Some ["M1S1I2"])]
  = (λ item, mkUpdatedEntities None None None (Some [item])) <$> ["M1S1I1"; "M1S1I2"].
Proof.
  apply (plain_reports specRepository "C" "alice" ["M1S1I1"; "M1S1I2"] initializedStore _
           (updateSectionItemProgress specRepository "C" "alice" ["M1S1I1"; "M1S1I2"] false
              initializedStore).2).
  vm_compute. reflexivity.
Defined.

(** X20.  A call on a list is the call on its first part followed by the call
    on the rest: the entries are those of the two calls, one after the other.
    If the first part fails, the rest is not looked at, and what was written
    until the failure stays written; if the rest fails, the entries of the
    first part are not returned, and what the first part wrote stays
    written. *)
Theorem updateSectionItemProgress_app repo courseInstanceId studentId cascade pre post st :
  updateSectionItemProgress repo courseInstanceId studentId (pre ++ post) cascade st
  = match updateSectionItemProgress repo courseInstanceId studentId pre cascade st with
    | (Ok us1, st1) =>
        match updateSectionItemProgress repo courseInstanceId studentId post cascade st1 with
        | (Ok us2, st2) => (Ok (us1 ++ us2), st2)
        | (Throw e, st2) => (Throw e, st2)
        end
    | (Throw e, st1) => (Throw e, st1)
    end.
Proof.
  unfold updateSectionItemProgress. rewrite completeSectionItems_app.
  destruct (completeSectionItems _ _ _ _ pre [] st) as [[us1|e] st1]; [|done].
  apply completeSectionItems_acc.
Qed.

(** X21.  The gating check reads and never writes.  It throws the gating
    error when a row of [SectionItemNext] points to the item, the student has
    a progress row for the item of the first such row, and the status there
    is not COMPLETE; it passes in every other case: when no row points to the
    item, when the student has no progress row for the item of the first such
    row, and when that status is COMPLETE. *)
Theorem gating_check_exact courseInstanceId studentId sectionItemId st :
  let check := checkPreviousSectionItem courseInstanceId studentId sectionItemId st in
  let first :=
    List.find (λ r, bool_decide (sinr_nextSectionItemId r = Some sectionItemId))
      (sectionItemNext st) in
  let progressOf prevRow :=
    findUnique (studentId, sinr_sectionItemId prevRow, courseInstanceId)
      (studentSectionItemProgress st) in
  check.2 = st
  ∧ (∀ prevRow p,
       first = Some prevRow → progressOf prevRow = Some p → ep_progress p ≠ COMPLETE →
       check.1 = Throw (PreviousItemNotComplete sectionItemId (sinr_sectionItemId prevRow)))
  ∧ (first = None → check.1 = Ok ())
  ∧ (∀ prevRow, first = Some prevRow → progressOf prevRow = None → check.1 = Ok ())
  ∧ (∀ prevRow p,
       first = Some prevRow → progressOf prevRow = Some p → ep_progress p = COMPLETE →
       check.1 = Ok ())
  ∧ (∀ e, check.1 = Throw e ↔
       ∃ prevRow p,
         first = Some prevRow ∧ progressOf prevRow = Some p ∧ ep_progress p ≠ COMPLETE
         ∧ e = PreviousItemNotComplete sectionItemId (sinr_sectionItemId prevRow)).
Proof.
  cbv zeta.
  unfold checkPreviousSectionItem, findPreviousSectionItem,
    findSectionItemProgress, readStore, mbind, M_bind.
  destruct (List.find _ _) as [prevRow|] eqn:Hprev; simpl.
  2:{ split_and!; [done..|]. intros e. split; [done|]. by intros (? & ? & ? & _). }
  destruct (findUnique _ _) as [p|] eqn:Hp; simpl.
  2:{ split_and!; [done| |done|done|  |].
      - intros ? ? [= <-]. by rewrite Hp.
      - intros ? ? [= <-]. by rewrite Hp.
      - intros e. split; [done|]. intros (? & ? & [= <-] & Hp' & _). by rewrite Hp in Hp'. }
  destruct (decide (ep_progress p ≠ COMPLETE)) as [Hne|He]; simpl.
  - split_and!; [done| |done| | |].
    + by intros ? ? [= <-] _ _.
    + intros ? [= <-]. by rewrite Hp.
    + intros ? ? [= <-]. rewrite Hp. intros Heq Hc. injection Heq as <-. contradiction.
    + intros e. split.
      * intros [= <-]. by exists prevRow, p.
      * by intros (? & ? & [= <-] & _ & _ & ->).
  - assert (ep_progress p = COMPLETE) as Hc.
    { destruct (decide (ep_progress p = COMPLETE)); [done|contradiction]. }
    split_and!; [done| |done| |done|].
    + intros ? ? [= <-]. rewrite Hp. intros Heq Hne. injection Heq as <-. contradiction.
    + intros ? [= <-]. by rewrite Hp.
    + intros e. split; [done|].
      intros (? & ? & [= <-] & Hp' & Hne & _). rewrite Hp in Hp'.
      injection Hp' as <-. contradiction.
Qed.

(** ** [updateEntityListFields] *)

(** X22.  [updateEntityListFields] keeps [course] and appends: a list field
    of the result holds the IDs of the field of [updatedEntities] followed by
    those of [updates], so no ID is lost; a field is absent from the result
    only when it is absent from both; updates without fields change nothing;
    and merging two updates one after the other is merging their merge. *)
Theorem updateEntityListFields_appends u a b :
  course (updateEntityListFields u a) = course u
  ∧ default [] (upd_modules (updateEntityListFields u a))
    = default [] (upd_modules u) ++ default [] (upd_modules a)
  ∧ default [] (upd_sections (updateEntityListFields u a))
    = default [] (upd_sections u) ++ default [] (upd_sections a)
  ∧ default [] (upd_sectionItems (updateEntityListFields u a))
    = default [] (upd_sectionItems u) ++ default [] (upd_sectionItems a)
  ∧ (upd_modules (updateEntityListFields u a) = None
     ↔ upd_modules u = None ∧ upd_modules a = None)
  ∧ (upd_sections (updateEntityListFields u a) = None
     ↔ upd_sections u = None ∧ upd_sections a = None)
  ∧ (upd_sectionItems (updateEntityListFields u a) = None
     ↔ upd_sectionItems u = None ∧ upd_sectionItems a = None)
  ∧ updateEntityListFields u (mkUpdatedEntities None None None None) = u
  ∧ updateEntityListFields (updateEntityListFields u a) b
    = updateEntityListFields u (updateEntityListFields a b).
Proof.
  destruct u as [c [um|] [us|] [ui|]], a as [ca [am|] [as_|] [ai|]],
    b as [cb [bm|] [bs|] [bi|]];
    unfold updateEntityListFields, appendField; simpl;
    rewrite ?app_nil_r, <-?app_assoc; split_and!; try done;
    (split; [intros ?|intros [? ?]]; done).
Qed.

(** X23.  The cascade marks the next entity before it looks up that entity's
    details.  When the details record of the next section, of the next
    module, or of the first section of the next module is missing, the call
    throws the "details not found" error that names the entity whose record
    is missing, and what was marked until then, the next entity included,
    stays marked. *)
Theorem missing_next_details repo courseInstanceId studentId :
  (∀ sectionId st st1 d st2 next st3 st4,
     repo_updateSectionProgress repo courseInstanceId studentId sectionId st
       = (Ok (), st1) →
     repo_getSectionDetails repo courseInstanceId studentId sectionId st1
       = (Ok (Some d), st2) →
     orNull (snr_nextSectionId d) = Some next →
     repo_updateSectionProgress repo courseInstanceId studentId next st2 = (Ok (), st3) →
     repo_getSectionDetails repo courseInstanceId studentId next st3 = (Ok None, st4) →
     updateSectionProgress repo courseInstanceId studentId sectionId true st
     = (Throw (SectionDetailsNotFound next), st4))
  ∧ (∀ moduleId st st1 d st2 next st3 st4,
       repo_updateModuleProgress repo courseInstanceId studentId moduleId st
         = (Ok (), st1) →
       repo_getModuleDetails repo courseInstanceId studentId moduleId st1
         = (Ok (Some d), st2) →
       orNull (mnr_nextModuleId d) = Some next →
       repo_updateModuleProgress repo courseInstanceId studentId next st2 = (Ok (), st3) →
       repo_getModuleDetails repo courseInstanceId studentId next st3 = (Ok None, st4) →
       updateModuleProgress repo courseInstanceId studentId moduleId true st
       = (Throw (ModuleDetailsNotFound next), st4))
  ∧ (∀ moduleId st st1 d st2 next st3 nd st4 st5 st6,
       repo_updateModuleProgress repo courseInstanceId studentId moduleId st
         = (Ok (), st1) →
       repo_getModuleDetails repo courseInstanceId studentId moduleId st1
         = (Ok (Some d), st2) →
       orNull (mnr_nextModuleId d) = Some next →
       repo_updateModuleProgress repo courseInstanceId studentId next st2 = (Ok (), st3) →
       repo_getModuleDetails repo courseInstanceId studentId next st3
         = (Ok (Some nd), st4) →
       repo_updateSectionProgress repo courseInstanceId studentId (mnr_sectionId nd) st4
         = (Ok (), st5) →
       repo_getSectionDetails repo courseInstanceId studentId (mnr_sectionId nd) st5
         = (Ok None, st6) →
       updateModuleProgress repo courseInstanceId studentId moduleId true st
       = (Throw (SectionDetailsNotFound (mnr_sectionId nd)), st6)).
Proof.
  split_and!.
  - intros sectionId st st1 d st2 next st3 st4 H1 H2 Hn H3 H4.
    unfold updateSectionProgress.
    rewrite (bind_Ok _ _ _ _ _ H1), (bind_Ok _ _ _ _ _ H2), Hn.
    by rewrite (bind_Ok _ _ _ _ _ H3), (bind_Ok _ _ _ _ _ H4).
  - intros moduleId st st1 d st2 next st3 st4 H1 H2 Hn H3 H4.
    unfold updateModuleProgress.
    rewrite (bind_Ok _ _ _ _ _ H1), (bind_Ok _ _ _ _ _ H2), Hn.
    by rewrite (bind_Ok _ _ _ _ _ H3), (bind_Ok _ _ _ _ _ H4).
  - intros moduleId st st1 d st2 next st3 nd st4 st5 st6 H1 H2 Hn H3 H4 H5 H6.
    unfold updateModuleProgress.
    rewrite (bind_Ok _ _ _ _ _ H1), (bind_Ok _ _ _ _ _ H2), Hn.
    rewrite (bind_Ok _ _ _ _ _ H3), (bind_Ok _ _ _ _ _ H4).
    by rewrite (bind_Ok _ _ _ _ _ H5), (bind_Ok _ _ _ _ _ H6).
Qed.

(** X23 on the sample: M1S1 is completed and M1S2, which follows it, is put
    IN_PROGRESS; then the details of M1S2 are found missing. *)
Lemma missing_next_details_sample :
  let st1 := (markProgress studentSectionProgress setStudentSectionProgress
                "C" "alice" "M1S1" noNextSectionStore).2 in
  let st3 := (markProgress studentSectionProgress setStudentSectionProgress
                "C" "alice" "M1S2" st1).2 in
  updateSectionProgress specRepository "C" "alice" "M1S1" true noNextSectionStore
  = (Throw (SectionDetailsNotFound "M1S2"), st3)
  ∧ ep_progress <$> findUnique ("alice", "M1S2", "C") (studentSectionProgress st3)
    = Some IN_PROGRESS.
Proof.
  intros st1 st3. split.
  - apply (proj1 (missing_next_details specRepository "C" "alice")
             "M1S1" noNextSectionStore st1 (mkSectionNext "M1S1" "M1S1I1" (Some "M1S2") "M1")
             st1 "M1S2" st3 st3);
      vm_compute; reflexivity.
  - vm_compute. reflexivity.
Defined.
